(** * Localization string analyzer: duplicate detection and cleaning

    A shallow embedding of the three Go programs of the repository
    (the analyzer with its cleaned-file generator, the key counter and the
    key checker) and the properties of their line parser, duplicate
    grouping and cleaned output.

    Go strings are byte sequences: they are modelled as [list ascii].
    The Go standard-library functions the programs call ([strings.TrimSpace],
    [strings.HasPrefix], [regexp.FindStringSubmatch], [path/filepath], the
    line splitting of [bufio.Scanner]) are modelled from their documented
    behaviour, for a Unix target. *)

From Stdlib Require Import ZArith Lia Ascii.
From stdpp Require Import base option list sorting gmap strings.

Local Open Scope Z_scope.

Abbreviation bytes := (list ascii).

(** A string literal as a Go string. *)
Definition str (s : string) : bytes := String.list_ascii_of_string s.

Definition dquote : ascii := "034"%char.
Definition slash : ascii := "/"%char.
Definition dot : ascii := "."%char.

(** ** Go [int]: 64-bit two's complement *)

Module GoInt.

Definition min_int : Z := - 2 ^ 63.
Definition max_int : Z := 2 ^ 63 - 1.

(** Wrap-around of a mathematical integer into the range of [int]. *)
Definition wrap (z : Z) : Z := (z + 2 ^ 63) mod 2 ^ 64 - 2 ^ 63.

Definition add (a b : Z) : Z := wrap (a + b).
Definition sub (a b : Z) : Z := wrap (a - b).

(** [len(x)] of a slice or map, as an [int]. *)
Definition len {A} (l : list A) : Z := Z.of_nat (length l).

End GoInt.

(** ** Package [strings] *)

Module Strings.

(** [asciiSpace] of package strings: tab, LF, VT, FF, CR, space. *)
Definition asciiSpace (c : ascii) : bool :=
  Ascii.eqb c "009" || Ascii.eqb c "010" || Ascii.eqb c "011" ||
  Ascii.eqb c "012" || Ascii.eqb c "013" || Ascii.eqb c " ".

Definition b (n : nat) : ascii := ascii_of_nat n.

(** The two-byte UTF-8 forms of the white-space runes U+0085 and U+00A0. *)
Definition space2 (c1 c2 : ascii) : bool :=
  Ascii.eqb c1 (b 194) && (Ascii.eqb c2 (b 133) || Ascii.eqb c2 (b 160)).

(** The three-byte UTF-8 forms of the white-space runes U+1680,
    U+2000..U+200A, U+2028, U+2029, U+202F, U+205F and U+3000. *)
Definition space3 (c1 c2 c3 : ascii) : bool :=
  (Ascii.eqb c1 (b 225) && Ascii.eqb c2 (b 154) && Ascii.eqb c3 (b 128)) ||
  (Ascii.eqb c1 (b 226) && Ascii.eqb c2 (b 128) &&
     ((128 <=? nat_of_ascii c3)%nat && (nat_of_ascii c3 <=? 138)%nat
      || Ascii.eqb c3 (b 168) || Ascii.eqb c3 (b 169) || Ascii.eqb c3 (b 175))) ||
  (Ascii.eqb c1 (b 226) && Ascii.eqb c2 (b 129) && Ascii.eqb c3 (b 159)) ||
  (Ascii.eqb c1 (b 227) && Ascii.eqb c2 (b 128) && Ascii.eqb c3 (b 128)).

(** [TrimLeftFunc(s, unicode.IsSpace)]: decoding runes from the front, a
    rune is white space exactly when the string starts with the UTF-8 form
    of a white-space rune (an invalid byte decodes to U+FFFD, no space). *)
Fixpoint TrimLeftSpace (s : bytes) : bytes :=
  match s with
  | [] => []
  | c1 :: s1 =>
    if asciiSpace c1 then TrimLeftSpace s1 else
    match s1 with
    | [] => s
    | c2 :: s2 =>
      if space2 c1 c2 then TrimLeftSpace s2 else
      match s2 with
      | [] => s
      | c3 :: s3 => if space3 c1 c2 c3 then TrimLeftSpace s3 else s
      end
    end
  end.

(** The same from the back, on the reversed string: the last rune is white
    space exactly when the string ends with the UTF-8 form of one. *)
Fixpoint TrimLeftSpaceRev (r : bytes) : bytes :=
  match r with
  | [] => []
  | c1 :: r1 =>
    if asciiSpace c1 then TrimLeftSpaceRev r1 else
    match r1 with
    | [] => r
    | c2 :: r2 =>
      if space2 c2 c1 then TrimLeftSpaceRev r2 else
      match r2 with
      | [] => r
      | c3 :: r3 => if space3 c3 c2 c1 then TrimLeftSpaceRev r3 else r
      end
    end
  end.

Definition TrimRightSpace (s : bytes) : bytes := rev (TrimLeftSpaceRev (rev s)).

(** [strings.TrimSpace]: all leading and trailing Unicode white space
    removed. *)
Definition TrimSpace (s : bytes) : bytes := TrimRightSpace (TrimLeftSpace s).

(** [strings.HasPrefix]. *)
Fixpoint HasPrefix (s prefix : bytes) {struct prefix} : bool :=
  match prefix, s with
  | [], _ => true
  | p :: prefix', c :: s' => Ascii.eqb c p && HasPrefix s' prefix'
  | _ :: _, [] => false
  end.

(** [strings.HasSuffix]. *)
Definition HasSuffix (s suffix : bytes) : bool := HasPrefix (rev s) (rev suffix).

(** [strings.TrimSuffix]. *)
Definition TrimSuffix (s suffix : bytes) : bytes :=
  if HasSuffix s suffix then take (length s - length suffix) s else s.

End Strings.

(** ** Package [bufio]: the lines of a [Scanner] *)

Module Bufio.

Definition lf : ascii := "010"%char.
Definition cr : ascii := "013"%char.

(** [dropCR]: the data without the carriage return at its end, if it has
    one. *)
Definition dropCR (data : bytes) : bytes :=
  match rev data with
  | c :: r => if Ascii.eqb c cr then rev r else data
  | [] => data
  end.

(** The tokens that [Scanner.Scan] yields with the split function
    [ScanLines], which is the default, on data read to its end without
    error; [line] is the data read since the last newline.  A token is the
    data up to the next newline, through [dropCR]; data left at the end
    without a newline is a last token, through [dropCR] as well, and
    nothing is yielded for no data after the last newline. *)
Fixpoint scan (line data : bytes) : list bytes :=
  match data with
  | [] => match line with [] => [] | _ => [dropCR line] end
  | c :: data' =>
    if Ascii.eqb c lf then dropCR line :: scan [] data'
    else scan (line ++ [c]) data'
  end.

(** The lines of a file with content [data], as [scanner.Text()] gives
    them one after the other. *)
Definition tokens (data : bytes) : list bytes := scan [] data.

End Bufio.

(** ** Package [regexp], for patterns that are a sequence of quantified
    character classes

    The only pattern of the programs (a quoted key, an equals sign, a
    quoted value and a semicolon, with optional white space between them)
    is a concatenation of character classes, each taken once, starred or
    plussed (greedy), two of them captured.  Its special characters are
    ASCII, so matching bytes and matching runes give the same byte
    ranges. *)

Module Regexp.

Inductive quant := Once | Star | Plus.

Record item := Item { cls : ascii → bool; rep : quant; captured : bool }.

Abbreviation regexp := (list item).

(** Greedy repetition of a class with backtracking: the longest run first,
    then shorter ones, each continued by [k]. *)
Fixpoint many {R} (c : ascii → bool) (k : bytes → bytes → option R)
    (taken s : bytes) : option R :=
  match s with
  | x :: s' =>
    if c x then
      match many c k (taken ++ [x]) s' with
      | Some r => Some r
      | None => k taken s
      end
    else k taken s
  | [] => k taken s
  end.

(** A match of the pattern at the start of [s]: the matched text and the
    captured groups. *)
Fixpoint match_here (r : regexp) (s : bytes) : option (bytes * list bytes) :=
  match r with
  | [] => Some ([], [])
  | it :: r' =>
    let k (taken rest : bytes) :=
      match match_here r' rest with
      | Some (m, caps) =>
        Some (taken ++ m, if captured it then taken :: caps else caps)
      | None => None
      end in
    match rep it with
    | Once =>
      match s with
      | x :: s' => if cls it x then k [x] s' else None
      | [] => None
      end
    | Star => many (cls it) k [] s
    | Plus =>
      match s with
      | x :: s' => if cls it x then many (cls it) k [x] s' else None
      | [] => None
      end
    end
  end.

(** The leftmost match in [s]. *)
Fixpoint find (r : regexp) (s : bytes) : option (bytes * list bytes) :=
  match match_here r s with
  | Some res => Some res
  | None =>
    match s with
    | [] => None
    | _ :: s' => find r s'
    end
  end.

(** [FindStringSubmatch] of a compiled pattern: the text of the leftmost match followed
    by the text of each group; [nil] (the empty list) when nothing matches. *)
Definition FindStringSubmatch (r : regexp) (s : bytes) : list bytes :=
  match find r s with
  | Some (m, caps) => m :: caps
  | None => []
  end.

Definition lit (c : ascii) : item := Item (Ascii.eqb c) Once false.

(** The class of every character but the double quote. *)
Definition notQuote (c : ascii) : bool := negb (Ascii.eqb c dquote).

(** [\s], that is [[\t\n\f\r ]]. *)
Definition perlSpace (c : ascii) : bool :=
  Ascii.eqb c "009" || Ascii.eqb c "010" || Ascii.eqb c "012" ||
  Ascii.eqb c "013" || Ascii.eqb c " ".

End Regexp.

(** The pattern all three programs compile with [regexp.MustCompile]:
    quote, group 1 = one or more non-quotes, quote, [\s*], equals, [\s*],
    quote, group 2 = one or more non-quotes, quote, [\s*], semicolon. *)
Definition kvPattern : Regexp.regexp :=
  let sp := Regexp.Item Regexp.perlSpace Regexp.Star false in
  let grp := Regexp.Item Regexp.notQuote Regexp.Plus true in
  [ Regexp.lit dquote; grp; Regexp.lit dquote; sp; Regexp.lit "=";
    sp; Regexp.lit dquote; grp; Regexp.lit dquote; sp; Regexp.lit ";" ].

(** ** Package [path/filepath], Unix *)

Module Filepath.

Definition isSlash (c : ascii) : bool := Ascii.eqb c slash.

Definition bytes_eqb (a b : bytes) : bool := bool_decide (a = b).

(** The elements of a path between its separators. *)
Fixpoint split (path : bytes) : list bytes :=
  match path with
  | [] => [[]]
  | c :: path' =>
    if isSlash c then [] :: split path'
    else match split path' with
         | e :: es => (c :: e) :: es
         | [] => [[c]]
         end
  end.

(** [strings.Join(elems, sep)] with the separator. *)
Fixpoint joinSlash (elems : list bytes) : bytes :=
  match elems with
  | [] => []
  | [e] => e
  | e :: es => e ++ slash :: joinSlash es
  end.

(** One element of the path read by [Clean]; [out] is the output buffer as
    the stack of the elements written so far, the last one first.  An empty
    element and [.] are skipped; [..] removes the last real element, is
    appended when the path is not rooted and there is none, and is dropped
    at the root. *)
Definition cleanElem (rooted : bool) (out : list bytes) (e : bytes) : list bytes :=
  if bytes_eqb e [] then out
  else if bytes_eqb e [dot] then out
  else if bytes_eqb e [dot; dot] then
    match out with
    | top :: out' => if bytes_eqb top [dot; dot] then e :: out else out'
    | [] => if rooted then out else [e]
    end
  else e :: out.

(** [filepath.Clean]. *)
Definition Clean (path : bytes) : bytes :=
  match path with
  | [] => [dot]
  | c :: _ =>
    let rooted := isSlash c in
    let out := rev (fold_left (cleanElem rooted) (split path) []) in
    if rooted then slash :: joinSlash out
    else match out with
         | [] => [dot]
         | _ => joinSlash out
         end
  end.

(** The reversed path with everything after its last separator removed. *)
Fixpoint dropToSlash (r : bytes) : bytes :=
  match r with
  | [] => []
  | c :: r' => if isSlash c then r else dropToSlash r'
  end.

(** [filepath.Dir]: all but the last element, cleaned. *)
Definition Dir (path : bytes) : bytes := Clean (rev (dropToSlash (rev path))).

Fixpoint dropSlashes (r : bytes) : bytes :=
  match r with
  | [] => []
  | c :: r' => if isSlash c then dropSlashes r' else r
  end.

Fixpoint takeToSlash (r : bytes) : bytes :=
  match r with
  | [] => []
  | c :: r' => if isSlash c then [] else c :: takeToSlash r'
  end.

(** [filepath.Base]: the last element, trailing separators removed first. *)
Definition Base (path : bytes) : bytes :=
  match path with
  | [] => [dot]
  | _ =>
    match rev (takeToSlash (dropSlashes (rev path))) with
    | [] => [slash]
    | base => base
    end
  end.

(** The loop of [filepath.Ext] over the reversed path: back from the end
    to the first dot, giving up at a separator. *)
Fixpoint extLoop (r acc : bytes) : bytes :=
  match r with
  | [] => []
  | c :: r' =>
    if isSlash c then []
    else if Ascii.eqb c dot then c :: acc
    else extLoop r' (c :: acc)
  end.

(** [filepath.Ext]. *)
Definition Ext (path : bytes) : bytes := extLoop (rev path) [].

(** [filepath.Join]: the elements from the first non-empty one on, joined
    by separators and cleaned. *)
Fixpoint Join (elem : list bytes) : bytes :=
  match elem with
  | [] => []
  | e :: rest => if bytes_eqb e [] then Join rest else Clean (joinSlash elem)
  end.

End Filepath.

(** ** The operating system

    What the programs see of it: the result of opening a file for reading
    and scanning it line by line, and of creating a file or a directory. *)

Module Os.

(** An error of the operating system or of the scanner. *)
Inductive oserror := OsError (msg : bytes).

(** A [bufio.Scanner] with the default line splitter over an opened file:
    the tokens [Text()] gives while [Scan()] is true (the lines of the file,
    each without its end-of-line marker), then [Err()]. *)
Record scanner := Scanner { tokens : list bytes; Err : option oserror }.

Record t := Make {
  Open : bytes → oserror + scanner;
  Create : bytes → option oserror;
  MkdirAll : bytes → option oserror
}.

End Os.

(** The errors the programs build with [fmt.Errorf], by message. *)
Inductive error :=
| FailedToOpenFile (cause : Os.oserror)
| ErrorScanningFile (cause : Os.oserror)
| FailedToCreateDirectory (cause : Os.oserror)
| FailedToCreateCleanFile (cause : Os.oserror).

(** The test of the three programs on every line: comment lines and empty
    lines are skipped. *)
Definition skipped (trimmedLine : bytes) : bool :=
  Filepath.bytes_eqb trimmedLine [] || Strings.HasPrefix trimmedLine (str "//").

(** Go's [m[key]] on a map: the zero value when the key is absent. *)
Definition index {V} (zero : V) (m : gmap bytes V) (key : bytes) : V :=
  default zero (m !! key).

(** ** The analyzer (package main of the analyzer program) *)

Record KeyValue := mkKeyValue { Key : bytes; Value : bytes; LineNum : Z }.

(** The local variables of the scan loop of [analyzeLocalizationFile].
    The slices of entries are lists: [append] never changes the elements of
    a slice that shares its array, and the loop stores the appended slice
    again wherever it is kept. *)
Record scan := mkScan {
  keyEntries : gmap bytes (list KeyValue);
  duplicateKeys : gmap bytes (list KeyValue);
  uniqueEntries : gmap bytes KeyValue;
  rawLines : list bytes;
  lineNum : Z
}.

Definition scan0 : scan := mkScan ∅ ∅ ∅ [] 0.

(** The body of the scan loop, for the line [scanner.Text()] gives. *)
Definition scanLine (st : scan) (line : bytes) : scan :=
  let lineNum := GoInt.add (lineNum st) 1 in
  let rawLines := rawLines st ++ [line] in
  let st := mkScan (keyEntries st) (duplicateKeys st) (uniqueEntries st)
                   rawLines lineNum in
  let trimmedLine := Strings.TrimSpace line in
  if skipped trimmedLine then st
  else
    let matches := Regexp.FindStringSubmatch kvPattern line in
    if GoInt.len matches =? 3 then
      let key := nth 1 matches [] in
      let value := nth 2 matches [] in
      let entry := mkKeyValue key value lineNum in
      let uniqueEntries :=
        match uniqueEntries st !! key with
        | Some _ => uniqueEntries st
        | None => <[key := entry]> (uniqueEntries st)
        end in
      let keyEntries :=
        <[key := index [] (keyEntries st) key ++ [entry]]> (keyEntries st) in
      let duplicateKeys :=
        if 1 <? GoInt.len (index [] keyEntries key)
        then <[key := index [] keyEntries key]> (duplicateKeys st)
        else duplicateKeys st in
      mkScan keyEntries duplicateKeys uniqueEntries rawLines lineNum
    else st.

(** The scan loop over the lines of the file. *)
Definition scanLines (lines : list bytes) : scan := fold_left scanLine lines scan0.

(** What [analyzeLocalizationFile] returns: the duplicate keys, the unique
    entries, the raw lines and the error; [None] is a nil map, and the nil
    slice is the empty list. *)
Definition analysis : Type :=
  option (gmap bytes (list KeyValue)) * option (gmap bytes KeyValue)
  * list bytes * option error.

Definition analyzeLocalizationFile (os : Os.t) (filename : bytes) : analysis :=
  match Os.Open os filename with
  | inl err => (None, None, [], Some (FailedToOpenFile err))
  | inr scanner =>
    let st := scanLines (Os.tokens scanner) in
    match Os.Err scanner with
    | Some err => (None, None, [], Some (ErrorScanningFile err))
    | None => (Some (duplicateKeys st), Some (uniqueEntries st), rawLines st, None)
    end
  end.

(** The body of the loop of [createCleanFile]: the keys written so far and
    the lines printed to the clean file so far. *)
Definition cleanLine (st : gmap bytes bool * list bytes) (line : bytes)
    : gmap bytes bool * list bytes :=
  let '(writtenKeys, printed) := st in
  let trimmedLine := Strings.TrimSpace line in
  if skipped trimmedLine then (writtenKeys, printed ++ [line])
  else
    let matches := Regexp.FindStringSubmatch kvPattern line in
    if GoInt.len matches =? 3 then
      let key := nth 1 matches [] in
      if negb (index false writtenKeys key)
      then (<[key := true]> writtenKeys, printed ++ [line])
      else (writtenKeys, printed)
    else (writtenKeys, printed ++ [line]).

(** The lines [createCleanFile] prints for the raw lines, in order. *)
Definition cleanLines (rawLines : list bytes) : list bytes :=
  snd (fold_left cleanLine rawLines (∅, [])).

(** The lines of the report and of the terminal, one constructor for each
    format string of [main], with the arguments of the call. *)
Inductive message :=
| MsgErrorCreatingOutput (err : Os.oserror)  (* Error creating output file: %v *)
| MsgError (err : error)                     (* Error: %v *)
| MsgDuplicateKeysFound (n : Z)              (* Duplicate keys found: %d *)
| MsgRule                                    (* a line of twenty equals signs *)
| MsgKeyAppears (key : bytes) (n : Z)        (* Key: %s appears %d times: *)
| MsgAllSame (firstValue : bytes)            (* All entries have the same value: %s *)
| MsgConflict              (* WARNING: Key has different values (localization conflict)! *)
| MsgFoundAtLines                            (* Found at lines: *)
| MsgLineValue (n : Z) (value : bytes)       (* Line %d: %s *)
| MsgLine (n : Z)                            (* Line %d *)
| MsgBlank                                   (* an empty line *)
| MsgNoDuplicates                            (* No duplicate keys found. *)
| MsgSameAsInput           (* Error: Clean file cannot be the same as input file. *)
| MsgPleaseUse (suggestedName : bytes)       (* Please use a different filename, e.g., %s *)
| MsgErrorCreatingClean (err : error)        (* Error creating clean file: %v *)
| MsgCreatedCleaned (cleanFile : bytes)      (* Created cleaned file at %s *)
| MsgRemoved (n : Z)                         (* Removed %d duplicate key entries. *)
| MsgAnalysisComplete (keys entries : Z)     (* Analysis complete. Found %d ... %d ... *)
| MsgResultsWritten (outputFile : bytes)     (* Results written to %s *)
| MsgUseClean.                               (* Use -clean=filename.strings to ... *)

(** What a program does to the outside, in order: a directory made with
    [os.MkdirAll], a file created or truncated with [os.Create], a line
    and a newline printed to the clean file with [fmt.Fprintln], a message
    printed to the report ([fmt.Fprintf] to the output file or to the
    standard output) and a message printed to the terminal. *)
Inductive event :=
| EvMkdirAll (dir : bytes)
| EvCreate (path : bytes)
| EvPrintln (path : bytes) (line : bytes)
| EvReport (m : message)
| EvStdout (m : message).

(** How a program ends. *)
Inductive outcome := Returned | Exited (code : Z) | Panicked.

Definition createCleanFile (os : Os.t) (filename : bytes)
    (uniqueEntries : option (gmap bytes KeyValue)) (rawLines : list bytes)
    : list event * option error :=
  let dir := Filepath.Dir filename in
  let mkdir :=
    negb (Filepath.bytes_eqb dir [dot]) && negb (Filepath.bytes_eqb dir []) in
  match (if mkdir then Os.MkdirAll os dir else None) with
  | Some err => ([], Some (FailedToCreateDirectory err))
  | None =>
    let made := if mkdir then [EvMkdirAll dir] else [] in
    match Os.Create os filename with
    | Some err => (made, Some (FailedToCreateCleanFile err))
    | None =>
      (made ++ EvCreate filename :: map (EvPrintln filename) (cleanLines rawLines),
       None)
    end
  end.

Definition createUniqueFilename (filename : bytes) : bytes :=
  let dir := Filepath.Dir filename in
  let base := Filepath.Base filename in
  let ext := Filepath.Ext filename in
  let nameWithoutExt := Strings.TrimSuffix base ext in
  Filepath.Join [dir; nameWithoutExt ++ str "-cleaned" ++ ext].

Definition countDuplicates (duplicateKeys : gmap bytes (list KeyValue)) : Z :=
  map_fold (λ _ entries count, GoInt.add count (GoInt.sub (GoInt.len entries) 1))
           0 duplicateKeys.

(** The loop of the report that compares the values of the later entries
    with the first value, leaving at the first difference. *)
Fixpoint allSameLoop (firstValue : bytes) (rest : list KeyValue) : bool :=
  match rest with
  | [] => true
  | entry :: rest' =>
    if negb (Filepath.bytes_eqb (Value entry) firstValue) then false
    else allSameLoop firstValue rest'
  end.

(** [allSame] of the report for the entries of a key; [entries[0]] of an
    empty slice is a run-time panic, [None]. *)
Definition allSame (entries : list KeyValue) : option bool :=
  match entries with
  | [] => None
  | first :: rest => Some (allSameLoop (Value first) rest)
  end.

(** The report of one duplicate key. *)
Definition reportKey (key : bytes) (entries : list KeyValue) : option (list message) :=
  match entries, allSame entries with
  | first :: _, Some same =>
    Some (MsgKeyAppears key (GoInt.len entries)
          :: (if same then MsgAllSame (Value first) else MsgConflict)
          :: MsgFoundAtLines
          :: map (λ entry, if negb same
                           then MsgLineValue (LineNum entry) (Value entry)
                           else MsgLine (LineNum entry)) entries
          ++ [MsgBlank])
  | _, _ => None
  end.

(** The order of [sort.Strings]: byte by byte. *)
Fixpoint bytes_leb (a b : bytes) : bool :=
  match a, b with
  | [], _ => true
  | _ :: _, [] => false
  | x :: a', y :: b' =>
    (nat_of_ascii x <? nat_of_ascii y)%nat
    || (Ascii.eqb x y && bytes_leb a' b')
  end.

Definition sortStrings (keys : list bytes) : list bytes :=
  merge_sort (λ a b, Is_true (bytes_leb a b)) keys.

(** The keys of the report, one after the other, until one panics: the
    messages printed, and whether the loop came to its end.  A key with no
    entries panics after its first message. *)
Fixpoint reportKeys (duplicateKeys : gmap bytes (list KeyValue)) (keys : list bytes)
    : list message * bool :=
  match keys with
  | [] => ([], true)
  | key :: keys' =>
    match reportKey key (index [] duplicateKeys key) with
    | None => ([MsgKeyAppears key (GoInt.len (index [] duplicateKeys key))], false)
    | Some ms =>
      let '(ms', ok) := reportKeys duplicateKeys keys' in (ms ++ ms', ok)
    end
  end.

Record flags := mkFlags {
  outputFile : bytes;
  inputFile : bytes;
  cleanFile : bytes;
  verbose : bool
}.

Definition nonEmpty (s : bytes) : bool := negb (Filepath.bytes_eqb s []).

(** The summary at the end of [main]. *)
Definition summary (fl : flags) (duplicateKeys : gmap bytes (list KeyValue))
    : list event :=
  if nonEmpty (outputFile fl) || verbose fl then
    if 0 <? Z.of_nat (size duplicateKeys) then
      [EvStdout (MsgAnalysisComplete (Z.of_nat (size duplicateKeys))
                                     (countDuplicates duplicateKeys))]
      ++ (if nonEmpty (outputFile fl)
          then [EvStdout (MsgResultsWritten (outputFile fl))] else [])
      ++ (if Filepath.bytes_eqb (cleanFile fl) []
          then [EvStdout MsgUseClean] else [])
    else if verbose fl then [EvStdout MsgNoDuplicates] else []
  else [].

(** The clean request of [main], after the report. *)
Definition cleanRequest (os : Os.t) (fl : flags)
    (duplicateKeys : gmap bytes (list KeyValue))
    (uniqueEntries : option (gmap bytes KeyValue)) (rawLines : list bytes)
    : list event * outcome :=
  if nonEmpty (cleanFile fl) then
    if Filepath.bytes_eqb (Filepath.Clean (cleanFile fl))
                          (Filepath.Clean (inputFile fl)) then
      let suggestedName := createUniqueFilename (inputFile fl) in
      ([EvStdout MsgSameAsInput; EvStdout (MsgPleaseUse suggestedName)],
       Exited 1)
    else
      match createCleanFile os (cleanFile fl) uniqueEntries rawLines with
      | (evs, Some err) =>
        (evs ++ [EvStdout (MsgErrorCreatingClean err)], Exited 1)
      | (evs, None) =>
        (evs ++ [EvStdout (MsgCreatedCleaned (cleanFile fl));
                 EvStdout (MsgRemoved (countDuplicates duplicateKeys))]
             ++ summary fl duplicateKeys,
         Returned)
      end
  else (summary fl duplicateKeys, Returned).

(** [main] of the analyzer, from the parsed flags. *)
Definition main (os : Os.t) (fl : flags) : list event * outcome :=
  match (if nonEmpty (outputFile fl) then Os.Create os (outputFile fl) else None) with
  | Some err => ([EvStdout (MsgErrorCreatingOutput err)], Exited 1)
  | None =>
    let opened := if nonEmpty (outputFile fl) then [EvCreate (outputFile fl)] else [] in
    match analyzeLocalizationFile os (inputFile fl) with
    | (_, _, _, Some err) => (opened ++ [EvStdout (MsgError err)], Exited 1)
    | (duplicateKeys, uniqueEntries, rawLines, None) =>
      let duplicateKeys := default ∅ duplicateKeys in
      let '(report, ok) :=
        if 0 <? Z.of_nat (size duplicateKeys) then
          let keys := sortStrings (map fst (map_to_list duplicateKeys)) in
          let '(ms, ok) := reportKeys duplicateKeys keys in
          (MsgDuplicateKeysFound (Z.of_nat (size duplicateKeys)) :: MsgRule :: ms, ok)
        else ([MsgNoDuplicates], true) in
      if ok then
        let '(evs, out) := cleanRequest os fl duplicateKeys uniqueEntries rawLines in
        (opened ++ map EvReport report ++ evs, out)
      else (opened ++ map EvReport report, Panicked)
    end
  end.

(** ** The key counter (package main of count_keys.go) *)

Module CountKeys.

(** The body of the loop of [countKeys]: the unique keys and the total. *)
Definition countLine (st : gmap bytes bool * Z) (line : bytes) : gmap bytes bool * Z :=
  let '(uniqueKeys, totalEntries) := st in
  let trimmedLine := Strings.TrimSpace line in
  if skipped trimmedLine then st
  else
    let matches := Regexp.FindStringSubmatch kvPattern line in
    if GoInt.len matches =? 3 then
      let key := nth 1 matches [] in
      (<[key := true]> uniqueKeys, GoInt.add totalEntries 1)
    else st.

Definition countKeys (os : Os.t) (filename : bytes) : Z * Z * option error :=
  match Os.Open os filename with
  | inl err => (0, 0, Some (FailedToOpenFile err))
  | inr scanner =>
    let '(uniqueKeys, totalEntries) :=
      fold_left countLine (Os.tokens scanner) (∅, 0) in
    match Os.Err scanner with
    | Some err => (0, 0, Some (ErrorScanningFile err))
    | None => (Z.of_nat (size uniqueKeys), totalEntries, None)
    end
  end.

End CountKeys.

(** ** The key checker (package main of check_keys.go) *)

Module CheckKeys.

Record KeyOccurrence := mkKeyOccurrence { Value : bytes; LineNum : Z }.

(** The body of the loop of [findKeyOccurrences]: the occurrences and the
    line number. *)
Definition findLine (keyToFind : bytes) (st : list KeyOccurrence * Z) (line : bytes)
    : list KeyOccurrence * Z :=
  let '(occurrences, lineNum) := st in
  let lineNum := GoInt.add lineNum 1 in
  let trimmedLine := Strings.TrimSpace line in
  if skipped trimmedLine then (occurrences, lineNum)
  else
    let matches := Regexp.FindStringSubmatch kvPattern line in
    if GoInt.len matches =? 3 then
      let key := nth 1 matches [] in
      let value := nth 2 matches [] in
      if Filepath.bytes_eqb key keyToFind
      then (occurrences ++ [mkKeyOccurrence value lineNum], lineNum)
      else (occurrences, lineNum)
    else (occurrences, lineNum).

Definition findKeyOccurrences (os : Os.t) (filename keyToFind : bytes)
    : list KeyOccurrence * option error :=
  match Os.Open os filename with
  | inl err => ([], Some (FailedToOpenFile err))
  | inr scanner =>
    let '(occurrences, _) :=
      fold_left (findLine keyToFind) (Os.tokens scanner) ([], 0) in
    match Os.Err scanner with
    | Some err => ([], Some (ErrorScanningFile err))
    | None => (occurrences, None)
    end
  end.

End CheckKeys.

(** ** The pattern and the line classes in the words of the specification *)

(** The words a quantified class stands for. *)
Definition inItem (it : Regexp.item) (w : bytes) : Prop :=
  Forall (λ c, Regexp.cls it c = true) w ∧
  match Regexp.rep it with
  | Regexp.Once => length w = 1%nat
  | Regexp.Star => True
  | Regexp.Plus => w ≠ []
  end.

(** The texts a pattern stands for, with the text of each group. *)
Inductive matches : Regexp.regexp → bytes → list bytes → Prop :=
| matches_nil : matches [] [] []
| matches_cons it r w m caps :
    inItem it w → matches r m caps →
    matches (it :: r) (w ++ m)
            (if Regexp.captured it then w :: caps else caps).

(** Quote, key, quote, white space, equals, white space, quote, value,
    quote, white space, semicolon. *)
Definition entryText (key ws1 ws2 value ws3 : bytes) : bytes :=
  dquote :: key ++ dquote :: ws1 ++ "="%char :: ws2 ++
  dquote :: value ++ dquote :: ws3 ++ [";"%char].

Definition noQuote (s : bytes) : Prop := Forall (λ c, Regexp.notQuote c = true) s.
Definition blanks (s : bytes) : Prop := Forall (λ c, Regexp.perlSpace c = true) s.

(** [m] is an entry with this key and value: both are non-empty runs of
    characters other than the quote. *)
Definition isEntry (m key value : bytes) : Prop :=
  ∃ ws1 ws2 ws3,
    m = entryText key ws1 ws2 value ws3 ∧
    key ≠ [] ∧ noQuote key ∧ value ≠ [] ∧ noQuote value ∧
    blanks ws1 ∧ blanks ws2 ∧ blanks ws3.

(** The line has an entry after [pre]. *)
Definition entryAt (line pre key value : bytes) : Prop :=
  ∃ m post, line = pre ++ m ++ post ∧ isEntry m key value.

(** The first entry of the line: no entry starts further left. *)
Definition firstEntry (line key value : bytes) : Prop :=
  ∃ pre, entryAt line pre key value ∧
    ∀ pre' key' value', entryAt line pre' key' value' →
      (length pre ≤ length pre')%nat.

Definition noEntry (line : bytes) : Prop :=
  ∀ pre key value, ¬ entryAt line pre key value.

(** Blank or comment: the trimmed line is empty or starts with two slashes. *)
Definition blankOrComment (line : bytes) : Prop :=
  Strings.TrimSpace line = [] ∨
  ∃ rest, Strings.TrimSpace line = slash :: slash :: rest.

Inductive lineClass := Passthrough | Entry (key value : bytes) | Unrecognized.

(** The three classes of the specification. *)
Inductive classified (line : bytes) : lineClass → Prop :=
| classified_passthrough :
    blankOrComment line → classified line Passthrough
| classified_entry key value :
    ¬ blankOrComment line → firstEntry line key value →
    classified line (Entry key value)
| classified_unrecognized :
    ¬ blankOrComment line → noEntry line → classified line Unrecognized.

(** The class the tests of the loop bodies give a line. *)
Definition classify (line : bytes) : lineClass :=
  if skipped (Strings.TrimSpace line) then Passthrough
  else
    let matches := Regexp.FindStringSubmatch kvPattern line in
    if GoInt.len matches =? 3 then Entry (nth 1 matches []) (nth 2 matches [])
    else Unrecognized.

(** The key of the line when it is an entry. *)
Definition entryKey (line : bytes) : option bytes :=
  match classify line with
  | Entry key _ => Some key
  | _ => None
  end.

(** ** The entries of a file in the words of the specification *)

(** The entry of the line at position [n + 1], if it is one. *)
Definition entryOf (n : nat) (line : bytes) : list KeyValue :=
  match classify line with
  | Entry key value => [mkKeyValue key value (Z.of_nat (S n))]
  | _ => []
  end.

(** The entries of the lines that follow the first [n] lines of a file. *)
Fixpoint entriesFrom (n : nat) (lines : list bytes) : list KeyValue :=
  match lines with
  | [] => []
  | line :: rest => entryOf n line ++ entriesFrom (S n) rest
  end.

(** The occurrence sequence of a key: its entries in the order of the
    file, each with its 1-based line number. *)
Definition occurrences (key : bytes) (lines : list bytes) : list KeyValue :=
  filter (λ e, Key e = key) (entriesFrom 0 lines).

Definition ascending (es : list KeyValue) : Prop :=
  StronglySorted (λ a b, LineNum a < LineNum b) es.

(** The scan loop from any state. *)
Definition scanFrom (st : scan) (lines : list bytes) : scan :=
  fold_left scanLine lines st.

(** The entry the scan loop records for a line read when the line counter
    is [z], if the line is an entry. *)
Definition recordOf (z : Z) (line : bytes) : list KeyValue :=
  match classify line with
  | Entry key value => [mkKeyValue key value (GoInt.add z 1)]
  | _ => []
  end.

(** The entries the scan loop records from line counter [z] on. *)
Fixpoint recordsFrom (z : Z) (lines : list bytes) : list KeyValue :=
  match lines with
  | [] => []
  | line :: rest => recordOf z line ++ recordsFrom (GoInt.add z 1) rest
  end.

(** The three maps of the scan hold the recorded entries [es]. *)
Definition agrees (st : scan) (es : list KeyValue) : Prop :=
  ∀ key, let occ := filter (λ e, Key e = key) es in
    keyEntries st !! key = (if decide (occ = []) then None else Some occ) ∧
    duplicateKeys st !! key = (if decide (2 ≤ length occ)%nat then Some occ else None) ∧
    uniqueEntries st !! key = head occ.

(** ** The cleaned output *)

(** What the loop of [createCleanFile] does with a line once the keys
    [writtenKeys] are written: the keys written after it and the line, if
    it is printed. *)
Definition emit (writtenKeys : gmap bytes bool) (line : bytes)
    : gmap bytes bool * list bytes :=
  match entryKey line with
  | Some key =>
    if index false writtenKeys key then (writtenKeys, [])
    else (<[key := true]> writtenKeys, [line])
  | None => (writtenKeys, [line])
  end.

(** The lines printed for [lines] once the keys [writtenKeys] are written. *)
Fixpoint keep (writtenKeys : gmap bytes bool) (lines : list bytes) : list bytes :=
  match lines with
  | [] => []
  | line :: rest => snd (emit writtenKeys line) ++ keep (fst (emit writtenKeys line)) rest
  end.

(** The keys written after [lines]. *)
Fixpoint writtenBy (writtenKeys : gmap bytes bool) (lines : list bytes) : gmap bytes bool :=
  match lines with
  | [] => writtenKeys
  | line :: rest => writtenBy (fst (emit writtenKeys line)) rest
  end.

(** The keys of the entry lines, in order. *)
Definition keysOf (lines : list bytes) : list bytes := omap entryKey lines.

(** A line that is not an entry: blank, comment or unrecognized. *)
Definition passthrough (line : bytes) : Prop := entryKey line = None.

(** An entry line survives when its key was not emitted before it; every
    other line survives. *)
Definition survives (emitted : list bytes) (line : bytes) : bool :=
  match entryKey line with
  | Some key => bool_decide (key ∉ keysOf emitted)
  | None => true
  end.

(** The lines printed to the clean file, and the bytes [Fprintln] writes
    for them: each line and a newline. *)
Definition printedLines (evs : list event) : list bytes :=
  omap (λ ev, match ev with EvPrintln _ line => Some line | _ => None end) evs.

Definition fileBytes (lines : list bytes) : bytes :=
  flat_map (λ line, line ++ ["010"%char]) lines.

(** ** Lines with an empty key or value *)

(** The number of quotes of a string. *)
Definition quotes (s : bytes) : nat := length (filter (λ c, c = dquote) s).

(** The first quoted pair of the line has an empty key or an empty value;
    [post] is what follows its semicolon. *)
Definition emptyFirstPair (line post : bytes) : Prop :=
  ∃ pre key ws1 ws2 value ws3,
    line = pre ++ entryText key ws1 ws2 value ws3 ++ post ∧
    noQuote pre ∧ noQuote key ∧ blanks ws1 ∧ blanks ws2 ∧ noQuote value ∧
    blanks ws3 ∧ (key = [] ∨ value = []).

(** ** The report of [main] *)

(** The messages of the report for the keys, when no key panics. *)
Definition reportAll (duplicateKeys : gmap bytes (list KeyValue)) (keys : list bytes)
    : list message :=
  flat_map (λ key, default [] (reportKey key (index [] duplicateKeys key))) keys.

(** The report [main] writes for the duplicate keys. *)
Definition reportOf (duplicateKeys : gmap bytes (list KeyValue)) : list message :=
  if 0 <? Z.of_nat (size duplicateKeys) then
    MsgDuplicateKeysFound (Z.of_nat (size duplicateKeys)) :: MsgRule
    :: reportAll duplicateKeys (sortStrings (map fst (map_to_list duplicateKeys)))
  else [MsgNoDuplicates].

(** ** Paths and writes *)

(** A string without a path separator. *)
Definition noSlash (s : bytes) : Prop := Forall (λ c, Filepath.isSlash c = false) s.

(** An event that is no write of the cleaned-file generator: no directory
    made, no line printed, and no file created but the report's. *)
Definition noCleanWrite (fl : flags) (ev : event) : Prop :=
  match ev with
  | EvMkdirAll _ | EvPrintln _ _ => False
  | EvCreate path => path = outputFile fl ∧ outputFile fl ≠ []
  | EvReport _ | EvStdout _ => True
  end.

(** ** Sample files *)

(** The double quote as a string. *)
Definition q : bytes := [dquote].

(** The line of an entry in its usual form. *)
Definition entryLine (key value : bytes) : bytes :=
  q ++ key ++ q ++ str " = " ++ q ++ value ++ q ++ str ";".

(** An operating system on which every file opens and scans to [lines],
    and every file and directory can be created. *)
Definition osOf (lines : list bytes) : Os.t :=
  Os.Make (λ _, inr (Os.Scanner lines None)) (λ _, None) (λ _, None).

(** The file of the first scenario: key A twice with one value, key B. *)
Definition sample1 : list bytes :=
  [entryLine (str "A") (str "1"); entryLine (str "B") (str "2");
   entryLine (str "A") (str "1")].

(** A file with a conflicting key, a comment and a blank line. *)
Definition sample2 : list bytes :=
  [entryLine (str "Hi") (str "Hello"); str "// greeting"; str "";
   entryLine (str "Hi") (str "Hola")].

Definition sampleFile : bytes := str "dir/Localizable.strings".

(** Flags of a clean request into the input file itself. *)
Definition sampleFlags : flags :=
  mkFlags [] sampleFile (str "dir/./Localizable.strings") false.

(** A line with an empty value. *)
Definition emptyValueLine : bytes := q ++ str "k" ++ q ++ str " = " ++ q ++ q ++ str ";".

(** A line whose first pair has an empty key and whose second pair is an
    entry. *)
Definition twoPairLine : bytes :=
  q ++ q ++ str " = " ++ q ++ str "v" ++ q ++ str "; " ++ entryLine (str "a") (str "b").

(** An operating system on which no file can be opened. *)
Definition osNoFile : Os.t :=
  Os.Make (λ _, inl (Os.OsError (str "no such file or directory")))
          (λ _, None) (λ _, None).

(** ** The callers of the key counter and of the key checker *)

(** [main] of count_keys.go. *)
Module CountKeysMain.

(** The lines it prints, one constructor for each format string.  The
    percentage of the duplicates line is computed in floating point from
    the two counts the constructor carries. *)
Inductive message :=
| NotExist (inputFile : bytes)             (* Error: File %s does not exist *)
| Failed (err : error)                     (* Error: %v *)
| File (inputFile : bytes)                 (* File: %s *)
| TotalEntries (totalEntries : Z)          (* Total Entries: %d *)
| UniqueKeys (keyCount : Z)                (* Unique Keys: %d *)
| DuplicateEntries (duplicates totalEntries : Z)  (* Duplicate Entries: %d (%.1f%%) *)
| NoDuplicates.                            (* No duplicate keys found. *)

(** [notExist] tells whether [os.Stat] fails on the path with an error
    that [os.IsNotExist] accepts. *)
Definition main (notExist : bytes → bool) (os : Os.t) (inputFile : bytes)
    : list message * outcome :=
  if notExist inputFile then ([NotExist inputFile], Exited 1)
  else
    match CountKeys.countKeys os inputFile with
    | (_, _, Some err) => ([Failed err], Exited 1)
    | (keyCount, totalEntries, None) =>
      ([File inputFile; TotalEntries totalEntries; UniqueKeys keyCount]
         ++ (if keyCount <? totalEntries
             then [DuplicateEntries (GoInt.sub totalEntries keyCount) totalEntries]
             else [NoDuplicates]),
       Returned)
    end.

End CountKeysMain.

(** [main] of check_keys.go. *)
Module CheckKeysMain.

Inductive message :=
| NoKey                                    (* Error: No key specified *)
| Usage                                    (* Usage: go run check_keys.go ... *)
| NotExist (inputFile : bytes)             (* Error: File %s does not exist *)
| Failed (err : error)                     (* Error: %v *)
| NotFound (key inputFile : bytes)         (* Key %s not found in %s *)
| Found (key inputFile : bytes) (n : Z)    (* Key %s found in %s (%d occurrences): *)
| Occurrence (lineNum : Z) (value : bytes) (* Line %d: %s *)
| AllSame                                  (* All occurrences have the same value. *)
| Conflict.                                (* WARNING: Key has different values ... *)

(** The loop that compares the later occurrences with the first value. *)
Fixpoint allSameLoop (firstValue : bytes) (rest : list CheckKeys.KeyOccurrence) : bool :=
  match rest with
  | [] => true
  | occ :: rest' =>
    if negb (Filepath.bytes_eqb (CheckKeys.Value occ) firstValue) then false
    else allSameLoop firstValue rest'
  end.

(** The report of the occurrences found; [occurrences[0]] of an empty
    slice would be a run-time panic. *)
Definition report (keyToCheck inputFile : bytes)
    (occurrences : list CheckKeys.KeyOccurrence) : list message * outcome :=
  if GoInt.len occurrences =? 0 then ([NotFound keyToCheck inputFile], Returned)
  else
    let found :=
      Found keyToCheck inputFile (GoInt.len occurrences)
      :: map (λ occ, Occurrence (CheckKeys.LineNum occ) (CheckKeys.Value occ))
             occurrences in
    if 1 <? GoInt.len occurrences then
      match occurrences with
      | [] => (found, Panicked)
      | first :: rest =>
        (found ++ [if allSameLoop (CheckKeys.Value first) rest
                   then AllSame else Conflict],
         Returned)
      end
    else (found, Returned).

(** [args] are the arguments left after the flags. *)
Definition main (notExist : bytes → bool) (os : Os.t) (inputFile : bytes)
    (args : list bytes) : list message * outcome :=
  match args with
  | [] => ([NoKey; Usage], Exited 1)
  | keyToCheck :: _ =>
    if notExist inputFile then ([NotExist inputFile], Exited 1)
    else
      match CheckKeys.findKeyOccurrences os inputFile keyToCheck with
      | (_, Some err) => ([Failed err], Exited 1)
      | (occurrences, None) => report keyToCheck inputFile occurrences
      end
  end.

End CheckKeysMain.

(** ** What the further properties speak of *)

(** The occurrence of the key checker for an entry of the analyzer. *)
Definition toOccurrence (e : KeyValue) : CheckKeys.KeyOccurrence :=
  CheckKeys.mkKeyOccurrence (Value e) (LineNum e).

(** The number of lines the cleaned-file generator leaves out. *)
Definition dropped (lines : list bytes) : nat :=
  length lines - length (cleanLines lines).

(** The keys the report names, in the order of the report. *)
Definition reportedKeys (ms : list message) : list bytes :=
  omap (λ m, match m with MsgKeyAppears key _ => Some key | _ => None end) ms.

(** The sum of the lengths of the occurrence sequences of a map. *)
Definition totalOccurrences (keyEntries : gmap bytes (list KeyValue)) : nat :=
  map_fold (λ _ entries n, (length entries + n)%nat) 0%nat keyEntries.

(** The values of a map of written keys are all [true]. *)
Definition allTrue (w : gmap bytes bool) : Prop := ∀ k v, w !! k = Some v → v = true.

(** The clean request can go through: there is one and its destination is
    not the input file. *)
Definition cleanAllowed (fl : flags) : Prop :=
  cleanFile fl ≠ [] ∧ Filepath.Clean (cleanFile fl) ≠ Filepath.Clean (inputFile fl).

(** An event [main] may produce: lines are printed to the clean file only,
    a directory is made for it only, and a file is created only as the
    output file of the report or as the clean file; the clean file is never
    the input file. *)
Definition writesAsAsked (fl : flags) (ev : event) : Prop :=
  match ev with
  | EvPrintln path _ => path = cleanFile fl ∧ cleanAllowed fl
  | EvMkdirAll dir =>
    dir = Filepath.Dir (cleanFile fl) ∧ dir ≠ [dot] ∧ cleanAllowed fl
  | EvCreate path =>
    (path = outputFile fl ∧ outputFile fl ≠ []) ∨
    (path = cleanFile fl ∧ cleanAllowed fl)
  | EvReport _ | EvStdout _ => True
  end.

(** The messages of the report among the events, in order. *)
Definition reported (evs : list event) : list message :=
  omap (λ ev, match ev with EvReport m => Some m | _ => None end) evs.

(** The part of a path after its last separator. *)
Definition lastElement (path : bytes) : bytes :=
  rev (Filepath.takeToSlash (rev path)).

(** A file name: an element of a path that is not empty and is neither the
    current nor the parent directory. *)
Definition fileName (name : bytes) : Prop :=
  noSlash name ∧ name ≠ [] ∧ name ≠ [dot] ∧ name ≠ [dot; dot].

(** A path is [dir ++ name] with [dir] empty or ending in a separator. *)
Definition directoryPart (dir : bytes) : Prop :=
  dir = [] ∨ ∃ d, dir = d ++ [slash].

(** The values of the entry lines with the key, in the order of the file. *)
Definition valuesOf (key : bytes) (lines : list bytes) : list bytes :=
  omap (λ line, match classify line with
                | Entry k value => if decide (k = key) then Some value else None
                | _ => None
                end) lines.

(** Flags of a clean request into another file, and a file system on which
    the file does not fail to exist. *)
Definition cleanFlags : flags :=
  mkFlags [] sampleFile (str "out/Clean.strings") false.

Definition present : bytes → bool := λ _, false.

(** A file whose only line is an entry followed by two carriage returns
    and a newline. *)
Definition crFile : bytes :=
  entryLine (str "A") (str "1") ++ [Bufio.cr; Bufio.cr; Bufio.lf].

(** What [flag.Parse] at the beginning of [main] does with the command
    line.  The flag set is [flag.CommandLine], whose error handling is
    [ExitOnError]: [Parse] returns with the four flags set, or it prints
    the usage and calls [os.Exit(0)] for -h or -help, or it prints the
    error and the usage and calls [os.Exit(2)] for a command line it
    rejects (a flag that is not defined, a missing value, a value of -v
    that is no boolean).  It prints to the standard error, of which the
    events keep no record. *)
Inductive commandLine :=
| Parsed (fl : flags)
| Help
| Rejected.

(** [main] from its beginning: [flag.Parse], then the rest with the
    flags. *)
Definition mainOf (os : Os.t) (cmd : commandLine) : list event * outcome :=
  match cmd with
  | Parsed fl => main os fl
  | Help => ([], Exited 0)
  | Rejected => ([], Exited 2)
  end.

(** ** Lemmas on the pattern matcher *)

Section Many.

Context {R : Type} (c : ascii → bool) (k : bytes → bytes → option R).

Lemma many_sound s : ∀ taken r,
  Regexp.many c k taken s = Some r →
  ∃ w rest, s = w ++ rest ∧ Forall (λ x, c x = true) w ∧
            k (taken ++ w) rest = Some r.
Proof.
  induction s as [|x s IH]; intros taken r; simpl.
  - intros H. exists [], []. rewrite (app_nil_r taken). by repeat split.
  - destruct (c x) eqn:Hc.
    + destruct (Regexp.many c k (taken ++ [x]) s) as [r'|] eqn:Hm.
      * intros [= <-]. apply IH in Hm as (w & rest & -> & Hw & Hk).
        exists (x :: w), rest. rewrite <- app_assoc in Hk. auto.
      * intros H. exists [], (x :: s). rewrite (app_nil_r taken). by repeat split.
    + intros H. exists [], (x :: s). rewrite (app_nil_r taken). by repeat split.
Qed.

Lemma many_complete w : ∀ taken rest,
  Forall (λ x, c x = true) w →
  is_Some (k (taken ++ w) rest) →
  is_Some (Regexp.many c k taken (w ++ rest)).
Proof.
  induction w as [|x w IH]; intros taken rest Hw Hk.
  - rewrite app_nil_r in Hk. simpl.
    destruct rest as [|y rest]; simpl; [done|].
    destruct (c y); [|done].
    destruct (Regexp.many c k (taken ++ [y]) rest); [eauto | done].
  - inversion Hw as [|? ? Hx Hw']; subst. simpl. rewrite Hx.
    assert (is_Some (Regexp.many c k (taken ++ [x]) (w ++ rest))) as [r Hr].
    { apply IH; [done|]. by rewrite <- app_assoc. }
    rewrite Hr. eauto.
Qed.
End Many.

Lemma match_here_sound r : ∀ s m caps,
  Regexp.match_here r s = Some (m, caps) →
  matches r m caps ∧ ∃ post, s = m ++ post.
Proof.
  induction r as [|it r IH]; intros s m caps; simpl.
  - intros [= <- <-]. split; [constructor | by exists s].
  - set (k := λ taken rest : bytes,
        match Regexp.match_here r rest with
        | Some (m, caps) =>
          Some (taken ++ m, if Regexp.captured it then taken :: caps else caps)
        | None => None
        end).
    assert (Hk : ∀ taken rest, k taken rest = Some (m, caps) →
              Forall (λ c, Regexp.cls it c = true) taken →
              match Regexp.rep it with
              | Regexp.Once => length taken = 1%nat
              | Regexp.Star => True
              | Regexp.Plus => taken ≠ []
              end →
              matches (it :: r) m caps ∧ ∃ post, taken ++ rest = m ++ post).
    { intros taken rest Hk Hall Hrep. unfold k in Hk.
      destruct (Regexp.match_here r rest) as [[m' caps']|] eqn:Hm; [|done].
      injection Hk as <- <-. apply IH in Hm as [Hm [post ->]].
      split; [by constructor | exists post; by rewrite app_assoc]. }
    destruct (Regexp.rep it) eqn:Hrep.
    + destruct s as [|x s]; [done|]. destruct (Regexp.cls it x) eqn:Hx; [|done].
      intros H. apply (Hk [x] s) in H; auto.
    + intros H. apply many_sound in H as (w & rest & -> & Hw & H).
      apply (Hk w rest) in H; auto.
    + destruct s as [|x s]; [done|]. destruct (Regexp.cls it x) eqn:Hx; [|done].
      intros H. apply many_sound in H as (w & rest & -> & Hw & H).
      apply (Hk (x :: w) rest) in H; auto.
Qed.

Lemma match_here_complete r : ∀ m caps post,
  matches r m caps → is_Some (Regexp.match_here r (m ++ post)).
Proof.
  induction r as [|it r IH]; intros m caps post Hm.
  - simpl. eauto.
  - inversion Hm as [|? ? w m' caps' [Hw Hrep] Hm']; subst.
    simpl.
    set (k := λ taken rest : bytes,
        match Regexp.match_here r rest with
        | Some (m, caps) =>
          Some (taken ++ m, if Regexp.captured it then taken :: caps else caps)
        | None => None
        end).
    assert (Hk : ∀ taken, is_Some (k taken (m' ++ post))).
    { intros taken. unfold k.
      destruct (IH m' caps' post Hm') as [[m0 caps0] ->]. eauto. }
    rewrite <- app_assoc.
    destruct (Regexp.rep it) eqn:Hq.
    + destruct w as [|x [|? ?]]; try done. inversion Hw; subst. simpl.
      rewrite H1. apply (Hk [x]).
    + apply many_complete; auto.
    + destruct w as [|x w]; [done|]. inversion Hw; subst. simpl.
      rewrite H1. apply (many_complete _ _ w [x]); auto.
Qed.

Lemma find_spec r s res :
  Regexp.find r s = Some res ↔
  ∃ pre rest, s = pre ++ rest ∧ Regexp.match_here r rest = Some res ∧
    ∀ pre' rest', s = pre' ++ rest' → (length pre' < length pre)%nat →
      Regexp.match_here r rest' = None.
Proof.
  revert res. induction s as [|x s IH]; intros res; simpl.
  - destruct (Regexp.match_here r []) as [res'|] eqn:Hm; split.
    + intros [= <-]. exists [], []. split_and!; [done..|]. simpl. lia.
    + intros (pre & rest & Hs & Hr & _).
      symmetry in Hs. apply app_eq_nil in Hs as [-> ->]. congruence.
    + done.
    + intros (pre & rest & Hs & Hr & _).
      symmetry in Hs. apply app_eq_nil in Hs as [-> ->]. congruence.
  - destruct (Regexp.match_here r (x :: s)) as [res'|] eqn:Hm; split.
    + intros [= <-]. exists [], (x :: s). split_and!; [done..|]. simpl. lia.
    + intros (pre & rest & Hs & Hr & Hmin).
      destruct pre as [|y pre].
      * simpl in Hs. subst rest. congruence.
      * specialize (Hmin [] (x :: s) eq_refl). simpl in Hmin.
        rewrite Hmin in Hm; [done | lia].
    + intros H. apply IH in H as (pre & rest & -> & Hr & Hmin).
      exists (x :: pre), rest. split_and!; [done..|].
      intros pre' rest' Hs Hlen. destruct pre' as [|y pre'].
      * simpl in Hs. by subst rest'.
      * simpl in Hs. injection Hs as <- Hs. apply (Hmin pre' rest'); [done|]. simpl in Hlen. lia.
    + intros (pre & rest & Hs & Hr & Hmin).
      destruct pre as [|y pre].
      * simpl in Hs. subst rest. congruence.
      * simpl in Hs. injection Hs as <- ->. apply IH.
        exists pre, rest. split_and!; [done..|].
        intros pre' rest' Hs Hlen.
        apply (Hmin (x :: pre') rest'); [by rewrite Hs | simpl; lia].
Qed.

Lemma find_none r s :
  Regexp.find r s = None ↔
  ∀ pre rest, s = pre ++ rest → Regexp.match_here r rest = None.
Proof.
  induction s as [|x s IH]; simpl.
  - destruct (Regexp.match_here r []) eqn:Hm; split; try done.
    + intros H. by rewrite (H [] []) in Hm.
    + intros _ pre rest Hs. symmetry in Hs. by apply app_eq_nil in Hs as [-> ->].
  - destruct (Regexp.match_here r (x :: s)) eqn:Hm; split; try done.
    + intros H. by rewrite (H [] (x :: s)) in Hm.
    + intros H pre rest Hs. destruct pre as [|y pre].
      * simpl in Hs. by subst rest.
      * simpl in Hs. injection Hs as <- ->.
        by apply (proj1 IH H pre rest).
    + intros H. apply IH. intros pre rest ->. by apply (H (x :: pre) rest).
Qed.

Lemma run_unique (P : ascii → bool) u : ∀ u' a a' x x',
  Forall (λ c, P c = true) u → Forall (λ c, P c = true) u' →
  P a = false → P a' = false →
  u ++ a :: x = u' ++ a' :: x' → u = u' ∧ a = a' ∧ x = x'.
Proof.
  induction u as [|c u IH]; intros u' a a' x x' Hu Hu' Ha Ha' Heq.
  - destruct u' as [|c' u']; simpl in Heq.
    + by injection Heq as -> ->.
    + injection Heq as -> _. inversion Hu'; subst. congruence.
  - destruct u' as [|c' u']; simpl in Heq.
    + injection Heq as -> _. inversion Hu; subst. congruence.
    + injection Heq as -> Heq. inversion Hu; inversion Hu'; subst.
      destruct (IH u' a a' x x') as (-> & -> & ->); auto.
Qed.

Lemma entryText_app key ws1 ws2 value ws3 post :
  entryText key ws1 ws2 value ws3 ++ post =
  dquote :: key ++ dquote :: ws1 ++ "="%char :: ws2 ++
  dquote :: value ++ dquote :: ws3 ++ ";"%char :: post.
Proof.
  unfold entryText. simpl. f_equal.
  repeat (rewrite <- app_assoc; f_equal; simpl; f_equal).
Qed.

(** A line splits in one way only into a quote-free part, an entry text
    and the rest. *)
Lemma entryText_unique pre key ws1 ws2 value ws3 post
    pre' key' ws1' ws2' value' ws3' post' :
  noQuote pre → noQuote key → blanks ws1 → blanks ws2 → noQuote value → blanks ws3 →
  noQuote pre' → noQuote key' → blanks ws1' → blanks ws2' → noQuote value' → blanks ws3' →
  pre ++ entryText key ws1 ws2 value ws3 ++ post =
  pre' ++ entryText key' ws1' ws2' value' ws3' ++ post' →
  pre = pre' ∧ key = key' ∧ ws1 = ws1' ∧ ws2 = ws2' ∧ value = value' ∧
  ws3 = ws3' ∧ post = post'.
Proof.
  intros Hp Hk H1 H2 Hv H3 Hp' Hk' H1' H2' Hv' H3'.
  rewrite !entryText_app. intros Heq.
  apply (run_unique Regexp.notQuote) in Heq as (-> & _ & Heq); [|done..].
  apply (run_unique Regexp.notQuote) in Heq as (-> & _ & Heq); [|done..].
  apply (run_unique Regexp.perlSpace) in Heq as (-> & _ & Heq); [|done..].
  apply (run_unique Regexp.perlSpace) in Heq as (-> & _ & Heq); [|done..].
  apply (run_unique Regexp.notQuote) in Heq as (-> & _ & Heq); [|done..].
  apply (run_unique Regexp.perlSpace) in Heq as (-> & _ & Heq); [|done..].
  done.
Qed.

(** Two entries that start at the same place of a line are the same. *)
Lemma isEntry_unique m key value post m' key' value' post' :
  isEntry m key value → isEntry m' key' value' →
  m ++ post = m' ++ post' → m = m' ∧ key = key' ∧ value = value'.
Proof.
  intros (ws1 & ws2 & ws3 & -> & _ & Hk & _ & Hv & H1 & H2 & H3).
  intros (ws1' & ws2' & ws3' & -> & _ & Hk' & _ & Hv' & H1' & H2' & H3') Heq.
  apply (entryText_unique [] _ _ _ _ _ _ [] _ _ _ _ _ _) in Heq
    as (_ & -> & -> & -> & -> & -> & _); try done; constructor.
Qed.

Lemma inItem_lit c w : inItem (Regexp.lit c) w → w = [c].
Proof.
  intros [Hall Hlen]. simpl in *.
  destruct w as [|x [|? ?]]; try done.
  inversion Hall as [|? ? Hx _]; subst. by apply Ascii.eqb_eq in Hx as ->.
Qed.

Lemma inItem_lit_intro c : inItem (Regexp.lit c) [c].
Proof.
  split; [|done]. constructor; [|constructor]. apply Ascii.eqb_refl.
Qed.

(** The pattern stands for the entries of the specification. *)
Lemma matches_kvPattern m caps :
  matches kvPattern m caps ↔ ∃ key value, caps = [key; value] ∧ isEntry m key value.
Proof.
  split.
  - unfold kvPattern. intros H.
    repeat match goal with
    | H : matches (_ :: _) _ _ |- _ =>
      let w := fresh "w" in let Hw := fresh "Hw" in
      inversion H as [|? ? w ? ? Hw ?]; subst; clear H
    | H : matches [] _ _ |- _ => inversion H; subst; clear H
    | H : inItem (Regexp.lit _) _ |- _ => apply inItem_lit in H as ->
    end.
    simpl. exists w0, w6. split; [done|].
    destruct Hw0 as [Hw0 ?], Hw2 as [Hw2 _], Hw4 as [Hw4 _],
             Hw6 as [Hw6 ?], Hw8 as [Hw8 _]. simpl in *.
    exists w2, w4, w8. split_and!; done.
  - intros (key & value & -> & ws1 & ws2 & ws3 & -> & ? & ? & ? & ? & ? & ? & ?).
    unfold kvPattern, entryText.
    set (sp := Regexp.Item Regexp.perlSpace Regexp.Star false).
    set (grp := Regexp.Item Regexp.notQuote Regexp.Plus true).
    apply (matches_cons (Regexp.lit dquote) _ [dquote] _ [key; value]);
      [apply inItem_lit_intro|].
    apply (matches_cons grp _ key _ [value]); [done|].
    apply (matches_cons (Regexp.lit dquote) _ [dquote] _ [value]);
      [apply inItem_lit_intro|].
    apply (matches_cons sp _ ws1 _ [value]); [done|].
    apply (matches_cons (Regexp.lit "=") _ ["="%char] _ [value]);
      [apply inItem_lit_intro|].
    apply (matches_cons sp _ ws2 _ [value]); [done|].
    apply (matches_cons (Regexp.lit dquote) _ [dquote] _ [value]);
      [apply inItem_lit_intro|].
    apply (matches_cons grp _ value _ []); [done|].
    apply (matches_cons (Regexp.lit dquote) _ [dquote] _ []);
      [apply inItem_lit_intro|].
    apply (matches_cons sp _ ws3 _ []); [done|].
    rewrite <- (app_nil_r [";"%char]).
    apply (matches_cons (Regexp.lit ";") _ [";"%char] _ []);
      [apply inItem_lit_intro|].
    constructor.
Qed.

Lemma match_here_kvPattern s m caps :
  Regexp.match_here kvPattern s = Some (m, caps) ↔
  ∃ key value post, caps = [key; value] ∧ isEntry m key value ∧ s = m ++ post.
Proof.
  split.
  - intros H. apply match_here_sound in H as [H [post ->]].
    apply matches_kvPattern in H as (key & value & -> & H). by exists key, value, post.
  - intros (key & value & post & -> & He & ->).
    assert (Hm : matches kvPattern m [key; value]).
    { apply matches_kvPattern. by exists key, value. }
    destruct (match_here_complete _ _ _ post Hm) as [[m' caps'] Hr].
    rewrite Hr. apply match_here_sound in Hr as [Hm' [post' Heq]].
    apply matches_kvPattern in Hm' as (key' & value' & -> & He').
    destruct (isEntry_unique _ _ _ _ _ _ _ _ He He' Heq) as (-> & -> & ->).
    done.
Qed.

Lemma match_here_kvPattern_none s :
  Regexp.match_here kvPattern s = None ↔
  ∀ m key value post, isEntry m key value → s ≠ m ++ post.
Proof.
  split.
  - intros Hn m key value post He ->.
    assert (Regexp.match_here kvPattern (m ++ post) = Some (m, [key; value])) as H.
    { apply match_here_kvPattern. by exists key, value, post. }
    congruence.
  - intros H. destruct (Regexp.match_here kvPattern s) as [[m caps]|] eqn:Hr; [|done].
    apply match_here_kvPattern in Hr as (key & value & post & _ & He & ->).
    by destruct (H m key value post).
Qed.

(** The leftmost match of the pattern is the first entry of the line. *)
Lemma find_kvPattern line m caps :
  Regexp.find kvPattern line = Some (m, caps) ↔
  ∃ pre post key value,
    caps = [key; value] ∧ line = pre ++ m ++ post ∧ isEntry m key value ∧
    ∀ pre' key' value', entryAt line pre' key' value' →
      (length pre ≤ length pre')%nat.
Proof.
  rewrite find_spec. split.
  - intros (pre & rest & -> & Hr & Hmin).
    apply match_here_kvPattern in Hr as (key & value & post & -> & He & ->).
    exists pre, post, key, value. split_and!; [done..|].
    intros pre' key' value' (m' & post' & Heq & He').
    destruct (decide (length pre' < length pre)%nat) as [Hlt|]; [|lia].
    specialize (Hmin pre' (m' ++ post') Heq Hlt).
    rewrite match_here_kvPattern_none in Hmin.
    by destruct (Hmin m' key' value' post').
  - intros (pre & post & key & value & -> & -> & He & Hmin).
    exists pre, (m ++ post). split_and!; [done| |].
    + apply match_here_kvPattern. by exists key, value, post.
    + intros pre' rest' Heq Hlt. apply match_here_kvPattern_none.
      intros m' key' value' post' He' ->.
      assert (entryAt (pre ++ m ++ post) pre' key' value') as Hat
        by (by exists m', post').
      apply Hmin in Hat. lia.
Qed.

Lemma find_kvPattern_none line :
  Regexp.find kvPattern line = None ↔ noEntry line.
Proof.
  rewrite find_none. split.
  - intros H pre key value (m & post & -> & He).
    specialize (H pre (m ++ post) eq_refl).
    rewrite match_here_kvPattern_none in H. by destruct (H m key value post).
  - intros H pre rest ->. apply match_here_kvPattern_none.
    intros m key value post He ->. apply (H pre key value). by exists m, post.
Qed.

Lemma FindStringSubmatch_entry line m key value :
  Regexp.FindStringSubmatch kvPattern line = [m; key; value] ↔
  ∃ pre post, line = pre ++ m ++ post ∧ isEntry m key value ∧
    ∀ pre' key' value', entryAt line pre' key' value' →
      (length pre ≤ length pre')%nat.
Proof.
  unfold Regexp.FindStringSubmatch. split.
  - destruct (Regexp.find kvPattern line) as [[m' caps]|] eqn:Hf; [|done].
    intros [= -> ->].
    apply find_kvPattern in Hf as (pre & post & k & v & [= -> ->] & ? & ? & ?).
    by exists pre, post.
  - intros (pre & post & Hl & He & Hmin).
    assert (Regexp.find kvPattern line = Some (m, [key; value])) as ->; [|done].
    apply find_kvPattern. by exists pre, post, key, value.
Qed.

(** The matcher returns nothing or the match with its two groups. *)
Lemma FindStringSubmatch_cases line :
  (Regexp.FindStringSubmatch kvPattern line = [] ∧ noEntry line) ∨
  ∃ m key value,
    Regexp.FindStringSubmatch kvPattern line = [m; key; value] ∧
    firstEntry line key value.
Proof.
  destruct (Regexp.FindStringSubmatch kvPattern line) as [|m l] eqn:Hf.
  - left. split; [done|]. apply find_kvPattern_none.
    unfold Regexp.FindStringSubmatch in Hf.
    by destruct (Regexp.find kvPattern line) as [[??]|].
  - right. unfold Regexp.FindStringSubmatch in Hf.
    destruct (Regexp.find kvPattern line) as [[m' caps]|] eqn:Hfind; [|done].
    injection Hf as -> ->.
    apply find_kvPattern in Hfind as (pre & post & key & value & -> & Hl & He & Hmin).
    exists m, key, value. split; [done|].
    exists pre. split; [by exists m, post | done].
Qed.

Lemma firstEntry_unique line key value key' value' :
  firstEntry line key value → firstEntry line key' value' →
  key = key' ∧ value = value'.
Proof.
  intros (pre & Hat & Hmin) (pre' & Hat' & Hmin').
  pose proof (Hmin _ _ _ Hat'). pose proof (Hmin' _ _ _ Hat).
  destruct Hat as (m & post & -> & He), Hat' as (m' & post' & Heq & He').
  assert (pre = pre' ∧ m ++ post = m' ++ post') as [-> Heq'].
  { apply app_inj_1; [lia | done]. }
  by destruct (isEntry_unique _ _ _ _ _ _ _ _ He He' Heq') as (_ & -> & ->).
Qed.

Lemma HasPrefix_slashes t :
  Strings.HasPrefix t (str "//") = true ↔ ∃ rest, t = slash :: slash :: rest.
Proof.
  split.
  - destruct t as [|a [|b rest]]; simpl; try done.
    + by rewrite andb_false_r.
    + intros H. apply andb_prop in H as [Ha H]. apply andb_prop in H as [Hb _].
      apply Ascii.eqb_eq in Ha as ->. apply Ascii.eqb_eq in Hb as ->. by exists rest.
  - intros [rest ->]. reflexivity.
Qed.

Lemma bytes_eqb_eq a b : Filepath.bytes_eqb a b = true ↔ a = b.
Proof. unfold Filepath.bytes_eqb. apply bool_decide_eq_true. Qed.

Lemma skipped_spec line :
  skipped (Strings.TrimSpace line) = true ↔ blankOrComment line.
Proof.
  unfold skipped, blankOrComment.
  rewrite orb_true_iff, bytes_eqb_eq, HasPrefix_slashes. done.
Qed.

Lemma skipped_false line :
  skipped (Strings.TrimSpace line) = false ↔ ¬ blankOrComment line.
Proof.
  rewrite <- skipped_spec. by destruct (skipped _).
Qed.

Lemma classify_classified line : classified line (classify line).
Proof.
  unfold classify. destruct (skipped _) eqn:Hs.
  - constructor. by apply skipped_spec.
  - apply skipped_false in Hs.
    destruct (FindStringSubmatch_cases line) as [[-> Hn]|(m & k & v & -> & Hf)]; simpl.
    + by constructor.
    + by constructor.
Qed.

Lemma classified_unique line c : classified line c → c = classify line.
Proof.
  intros Hc. pose proof (classify_classified line) as Hc'.
  destruct Hc as [Hb|key value Hb Hf|Hb Hn];
    destruct Hc' as [Hb'|key' value' Hb' Hf'|Hb' Hn']; try done.
  - by destruct (firstEntry_unique _ _ _ _ _ Hf Hf') as [-> ->].
  - destruct Hf as (pre & Hat & _). by destruct (Hn' pre key value).
  - destruct Hf' as (pre & Hat & _). by destruct (Hn pre key' value').
Qed.

(** ** The entries of a file in the words of the specification *)

Lemma wrap_small z : GoInt.min_int ≤ z ≤ GoInt.max_int → GoInt.wrap z = z.
Proof.
  unfold GoInt.wrap, GoInt.min_int, GoInt.max_int. intros H.
  rewrite Z.mod_small; lia.
Qed.

Lemma add_one n : Z.of_nat n < GoInt.max_int → GoInt.add (Z.of_nat n) 1 = Z.of_nat (S n).
Proof.
  intros H. unfold GoInt.add. rewrite wrap_small; [lia|].
  unfold GoInt.min_int, GoInt.max_int in *. lia.
Qed.

Lemma scanLine_classify st line :
  scanLine st line =
  let n := GoInt.add (lineNum st) 1 in
  match classify line with
  | Entry key value =>
    let entry := mkKeyValue key value n in
    let entries := <[key := index [] (keyEntries st) key ++ [entry]]> (keyEntries st) in
    mkScan entries
      (if 1 <? GoInt.len (index [] entries key)
       then <[key := index [] entries key]> (duplicateKeys st)
       else duplicateKeys st)
      (match uniqueEntries st !! key with
       | Some _ => uniqueEntries st
       | None => <[key := entry]> (uniqueEntries st)
       end)
      (rawLines st ++ [line]) n
  | _ => mkScan (keyEntries st) (duplicateKeys st) (uniqueEntries st)
                (rawLines st ++ [line]) n
  end.
Proof.
  unfold scanLine, classify. simpl.
  destruct (skipped _); [done|].
  by destruct (GoInt.len _ =? 3).
Qed.

Lemma lineNum_scanLine st line :
  lineNum (scanLine st line) = GoInt.add (lineNum st) 1.
Proof. rewrite scanLine_classify. simpl. by destruct (classify line). Qed.

Lemma index_insert {V} (zero : V) (m : gmap bytes V) key v :
  index zero (<[key := v]> m) key = v.
Proof. unfold index. by rewrite lookup_insert_eq. Qed.

Lemma agrees_step st es line :
  agrees st es → agrees (scanLine st line) (es ++ recordOf (lineNum st) line).
Proof.
  intros Hkeys. rewrite scanLine_classify. unfold recordOf. simpl.
  destruct (classify line) as [|key value|]; simpl.
  1,3: by rewrite app_nil_r.
  intros k. simpl.
  rewrite filter_app, filter_cons, filter_nil. simpl.
  destruct (Hkeys k) as (Hke & Hdup & Huniq). simpl in *.
  set (entry := mkKeyValue key value (GoInt.add (lineNum st) 1)) in *.
  destruct (decide (key = k)) as [->|Hne].
  - set (occ := filter (λ e, Key e = k) es) in *.
    assert (index [] (keyEntries st) k = occ) as Hidx.
    { unfold index. rewrite Hke. by destruct (decide (occ = [])) as [->|]. }
    rewrite !index_insert, !Hidx, lookup_insert_eq.
    assert ((1 <? GoInt.len (occ ++ [entry])) = bool_decide (occ ≠ [])) as ->.
    { unfold GoInt.len. rewrite length_app. simpl.
      destruct occ; simpl; [done|].
      apply Z.ltb_lt. lia. }
    split_and!.
    + destruct (decide (occ ++ [entry] = [])) as [Hnil|]; [|done].
      by destruct occ.
    + rewrite length_app. simpl.
      destruct occ as [|o occ']; simpl.
      * rewrite Hdup. simpl. done.
      * rewrite lookup_insert_eq. rewrite decide_True by lia. done.
    + rewrite Huniq. destruct occ as [|o occ']; simpl.
      * by rewrite lookup_insert_eq.
      * done.
  - rewrite app_nil_r, lookup_insert_ne by done.
    split_and!; [done| |].
    + destruct (1 <? _); [by rewrite lookup_insert_ne|done].
    + destruct (uniqueEntries st !! key); [done|]. by rewrite lookup_insert_ne.
Qed.

Lemma agrees_scanFrom lines : ∀ st es,
  agrees st es →
  agrees (scanFrom st lines) (es ++ recordsFrom (lineNum st) lines).
Proof.
  induction lines as [|line lines IH]; intros st es Hag; simpl.
  - by rewrite app_nil_r.
  - rewrite app_assoc, <- (lineNum_scanLine st line).
    apply IH. by apply agrees_step.
Qed.

Lemma agrees_scan0 : agrees scan0 [].
Proof. intros key. simpl. by rewrite !lookup_empty. Qed.

Lemma agrees_scanLines lines : agrees (scanLines lines) (recordsFrom 0 lines).
Proof. apply (agrees_scanFrom lines scan0 []), agrees_scan0. Qed.

(** Below [max_int] lines the line counter never wraps: the recorded
    entries are the entries of the file with their positions. *)
Lemma recordsFrom_entriesFrom lines : ∀ n,
  Z.of_nat n + GoInt.len lines ≤ GoInt.max_int →
  recordsFrom (Z.of_nat n) lines = entriesFrom n lines.
Proof.
  induction lines as [|line lines IH]; intros n Hn; simpl; [done|].
  unfold GoInt.len in *. simpl length in Hn.
  unfold recordOf, entryOf. rewrite add_one by lia.
  rewrite IH by lia. done.
Qed.

Lemma rawLines_scanFrom lines : ∀ st,
  rawLines (scanFrom st lines) = rawLines st ++ lines.
Proof.
  induction lines as [|line lines IH]; intros st; simpl.
  - by rewrite app_nil_r.
  - change (fold_left scanLine lines (scanLine st line))
      with (scanFrom (scanLine st line) lines).
    rewrite IH, scanLine_classify. simpl.
    destruct (classify line); simpl; by rewrite <- app_assoc.
Qed.

Lemma rawLines_scanLines lines : rawLines (scanLines lines) = lines.
Proof. apply (rawLines_scanFrom lines scan0). Qed.

(** The entries after the first [n] lines carry ascending line numbers
    above [n]. *)
Lemma entriesFrom_ascending lines : ∀ n,
  Forall (λ e, Z.of_nat n < LineNum e) (entriesFrom n lines) ∧
  ascending (entriesFrom n lines).
Proof.
  induction lines as [|line lines IH]; intros n; simpl.
  - split; constructor.
  - destruct (IH (S n)) as [Hall Hsorted]. unfold entryOf.
    assert (Forall (λ e, Z.of_nat n < LineNum e) (entriesFrom (S n) lines)) as Hall'.
    { eapply Forall_impl; [exact Hall|]. simpl. intros. lia. }
    destruct (classify line); simpl; try done.
    split.
    + constructor; [simpl; lia | done].
    + constructor; [done|]. eapply Forall_impl; [exact Hall|]. by simpl.
Qed.

Lemma ascending_filter (P : KeyValue → Prop) `{∀ e, Decision (P e)} es :
  ascending es → ascending (filter P es).
Proof.
  induction 1 as [|e es Hs IH Hall]; [constructor|].
  rewrite filter_cons. destruct (decide (P e)); [|done].
  constructor; [done|].
  apply Forall_forall. intros x Hx. apply list_elem_of_filter in Hx as [_ Hx].
  by eapply Forall_forall in Hall.
Qed.

Lemma occurrences_ascending key lines : ascending (occurrences key lines).
Proof. apply ascending_filter, entriesFrom_ascending. Qed.

Lemma agrees_index st es key :
  agrees st es → index [] (keyEntries st) key = filter (λ e, Key e = key) es.
Proof.
  intros H. destruct (H key) as (Hke & _). simpl in Hke.
  unfold index. rewrite Hke. by destruct (decide (_ = [])) as [->|].
Qed.

Lemma scanLines_app l1 l2 : scanLines (l1 ++ l2) = scanFrom (scanLines l1) l2.
Proof. unfold scanLines, scanFrom. apply fold_left_app. Qed.

Lemma uniqueEntries_scanLine st line key e :
  uniqueEntries st !! key = Some e → uniqueEntries (scanLine st line) !! key = Some e.
Proof.
  intros H. rewrite scanLine_classify. simpl.
  destruct (classify line) as [|k v|]; simpl; try done.
  destruct (uniqueEntries st !! k) eqn:Hk; [done|].
  rewrite lookup_insert_ne; [done|]. intros ->. congruence.
Qed.

Lemma uniqueEntries_scanFrom lines : ∀ st key e,
  uniqueEntries st !! key = Some e → uniqueEntries (scanFrom st lines) !! key = Some e.
Proof.
  induction lines as [|line lines IH]; intros st key e H; simpl; [done|].
  apply IH. by apply uniqueEntries_scanLine.
Qed.

Lemma ascending_head e es o :
  ascending (e :: es) → o ∈ e :: es → LineNum e ≤ LineNum o.
Proof.
  intros Hs Ho. apply StronglySorted_inv in Hs as [_ Hall].
  apply elem_of_cons in Ho as [->|Ho]; [lia|].
  eapply Forall_forall in Hall; [|done]. lia.
Qed.

Lemma analyze_ok os filename lines :
  Os.Open os filename = inr (Os.Scanner lines None) →
  analyzeLocalizationFile os filename =
    (Some (duplicateKeys (scanLines lines)), Some (uniqueEntries (scanLines lines)),
     lines, None).
Proof.
  intros H. unfold analyzeLocalizationFile. rewrite H. simpl.
  by rewrite rawLines_scanLines.
Qed.

Lemma records_entries lines :
  GoInt.len lines ≤ GoInt.max_int → recordsFrom 0 lines = entriesFrom 0 lines.
Proof. intros H. apply (recordsFrom_entriesFrom lines 0%nat). simpl. lia. Qed.

Lemma occurrenceSeq_occurrences lines key :
  GoInt.len lines ≤ GoInt.max_int →
  index [] (keyEntries (scanLines lines)) key = occurrences key lines.
Proof.
  intros Hlen. rewrite (agrees_index _ _ _ (agrees_scanLines lines)).
  unfold occurrences. by rewrite records_entries.
Qed.

(** C1. After the scan a key is in the duplicate groups exactly when its
    occurrence sequence in the occurrence index has two entries or more;
    its group is then the whole occurrence sequence, which is the key's
    entries in the file in ascending line-number order; a key that occurs
    once is not in the duplicate groups. *)
Theorem duplicateGroups_iff_two_occurrences os filename lines :
  Os.Open os filename = inr (Os.Scanner lines None) →
  ∃ duplicateGroups firstOccurrences,
    analyzeLocalizationFile os filename =
      (Some duplicateGroups, Some firstOccurrences, lines, None) ∧
    ∀ key,
      let occurrenceSeq := index [] (keyEntries (scanLines lines)) key in
      (is_Some (duplicateGroups !! key) ↔ (2 ≤ length occurrenceSeq)%nat) ∧
      (∀ group, duplicateGroups !! key = Some group → group = occurrenceSeq) ∧
      (length occurrenceSeq = 1%nat → duplicateGroups !! key = None) ∧
      (GoInt.len lines ≤ GoInt.max_int →
         occurrenceSeq = occurrences key lines ∧ ascending occurrenceSeq).
Proof.
  intros Hopen. eexists _, _. split; [by apply analyze_ok|].
  intros key. simpl.
  pose proof (agrees_scanLines lines) as Hag.
  rewrite (agrees_index _ _ _ Hag).
  destruct (Hag key) as (_ & Hdup & _). simpl in Hdup. rewrite Hdup.
  set (occ := filter (λ e, Key e = key) (recordsFrom 0 lines)).
  split_and!.
  - destruct (decide (2 ≤ length occ)%nat); split; done.
  - destruct (decide (2 ≤ length occ)%nat); [|done]. by intros group [= <-].
  - intros H1. rewrite decide_False; [done | lia].
  - intros Hlen. unfold occ.
    rewrite records_entries by done.
    split; [done | apply occurrences_ascending].
Qed.

(** C6. The first-occurrence map gives every key seen in the file the
    first entry of its occurrence sequence, the one with the smallest line
    number; a key keeps the entry registered at its first sighting through
    the rest of the scan. *)
Theorem firstOccurrences_smallest_lineNumber os filename lines :
  Os.Open os filename = inr (Os.Scanner lines None) →
  ∃ duplicateGroups firstOccurrences,
    analyzeLocalizationFile os filename =
      (Some duplicateGroups, Some firstOccurrences, lines, None) ∧
    (∀ key,
      let occurrenceSeq := index [] (keyEntries (scanLines lines)) key in
      firstOccurrences !! key = head occurrenceSeq ∧
      (GoInt.len lines ≤ GoInt.max_int →
         occurrenceSeq = occurrences key lines ∧
         ∀ first other, firstOccurrences !! key = Some first →
           other ∈ occurrenceSeq → LineNum first ≤ LineNum other)) ∧
    (∀ n key first,
      uniqueEntries (scanLines (take n lines)) !! key = Some first →
      firstOccurrences !! key = Some first).
Proof.
  intros Hopen. eexists _, _. split; [by apply analyze_ok|].
  split.
  - intros key. simpl.
    pose proof (agrees_scanLines lines) as Hag.
    destruct (Hag key) as (_ & _ & Huniq). simpl in Huniq.
    rewrite (agrees_index _ _ _ Hag). split; [done|].
    intros Hlen. rewrite Huniq.
    pose proof (occurrenceSeq_occurrences lines key Hlen) as Hocc.
    rewrite (agrees_index _ _ _ Hag) in Hocc. rewrite Hocc.
    split; [done|].
    intros first other Hhead Hin.
    pose proof (occurrences_ascending key lines) as Hasc.
    destruct (occurrences key lines) as [|e es]; [done|].
    injection Hhead as <-. by eapply ascending_head.
  - intros n key first H.
    rewrite <- (take_drop n lines) at 1. rewrite scanLines_app.
    by apply uniqueEntries_scanFrom.
Qed.

(** ** The cleaned output *)

Lemma cleanLine_emit writtenKeys printed line :
  cleanLine (writtenKeys, printed) line =
  (fst (emit writtenKeys line), printed ++ snd (emit writtenKeys line)).
Proof.
  unfold cleanLine, emit, entryKey, classify.
  destruct (skipped _); [done|].
  destruct (GoInt.len _ =? 3); [|done].
  destruct (index false writtenKeys _); simpl; [by rewrite app_nil_r | done].
Qed.

Lemma fold_cleanLine lines : ∀ writtenKeys printed,
  fold_left cleanLine lines (writtenKeys, printed) =
  (writtenBy writtenKeys lines, printed ++ keep writtenKeys lines).
Proof.
  induction lines as [|line lines IH]; intros w printed.
  - simpl. by rewrite app_nil_r.
  - change (fold_left cleanLine (line :: lines) (w, printed))
      with (fold_left cleanLine lines (cleanLine (w, printed) line)).
    rewrite cleanLine_emit, IH. simpl. by rewrite app_assoc.
Qed.

Lemma cleanLines_keep rawLines : cleanLines rawLines = keep ∅ rawLines.
Proof. unfold cleanLines. by rewrite fold_cleanLine. Qed.

Lemma keep_app l1 : ∀ w l2,
  keep w (l1 ++ l2) = keep w l1 ++ keep (writtenBy w l1) l2.
Proof.
  induction l1 as [|line l1 IH]; intros w l2; simpl; [done|].
  by rewrite IH, app_assoc.
Qed.

Lemma keep_sublist lines : ∀ w, keep w lines `sublist_of` lines.
Proof.
  induction lines as [|line lines IH]; intros w; simpl; [done|].
  unfold emit. destruct (entryKey line) as [key|]; simpl.
  - destruct (index false w key); simpl.
    + by apply sublist_cons.
    + by apply sublist_skip.
  - by apply sublist_skip.
Qed.

Lemma keep_passthrough lines : ∀ w,
  filter passthrough (keep w lines) = filter passthrough lines.
Proof.
  induction lines as [|line lines IH]; intros w; simpl; [done|].
  rewrite filter_app, IH. unfold emit.
  destruct (entryKey line) as [key|] eqn:Hk; simpl.
  - assert (¬ passthrough line) as Hn by (unfold passthrough; congruence).
    rewrite (filter_cons_False _ line lines) by done.
    destruct (index false w key); simpl; [done|].
    by rewrite filter_cons_False.
  - assert (passthrough line) as Hp by done.
    rewrite (filter_cons_True _ line lines) by done.
    by rewrite filter_cons_True.
Qed.

Lemma index_true_insert (w : gmap bytes bool) key k :
  index false (<[key := true]> w) k = true ↔ k = key ∨ index false w k = true.
Proof.
  unfold index. destruct (decide (key = k)) as [->|Hne].
  - rewrite lookup_insert_eq. simpl. intuition (subst; auto; congruence).
  - rewrite lookup_insert_ne by done. intuition (subst; auto; congruence).
Qed.

Lemma writtenBy_spec lines : ∀ w k,
  index false (writtenBy w lines) k = true ↔
  index false w k = true ∨ k ∈ keysOf lines.
Proof.
  induction lines as [|line lines IH]; intros w k; simpl.
  - unfold keysOf. simpl. rewrite elem_of_nil. intuition (subst; auto; congruence).
  - rewrite IH. unfold keysOf, emit. simpl.
    destruct (entryKey line) as [key|]; simpl; [|done].
    rewrite elem_of_cons.
    destruct (index false w key) eqn:Hw; simpl.
    + split; [intuition (subst; auto; congruence)|]. intros [?|[->|?]]; auto.
    + rewrite index_true_insert. intuition (subst; auto; congruence).
Qed.

Lemma keysOf_keep lines : ∀ w,
  NoDup (keysOf (keep w lines)) ∧
  ∀ k, k ∈ keysOf (keep w lines) ↔ k ∈ keysOf lines ∧ index false w k = false.
Proof.
  induction lines as [|line lines IH]; intros w; simpl.
  - split; [constructor|]. intros k. unfold keysOf. simpl.
    rewrite elem_of_nil. intuition (subst; auto; congruence).
  - unfold keysOf in *. rewrite omap_app. unfold emit. simpl.
    destruct (entryKey line) as [key|] eqn:Hk; simpl.
    + destruct (index false w key) eqn:Hw; simpl.
      * destruct (IH w) as [Hnd Hin]. split; [done|].
        intros k. rewrite Hin, elem_of_cons. split; [intuition (subst; auto; congruence)|].
        intros [[->|?] ?]; [congruence | done].
      * rewrite Hk. simpl.
        destruct (IH (<[key := true]> w)) as [Hnd Hin]. split.
        -- constructor; [|done]. rewrite Hin. intros [_ Hf].
           by rewrite index_insert in Hf.
        -- intros k. rewrite !elem_of_cons, Hin.
           destruct (decide (k = key)) as [->|Hne]; [intuition (subst; auto; congruence)|].
           assert (index false (<[key := true]> w) k = index false w k) as ->.
           { unfold index. by rewrite lookup_insert_ne. }
           intuition (subst; auto; congruence).
    + rewrite Hk. simpl. apply IH.
Qed.

Lemma keep_fixed lines : ∀ w,
  NoDup (keysOf lines) →
  (∀ k, k ∈ keysOf lines → index false w k = false) →
  keep w lines = lines.
Proof.
  induction lines as [|line lines IH]; intros w Hnd Hw; simpl; [done|].
  unfold keysOf in *. simpl in *. unfold emit.
  destruct (entryKey line) as [key|] eqn:Hk; simpl.
  - apply NoDup_cons in Hnd as [Hnotin Hnd].
    rewrite (Hw key) by (apply elem_of_cons; by left). simpl. f_equal.
    apply IH; [done|]. intros k Hin.
    unfold index. rewrite lookup_insert_ne by (intros ->; done).
    apply Hw. apply elem_of_cons. by right.
  - f_equal. by apply IH.
Qed.

Lemma cleanLines_idempotent rawLines :
  cleanLines (cleanLines rawLines) = cleanLines rawLines.
Proof.
  rewrite !cleanLines_keep.
  destruct (keysOf_keep rawLines ∅) as [Hnd _].
  by apply keep_fixed.
Qed.

Lemma printedLines_map filename (ls : list bytes) :
  printedLines (map (EvPrintln filename) ls) = ls.
Proof.
  unfold printedLines. induction ls as [|l ls IH]; simpl; [done | by f_equal].
Qed.

Lemma createCleanFile_prints os filename first rawLines evs :
  createCleanFile os filename first rawLines = (evs, None) →
  printedLines evs = cleanLines rawLines.
Proof.
  unfold createCleanFile.
  destruct (negb _ && negb _);
    [destruct (Os.MkdirAll os _); [done|] |];
    (destruct (Os.Create os filename); [done|]);
    intros [= <-]; simpl; apply printedLines_map.
Qed.

Lemma index_empty (k : bytes) : index false (∅ : gmap bytes bool) k = false.
Proof. unfold index. by rewrite lookup_empty. Qed.

Lemma keysOf_cleanLines lines key :
  key ∈ keysOf (cleanLines lines) ↔ key ∈ keysOf lines.
Proof.
  rewrite cleanLines_keep. destruct (keysOf_keep lines ∅) as [_ Hin].
  rewrite Hin, index_empty. tauto.
Qed.

Lemma emit_survives pre line :
  snd (emit (writtenBy ∅ pre) line) =
  if survives (cleanLines pre) line then [line] else [].
Proof.
  unfold emit, survives. destruct (entryKey line) as [key|]; [|done].
  destruct (index false (writtenBy ∅ pre) key) eqn:Hw; simpl.
  - rewrite bool_decide_eq_false_2; [done|]. intros Hn. apply Hn.
    rewrite keysOf_cleanLines. apply writtenBy_spec in Hw as [Hw|Hw]; [|done].
    by rewrite index_empty in Hw.
  - rewrite bool_decide_eq_true_2; [done|]. intros Hin.
    rewrite keysOf_cleanLines in Hin.
    assert (index false (writtenBy ∅ pre) key = true) as Ht
      by (apply writtenBy_spec; by right).
    congruence.
Qed.

(** C4. The cleaned output is a subsequence of the raw lines; every line
    that is not an entry survives; an entry line survives exactly when its
    key was not emitted earlier in the pass; the output has one entry line
    for each distinct key of the input, and the same set of keys. *)
Theorem cleaned_output_keeps_first_occurrences rawLines :
  let cleaned := cleanLines rawLines in
  cleaned `sublist_of` rawLines ∧
  filter passthrough cleaned = filter passthrough rawLines ∧
  (∀ pre line post, rawLines = pre ++ line :: post →
     ∃ post', post' `sublist_of` post ∧
       cleaned = cleanLines pre
                 ++ (if survives (cleanLines pre) line then [line] else [])
                 ++ post') ∧
  NoDup (keysOf cleaned) ∧
  (∀ key, key ∈ keysOf cleaned ↔ key ∈ keysOf rawLines).
Proof.
  simpl. split_and!.
  - rewrite cleanLines_keep. apply keep_sublist.
  - rewrite cleanLines_keep. apply keep_passthrough.
  - intros pre line post ->. rewrite !cleanLines_keep, keep_app. simpl.
    exists (keep (fst (emit (writtenBy ∅ pre) line)) post).
    split; [apply keep_sublist|].
    by rewrite emit_survives, cleanLines_keep.
  - rewrite cleanLines_keep. apply keysOf_keep.
  - apply keysOf_cleanLines.
Qed.

(** ** The clean file read back *)

Lemma dropCR_cases data :
  Bufio.dropCR data = data ∨ data = Bufio.dropCR data ++ [Bufio.cr].
Proof.
  unfold Bufio.dropCR. destruct (rev data) as [|c r] eqn:Hr; [by left|].
  destruct (Ascii.eqb_spec c Bufio.cr) as [->|_]; [|by left].
  right. by rewrite <- (rev_involutive data), Hr.
Qed.

Lemma dropCR_length data :
  (length (Bufio.dropCR data) ≤ length data)%nat ∧
  (length (Bufio.dropCR data) = length data → Bufio.dropCR data = data).
Proof.
  destruct (dropCR_cases data) as [->|H]; [done|].
  apply (f_equal (@length _)) in H. rewrite length_app in H. simpl in H.
  split; lia.
Qed.

Lemma dropCR_noLF data : Bufio.lf ∉ data → Bufio.lf ∉ Bufio.dropCR data.
Proof.
  destruct (dropCR_cases data) as [->|H]; [done|].
  intros Hn Hin. apply Hn. rewrite H. apply elem_of_app. by left.
Qed.

(** A line without a newline, ended by one, is the next token. *)
Lemma scan_line line : ∀ acc rest,
  Bufio.lf ∉ line →
  Bufio.scan acc (line ++ Bufio.lf :: rest) =
  Bufio.dropCR (acc ++ line) :: Bufio.scan [] rest.
Proof.
  induction line as [|c line IH]; intros acc rest Hn; simpl.
  - by rewrite app_nil_r.
  - apply not_elem_of_cons in Hn as [Hc Hn].
    destruct (Ascii.eqb_spec c Bufio.lf) as [->|_]; [done|].
    rewrite IH by done. by rewrite <- app_assoc.
Qed.

(** The lines printed by [Fprintln] are read back as they are, but for a
    carriage return at the end of a line. *)
Lemma tokens_fileBytes lines :
  Forall (λ line, Bufio.lf ∉ line) lines →
  Bufio.tokens (fileBytes lines) = map Bufio.dropCR lines.
Proof.
  induction 1 as [|line lines Hline _ IH]; [done|].
  unfold Bufio.tokens, fileBytes in *. simpl. rewrite <- app_assoc. simpl.
  rewrite scan_line by done. simpl. by rewrite IH.
Qed.

(** No token has a newline. *)
Lemma scan_noLF data : ∀ acc,
  Bufio.lf ∉ acc → Forall (λ line, Bufio.lf ∉ line) (Bufio.scan acc data).
Proof.
  induction data as [|c data IH]; intros acc Hacc; simpl.
  - destruct acc; [constructor|].
    constructor; [by apply dropCR_noLF | constructor].
  - destruct (Ascii.eqb_spec c Bufio.lf) as [->|Hc].
    + constructor; [by apply dropCR_noLF|]. apply IH. by intros ?%elem_of_nil.
    + apply IH. intros Hin. apply elem_of_app in Hin as [Hin|Hin]; [done|].
      apply list_elem_of_singleton in Hin. congruence.
Qed.

Lemma Forall_sublist {A} (P : A → Prop) l1 l2 :
  l1 `sublist_of` l2 → Forall P l2 → Forall P l1.
Proof.
  intros Hsub Hall. apply Forall_forall. intros x Hx.
  apply (proj1 (Forall_forall P l2) Hall). by apply (elem_of_sublist l1 l2).
Qed.

Lemma fileBytes_cons line lines :
  length (fileBytes (line :: lines)) = (length line + 1 + length (fileBytes lines))%nat.
Proof. unfold fileBytes. simpl. rewrite !length_app. simpl. lia. Qed.

Lemma fileBytes_sublist l1 l2 :
  l1 `sublist_of` l2 → (length (fileBytes l1) ≤ length (fileBytes l2))%nat.
Proof.
  induction 1 as [|x l1 l2 _ IH|x l1 l2 _ IH]; [done|..];
    rewrite ?fileBytes_cons; lia.
Qed.

Lemma fileBytes_dropCR lines :
  (length (fileBytes (map Bufio.dropCR lines)) ≤ length (fileBytes lines))%nat ∧
  (length (fileBytes (map Bufio.dropCR lines)) = length (fileBytes lines) →
   Forall (λ line, Bufio.dropCR line = line) lines).
Proof.
  induction lines as [|line lines [IHle IHeq]]; [by split|].
  change (map Bufio.dropCR (line :: lines))
    with (Bufio.dropCR line :: map Bufio.dropCR lines).
  rewrite !fileBytes_cons. destruct (dropCR_length line) as [Hle Heq].
  split; [lia|]. intros H. constructor; [apply Heq; lia | apply IHeq; lia].
Qed.

Lemma dropCR_fixed lines :
  Forall (λ line, Bufio.dropCR line = line) lines → map Bufio.dropCR lines = lines.
Proof. induction 1 as [|line lines Hline _ IH]; simpl; [done|]. by rewrite Hline, IH. Qed.

(** C5, as amended. After one clean pass no duplicate entry line is left.
    The generator run on its own output, read back from the clean file by
    the scanner, writes the same content, byte for byte, exactly when no
    line of the clean file ends in a carriage return; it then removes
    nothing and prints the same lines.  That is so whenever no line of the
    input, as the scanner yields it, ends in a carriage return.  The
    scanner reads every printed line back as it is, but for one carriage
    return at its end. *)
Theorem recleaning_identical_iff_no_trailing_CR os filename first data evs
    os' filename' first' evs' :
  createCleanFile os filename first (Bufio.tokens data) = (evs, None) →
  createCleanFile os' filename' first'
    (Bufio.tokens (fileBytes (printedLines evs))) = (evs', None) →
  printedLines evs = cleanLines (Bufio.tokens data) ∧
  NoDup (keysOf (printedLines evs)) ∧
  Bufio.tokens (fileBytes (printedLines evs)) = map Bufio.dropCR (printedLines evs) ∧
  (fileBytes (printedLines evs') = fileBytes (printedLines evs) ↔
   Forall (λ line, Bufio.dropCR line = line) (printedLines evs)) ∧
  (Forall (λ line, Bufio.dropCR line = line) (printedLines evs) →
   printedLines evs' = printedLines evs) ∧
  (Forall (λ line, Bufio.dropCR line = line) (Bufio.tokens data) →
   Forall (λ line, Bufio.dropCR line = line) (printedLines evs)).
Proof.
  intros H1 H2.
  apply createCleanFile_prints in H1. apply createCleanFile_prints in H2.
  assert (printedLines evs `sublist_of` Bufio.tokens data) as Hsub.
  { rewrite H1, cleanLines_keep. apply keep_sublist. }
  assert (Bufio.tokens (fileBytes (printedLines evs))
          = map Bufio.dropCR (printedLines evs)) as Hread.
  { apply tokens_fileBytes. apply (Forall_sublist _ _ _ Hsub).
    apply scan_noLF. by intros ?%elem_of_nil. }
  rewrite Hread in H2.
  assert (Forall (λ line, Bufio.dropCR line = line) (printedLines evs) →
          printedLines evs' = printedLines evs) as Hfixed.
  { intros Hall. rewrite H2, (dropCR_fixed _ Hall), H1. apply cleanLines_idempotent. }
  split_and!.
  - done.
  - rewrite H1, cleanLines_keep. apply keysOf_keep.
  - done.
  - split.
    + intros Hbytes. apply fileBytes_dropCR.
      pose proof (proj1 (fileBytes_dropCR (printedLines evs))) as Hle.
      assert (length (fileBytes (printedLines evs'))
              ≤ length (fileBytes (map Bufio.dropCR (printedLines evs))))%nat as Hle'.
      { apply fileBytes_sublist. rewrite H2, cleanLines_keep. apply keep_sublist. }
      rewrite Hbytes in Hle'. lia.
    + intros Hall. by rewrite (Hfixed Hall).
  - done.
  - by apply Forall_sublist.
Qed.

(** C7. The analyzer keeps every line of the file as it is in the raw
    lines, and the lines that are not entries (blank, comment and
    unrecognized lines) are all printed to the clean file, unchanged and in
    their order, each followed by a newline. *)
Theorem passthrough_lines_verbatim os filename lines :
  Os.Open os filename = inr (Os.Scanner lines None) →
  ∃ duplicateGroups firstOccurrences rawLines,
    analyzeLocalizationFile os filename =
      (Some duplicateGroups, Some firstOccurrences, rawLines, None) ∧
    rawLines = lines ∧
    filter passthrough (cleanLines rawLines) = filter passthrough lines ∧
    ∀ os' cleanFile evs,
      createCleanFile os' cleanFile (Some firstOccurrences) rawLines = (evs, None) →
      filter passthrough (printedLines evs) = filter passthrough lines ∧
      ∀ line, passthrough line → line ∈ lines → line ∈ printedLines evs.
Proof.
  intros Hopen. eexists _, _, _. split; [by apply analyze_ok|].
  split; [done|].
  assert (filter passthrough (cleanLines lines) = filter passthrough lines) as Hf.
  { rewrite cleanLines_keep. apply keep_passthrough. }
  split; [done|].
  intros os' cleanFile evs Hc. apply createCleanFile_prints in Hc.
  rewrite Hc. split; [done|].
  intros line Hp Hin.
  assert (line ∈ filter passthrough lines) as Hin'
    by (by apply list_elem_of_filter).
  rewrite <- Hf in Hin'. by apply list_elem_of_filter in Hin' as [_ ?].
Qed.

(** C9. The analysis fails with the open error when the file cannot be
    opened and with the scan error when reading fails during the scan; in
    both cases it returns the error alone: nil maps and no raw lines. *)
Theorem analysis_errors_return_nothing os filename :
  (∀ err, Os.Open os filename = inl err →
     analyzeLocalizationFile os filename =
       (None, None, [], Some (FailedToOpenFile err))) ∧
  (∀ lines err, Os.Open os filename = inr (Os.Scanner lines (Some err)) →
     analyzeLocalizationFile os filename =
       (None, None, [], Some (ErrorScanningFile err))) ∧
  (∀ duplicateGroups firstOccurrences rawLines err,
     analyzeLocalizationFile os filename =
       (duplicateGroups, firstOccurrences, rawLines, Some err) →
     duplicateGroups = None ∧ firstOccurrences = None ∧ rawLines = [] ∧
     ((∃ cause, err = FailedToOpenFile cause ∧ Os.Open os filename = inl cause) ∨
      (∃ cause lines, err = ErrorScanningFile cause ∧
         Os.Open os filename = inr (Os.Scanner lines (Some cause))))).
Proof.
  unfold analyzeLocalizationFile. split_and!.
  - by intros err ->.
  - by intros lines err ->.
  - intros dup first raw err.
    destruct (Os.Open os filename) as [cause|[lines [cause|]]]; simpl.
    + intros [= <- <- <- <-]. split_and!; try done. left. by exists cause.
    + intros [= <- <- <- <-]. split_and!; try done. right. by exists cause, lines.
    + done.
Qed.

(** ** The classes and the loop bodies *)

Lemma countLine_classify uniqueKeys totalEntries line :
  CountKeys.countLine (uniqueKeys, totalEntries) line =
  match classify line with
  | Entry key _ => (<[key := true]> uniqueKeys, GoInt.add totalEntries 1)
  | _ => (uniqueKeys, totalEntries)
  end.
Proof.
  unfold CountKeys.countLine, classify.
  destruct (skipped _); [done|]. by destruct (GoInt.len _ =? 3).
Qed.

Lemma findLine_classify keyToFind occurrences lineNum line :
  CheckKeys.findLine keyToFind (occurrences, lineNum) line =
  match classify line with
  | Entry key value =>
    if Filepath.bytes_eqb key keyToFind
    then (occurrences ++ [CheckKeys.mkKeyOccurrence value (GoInt.add lineNum 1)],
          GoInt.add lineNum 1)
    else (occurrences, GoInt.add lineNum 1)
  | _ => (occurrences, GoInt.add lineNum 1)
  end.
Proof.
  unfold CheckKeys.findLine, classify.
  destruct (skipped _); [done|]. by destruct (GoInt.len _ =? 3).
Qed.

Lemma cleanLine_classify writtenKeys printed line :
  cleanLine (writtenKeys, printed) line =
  match classify line with
  | Entry key _ =>
    if index false writtenKeys key then (writtenKeys, printed)
    else (<[key := true]> writtenKeys, printed ++ [line])
  | _ => (writtenKeys, printed ++ [line])
  end.
Proof.
  unfold cleanLine, classify.
  destruct (skipped _); [done|]. destruct (GoInt.len _ =? 3); [|done].
  by destruct (index false writtenKeys _).
Qed.

Lemma classify_entry line key value :
  classify line = Entry key value →
  ¬ blankOrComment line ∧ firstEntry line key value.
Proof.
  intros H. pose proof (classify_classified line) as Hc. rewrite H in Hc.
  by inversion Hc.
Qed.

Lemma firstEntry_nonempty line key value :
  firstEntry line key value → key ≠ [] ∧ noQuote key ∧ value ≠ [] ∧ noQuote value.
Proof.
  intros (pre & (m & post & _ & ws1 & ws2 & ws3 & _ & ? & ? & ? & ? & _) & _).
  done.
Qed.

(** C2. Every line has exactly one of the three classes: passthrough when
    the trimmed line is empty or starts with two slashes; entry, with the
    key and value of the first match of the pattern (quote, non-quotes,
    quote, white space, equals, white space, quote, non-quotes, quote,
    white space, semicolon); unrecognized otherwise.  The loop bodies of
    the analyzer, the cleaned-file generator, the key counter and the key
    checker follow the class: only an entry is recorded as a key
    occurrence, and every other line is printed to the clean file as it
    is. *)
Theorem classifier_three_classes line :
  classified line (classify line) ∧
  (∀ c, classified line c → c = classify line) ∧
  (∀ st,
     rawLines (scanLine st line) = rawLines st ++ [line] ∧
     match classify line with
     | Entry key value =>
       keyEntries (scanLine st line) !! key =
         Some (index [] (keyEntries st) key
               ++ [mkKeyValue key value (GoInt.add (lineNum st) 1)])
     | _ =>
       keyEntries (scanLine st line) = keyEntries st ∧
       duplicateKeys (scanLine st line) = duplicateKeys st ∧
       uniqueEntries (scanLine st line) = uniqueEntries st
     end) ∧
  (∀ writtenKeys printed,
     match classify line with
     | Entry key _ =>
       cleanLine (writtenKeys, printed) line =
       if index false writtenKeys key then (writtenKeys, printed)
       else (<[key := true]> writtenKeys, printed ++ [line])
     | _ => cleanLine (writtenKeys, printed) line = (writtenKeys, printed ++ [line])
     end) ∧
  (∀ uniqueKeys totalEntries,
     CountKeys.countLine (uniqueKeys, totalEntries) line =
     match classify line with
     | Entry key _ => (<[key := true]> uniqueKeys, GoInt.add totalEntries 1)
     | _ => (uniqueKeys, totalEntries)
     end) ∧
  (∀ keyToFind occurrences lineNum,
     fst (CheckKeys.findLine keyToFind (occurrences, lineNum) line) =
     match classify line with
     | Entry key value =>
       if Filepath.bytes_eqb key keyToFind
       then occurrences ++ [CheckKeys.mkKeyOccurrence value (GoInt.add lineNum 1)]
       else occurrences
     | _ => occurrences
     end).
Proof.
  split_and!.
  - apply classify_classified.
  - apply classified_unique.
  - intros st. rewrite scanLine_classify. simpl.
    destruct (classify line); simpl; split; try done.
    by rewrite lookup_insert_eq.
  - intros w printed. rewrite cleanLine_classify. by destruct (classify line).
  - intros u t. apply countLine_classify.
  - intros k occ n. rewrite findLine_classify.
    destruct (classify line) as [|key value|]; try done.
    by destruct (Filepath.bytes_eqb key k).
Qed.

(** ** Lines with an empty key or value *)

Lemma quotes_app a b : quotes (a ++ b) = (quotes a + quotes b)%nat.
Proof. unfold quotes. by rewrite filter_app, length_app. Qed.

Lemma quotes_cons c s :
  quotes (c :: s) = ((if Ascii.eqb c dquote then 1 else 0) + quotes s)%nat.
Proof.
  unfold quotes. rewrite filter_cons.
  destruct (Ascii.eqb_spec c dquote) as [->|Hne].
  - by rewrite decide_True.
  - by rewrite decide_False.
Qed.

Lemma noQuote_quotes s : noQuote s ↔ quotes s = 0%nat.
Proof.
  unfold noQuote. induction s as [|c s IH].
  - split; [done | constructor].
  - rewrite quotes_cons, Forall_cons, IH. unfold Regexp.notQuote.
    destruct (Ascii.eqb c dquote); simpl; split; try done.
    + by intros [? ?].
    + by intros [_ ->].
Qed.

Lemma blanks_noQuote s : blanks s → noQuote s.
Proof.
  intros H. eapply Forall_impl; [exact H|].
  intros c. unfold Regexp.perlSpace, Regexp.notQuote.
  destruct (Ascii.eqb_spec c dquote) as [->|]; [done|done].
Qed.

Lemma quotes_entryText key ws1 ws2 value ws3 :
  noQuote key → blanks ws1 → blanks ws2 → noQuote value → blanks ws3 →
  quotes (entryText key ws1 ws2 value ws3) = 4%nat.
Proof.
  intros Hk H1 H2 Hv H3. unfold entryText.
  apply blanks_noQuote, noQuote_quotes in H1, H2, H3.
  apply noQuote_quotes in Hk, Hv.
  repeat (rewrite ?quotes_cons, ?quotes_app). rewrite Hk, H1, H2, Hv, H3.
  reflexivity.
Qed.

(** When the quotes of a line are those of one pair, an entry of the line
    is that pair. *)
Lemma only_pair_entry pre key ws1 ws2 value ws3 post pre' key' value' :
  noQuote pre → noQuote key → blanks ws1 → blanks ws2 → noQuote value →
  blanks ws3 → noQuote post →
  entryAt (pre ++ entryText key ws1 ws2 value ws3 ++ post) pre' key' value' →
  key' = key ∧ value' = value.
Proof.
  intros Hp Hk H1 H2 Hv H3 Hpost (m & post' & Heq & He).
  destruct He as (ws1' & ws2' & ws3' & -> & _ & Hk' & _ & Hv' & H1' & H2' & H3').
  assert (noQuote pre') as Hp'.
  { apply noQuote_quotes. apply (f_equal quotes) in Heq.
    rewrite !quotes_app, !quotes_entryText in Heq by done.
    apply noQuote_quotes in Hp, Hpost. lia. }
  apply entryText_unique in Heq as (_ & -> & _ & _ & -> & _); done.
Qed.

Lemma classify_unrecognized line :
  ¬ blankOrComment line → noEntry line → classify line = Unrecognized.
Proof.
  intros Hb Hn. symmetry. apply classified_unique. by constructor.
Qed.

(** C10, as amended. A line that is not blank and not a comment, whose
    first quoted pair has an empty key or an empty value and which has no
    quote after that pair, is unrecognized: it adds no key occurrence in
    the analyzer, the key counter or the key checker, and the cleaned
    output keeps it as it is.  The key and the value of an entry are never
    empty. *)
Theorem empty_pair_line_unrecognized line post :
  ¬ blankOrComment line → emptyFirstPair line post → noQuote post →
  classify line = Unrecognized ∧
  (∀ st, scanLine st line =
         mkScan (keyEntries st) (duplicateKeys st) (uniqueEntries st)
                (rawLines st ++ [line]) (GoInt.add (lineNum st) 1)) ∧
  (∀ st, CountKeys.countLine st line = st) ∧
  (∀ keyToFind occurrences lineNum,
     CheckKeys.findLine keyToFind (occurrences, lineNum) line =
     (occurrences, GoInt.add lineNum 1)) ∧
  (∀ writtenKeys printed,
     cleanLine (writtenKeys, printed) line = (writtenKeys, printed ++ [line])) ∧
  (∀ other key value,
     classify other = Entry key value → key ≠ [] ∧ value ≠ []).
Proof.
  intros Hb (pre & key & ws1 & ws2 & value & ws3 & -> & Hp & Hk & H1 & H2 & Hv & H3 & Hempty) Hpost.
  assert (classify (pre ++ entryText key ws1 ws2 value ws3 ++ post) = Unrecognized) as Hc.
  { apply classify_unrecognized; [done|].
    intros pre' key' value' Hat.
    assert (key' ≠ [] ∧ value' ≠ []) as [Hk' Hv'].
    { destruct Hat as (m & post' & _ & ws1' & ws2' & ws3' & _ & ? & _ & ? & _). done. }
    apply only_pair_entry in Hat as [-> ->]; [|done..].
    by destruct Hempty. }
  split_and!.
  - done.
  - intros st. by rewrite scanLine_classify, Hc.
  - intros [u t]. by rewrite countLine_classify, Hc.
  - intros k occ n. by rewrite findLine_classify, Hc.
  - intros w printed. by rewrite cleanLine_classify, Hc.
  - intros other k v H. apply classify_entry in H as [_ H].
    apply firstEntry_nonempty in H. tauto.
Qed.

(** ** The report of [main] *)

Lemma reportKey_is_Some key entries : entries ≠ [] → is_Some (reportKey key entries).
Proof. destruct entries; [done|]. simpl. eauto. Qed.

Lemma reportKeys_ok duplicateKeys keys :
  (∀ key, key ∈ keys → index [] duplicateKeys key ≠ []) →
  reportKeys duplicateKeys keys = (reportAll duplicateKeys keys, true).
Proof.
  induction keys as [|key keys IH]; intros Hne; simpl; [done|].
  destruct (reportKey_is_Some key (index [] duplicateKeys key)) as [ms Hms].
  { apply Hne, elem_of_cons. by left. }
  rewrite Hms, IH; [done|]. intros k Hk. apply Hne, elem_of_cons. by right.
Qed.

Lemma sortStrings_keys (duplicateKeys : gmap bytes (list KeyValue)) key :
  key ∈ sortStrings (map fst (map_to_list duplicateKeys)) ↔
  is_Some (duplicateKeys !! key).
Proof.
  unfold sortStrings. rewrite merge_sort_Permutation, list_elem_of_fmap. split.
  - intros [[k v] [-> Hin]]. apply elem_of_map_to_list in Hin. by exists v.
  - intros [v Hv]. exists (key, v). split; [done|]. by apply elem_of_map_to_list.
Qed.

(** The groups of the duplicate keys of a scan have two entries or more. *)
Lemma duplicateKeys_two lines key group :
  duplicateKeys (scanLines lines) !! key = Some group → (2 ≤ length group)%nat.
Proof.
  destruct (agrees_scanLines lines key) as (_ & Hdup & _). simpl in Hdup.
  rewrite Hdup. destruct (decide _); [|done]. by intros [= <-].
Qed.

Lemma main_scanned os fl lines :
  (if nonEmpty (outputFile fl) then Os.Create os (outputFile fl) else None) = None →
  Os.Open os (inputFile fl) = inr (Os.Scanner lines None) →
  let duplicateKeys := duplicateKeys (scanLines lines) in
  let request :=
    cleanRequest os fl duplicateKeys (Some (uniqueEntries (scanLines lines))) lines in
  main os fl =
    ((if nonEmpty (outputFile fl) then [EvCreate (outputFile fl)] else [])
       ++ map EvReport (reportOf duplicateKeys) ++ fst request,
     snd request).
Proof.
  intros Hcreate Hopen. simpl. unfold main. rewrite Hcreate.
  rewrite (analyze_ok _ _ _ Hopen). simpl. unfold reportOf.
  destruct (0 <? Z.of_nat (size (duplicateKeys (scanLines lines)))).
  - rewrite reportKeys_ok.
    + by destruct (cleanRequest _ _ _ _ _).
    + intros key Hkey. apply sortStrings_keys in Hkey as [group Hg].
      unfold index. rewrite Hg. simpl.
      apply duplicateKeys_two in Hg. destruct group; simpl in *; [lia | done].
  - by destruct (cleanRequest _ _ _ _ _).
Qed.

Lemma allSameLoop_true firstValue rest :
  allSameLoop firstValue rest = true ↔ ∀ e, e ∈ rest → Value e = firstValue.
Proof.
  induction rest as [|entry rest IH]; simpl.
  - split; [|done]. intros _ e He. by apply elem_of_nil in He.
  - destruct (Filepath.bytes_eqb (Value entry) firstValue) eqn:Heq; simpl.
    + apply bytes_eqb_eq in Heq. rewrite IH. split.
      * intros H e He. apply elem_of_cons in He as [->|He]; auto.
      * intros H e He. apply H, elem_of_cons. by right.
    + split; [done|]. intros H.
      assert (Value entry = firstValue) as Hv by (apply H, elem_of_cons; by left).
      apply bytes_eqb_eq in Hv. congruence.
Qed.

Lemma allSameLoop_false firstValue rest :
  allSameLoop firstValue rest = false ↔ ∃ e, e ∈ rest ∧ Value e ≠ firstValue.
Proof.
  induction rest as [|entry rest IH]; simpl.
  - split; [done|]. intros (e & He & _). by apply elem_of_nil in He.
  - destruct (Filepath.bytes_eqb (Value entry) firstValue) eqn:Heq; simpl.
    + apply bytes_eqb_eq in Heq. rewrite IH. split.
      * intros (e & He & Hne). exists e. split; [|done]. apply elem_of_cons. by right.
      * intros (e & He & Hne). apply elem_of_cons in He as [->|He]; [done|].
        by exists e.
    + split; [|done]. intros _. exists entry. split; [apply elem_of_cons; by left|].
      intros Hv. apply bytes_eqb_eq in Hv. congruence.
Qed.

Lemma reportAll_elem duplicateKeys keys key ms m :
  key ∈ keys → reportKey key (index [] duplicateKeys key) = Some ms → m ∈ ms →
  m ∈ reportAll duplicateKeys keys.
Proof.
  intros Hkey Hms Hm. unfold reportAll. apply list_elem_of_In, in_flat_map.
  exists key. split; [by apply list_elem_of_In|].
  rewrite Hms. simpl. by apply list_elem_of_In.
Qed.

Lemma reportKey_class key first rest :
  ∃ ms, reportKey key (first :: rest) = Some ms ∧
    (MsgAllSame (Value first) ∈ ms ↔ allSame (first :: rest) = Some true) ∧
    (MsgConflict ∈ ms ↔ allSame (first :: rest) = Some false).
Proof.
  simpl. eexists. split; [done|].
  set (same := allSameLoop (Value first) rest).
  assert (∀ m, (m = MsgAllSame (Value first) ∨ m = MsgConflict) →
            m ∉ map (λ entry, if negb same
                              then MsgLineValue (LineNum entry) (Value entry)
                              else MsgLine (LineNum entry)) (first :: rest)
                ++ [MsgBlank]) as Hlines.
  { intros m Hm Hin. apply elem_of_app in Hin as [Hin|Hin].
    - apply list_elem_of_fmap in Hin as (e & -> & _).
      destruct same; simpl in Hm; by destruct Hm.
    - apply list_elem_of_singleton in Hin as ->. by destruct Hm. }
  split.
  - do 3 rewrite elem_of_cons. split.
    + intros [?|[Hm|[?|Hin]]]; try done.
      * by destruct same.
      * exfalso. eapply Hlines; [|exact Hin]. by left.
    + intros [= ->]. right. by left.
  - do 3 rewrite elem_of_cons. split.
    + intros [?|[Hm|[?|Hin]]]; try done.
      * by destruct same.
      * exfalso. eapply Hlines; [|exact Hin]. by right.
    + intros [= ->]. right. by left.
Qed.

(** C3. Each duplicate key is reported as a same-value duplicate when the
    value of every occurrence equals the value of the first one, byte for
    byte, and as a conflicting duplicate when some occurrence has another
    value. *)
Theorem duplicates_same_or_conflicting os fl lines :
  (if nonEmpty (outputFile fl) then Os.Create os (outputFile fl) else None) = None →
  Os.Open os (inputFile fl) = inr (Os.Scanner lines None) →
  ∃ duplicateGroups firstOccurrences,
    analyzeLocalizationFile os (inputFile fl) =
      (Some duplicateGroups, Some firstOccurrences, lines, None) ∧
    ∀ key group, duplicateGroups !! key = Some group →
      ∃ first rest ms,
        group = first :: rest ∧
        (allSame group = Some true ↔ ∀ e, e ∈ group → Value e = Value first) ∧
        (allSame group = Some false ↔ ∃ e, e ∈ group ∧ Value e ≠ Value first) ∧
        reportKey key group = Some ms ∧
        (MsgAllSame (Value first) ∈ ms ↔ allSame group = Some true) ∧
        (MsgConflict ∈ ms ↔ allSame group = Some false) ∧
        ∀ m, m ∈ ms → EvReport m ∈ fst (main os fl).
Proof.
  intros Hcreate Hopen. eexists _, _. split; [by apply analyze_ok|].
  intros key group Hg.
  pose proof (duplicateKeys_two _ _ _ Hg) as Hlen.
  destruct group as [|first rest]; [simpl in Hlen; lia|].
  destruct (reportKey_class key first rest) as (ms & Hms & Hsame & Hconf).
  exists first, rest, ms. split_and!; try done.
  - simpl. split.
    + intros [= H] e He. apply elem_of_cons in He as [->|He]; [done|].
      by apply (proj1 (allSameLoop_true _ _) H).
    + intros H. f_equal. apply allSameLoop_true. intros e He.
      apply H, elem_of_cons. by right.
  - simpl. split.
    + intros [= H]. apply allSameLoop_false in H as (e & He & Hne).
      exists e. split; [apply elem_of_cons; by right | done].
    + intros (e & He & Hne). f_equal. apply allSameLoop_false.
      apply elem_of_cons in He as [->|He]; [done|]. by exists e.
  - intros m Hm. rewrite (main_scanned os fl lines Hcreate Hopen). simpl.
    apply elem_of_app. right. apply elem_of_app. left.
    apply list_elem_of_fmap. exists m. split; [done|].
    unfold reportOf.
    assert (0 < Z.of_nat (size (duplicateKeys (scanLines lines)))) as Hsize.
    { assert (size (duplicateKeys (scanLines lines)) ≠ 0%nat); [|lia].
      intros Hz. apply map_size_empty_iff in Hz. rewrite Hz in Hg.
      by rewrite lookup_empty in Hg. }
    apply Z.ltb_lt in Hsize. rewrite Hsize.
    apply elem_of_cons. right. apply elem_of_cons. right.
    apply (reportAll_elem _ _ key ms); [|by unfold index; rewrite Hg|done].
    apply sortStrings_keys. by exists (first :: rest).
Qed.

(** ** Paths *)

Lemma HasPrefix_app p s : Strings.HasPrefix (p ++ s) p = true.
Proof.
  induction p as [|c p IH]; simpl; [done|]. by rewrite Ascii.eqb_refl, IH.
Qed.

Lemma TrimSuffix_app a suffix : Strings.TrimSuffix (a ++ suffix) suffix = a.
Proof.
  unfold Strings.TrimSuffix, Strings.HasSuffix.
  rewrite rev_app_distr, HasPrefix_app, length_app.
  replace (length a + length suffix - length suffix)%nat with (length a) by lia.
  apply take_app_length.
Qed.

Lemma extLoop_spec r : ∀ acc,
  Filepath.extLoop r acc = [] ∨
  ∃ p rest, r = p ++ dot :: rest ∧ noSlash p ∧
            Filepath.extLoop r acc = dot :: rev p ++ acc.
Proof.
  induction r as [|c r IH]; intros acc; simpl; [by left|].
  destruct (Filepath.isSlash c) eqn:Hs; [by left|].
  destruct (Ascii.eqb_spec c dot) as [->|Hne].
  - right. exists [], r. split_and!; [done | constructor | done].
  - destruct (IH (c :: acc)) as [H|(p & rest & -> & Hp & H)]; [by left|].
    right. exists (c :: p), rest. split_and!; [done | by constructor |].
    rewrite H. simpl. by rewrite <- app_assoc.
Qed.

Lemma takeToSlash_app p rest :
  noSlash p →
  Filepath.takeToSlash (p ++ dot :: rest) = p ++ dot :: Filepath.takeToSlash rest.
Proof.
  induction 1 as [|c p Hc _ IH]; simpl; [done|]. by rewrite Hc, IH.
Qed.

Lemma takeToSlash_noSlash r : noSlash (Filepath.takeToSlash r).
Proof.
  induction r as [|c r IH]; simpl; [constructor|].
  destruct (Filepath.isSlash c) eqn:Hs; [constructor | by constructor].
Qed.

(** The extension is the end of the base name. *)
Lemma Base_Ext filename :
  ∃ stem, Filepath.Base filename = stem ++ Filepath.Ext filename.
Proof.
  unfold Filepath.Base, Filepath.Ext.
  destruct (extLoop_spec (rev filename) []) as [->|(p & rest & Hr & Hp & ->)].
  { eexists. by rewrite app_nil_r. }
  destruct filename as [|c filename]; [by destruct p|].
  rewrite Hr.
  assert (Filepath.dropSlashes (p ++ dot :: rest) = p ++ dot :: rest) as ->.
  { destruct Hp as [|x p Hx _]; simpl; [done | by rewrite Hx]. }
  rewrite takeToSlash_app by done.
  rewrite rev_app_distr. simpl. rewrite <- !app_assoc. simpl.
  exists (rev (Filepath.takeToSlash rest)). rewrite app_nil_r.
  by destruct (rev (Filepath.takeToSlash rest)).
Qed.

Lemma Base_noSlash filename :
  Filepath.Base filename = [slash] ∨ noSlash (Filepath.Base filename).
Proof.
  unfold Filepath.Base. destruct filename as [|c filename].
  - right. by repeat constructor.
  - destruct (rev (Filepath.takeToSlash _)) as [|x l] eqn:Hr; [by left|].
    right. rewrite <- Hr. apply Forall_rev, takeToSlash_noSlash.
Qed.

Lemma createUniqueFilename_shape filename :
  ∃ stem,
    Filepath.Base filename = stem ++ Filepath.Ext filename ∧
    createUniqueFilename filename =
      Filepath.Join [Filepath.Dir filename;
                     stem ++ str "-cleaned" ++ Filepath.Ext filename].
Proof.
  destruct (Base_Ext filename) as [stem Hstem]. exists stem. split; [done|].
  unfold createUniqueFilename. by rewrite Hstem, TrimSuffix_app.
Qed.

Lemma split_nonempty path : Filepath.split path ≠ [].
Proof.
  destruct path as [|c path]; simpl; [done|].
  destruct (Filepath.isSlash c); [done|]. by destruct (Filepath.split path).
Qed.

Lemma split_app p n :
  Filepath.split (p ++ slash :: n) = Filepath.split p ++ Filepath.split n.
Proof.
  induction p as [|c p IH]; simpl; [done|].
  destruct (Filepath.isSlash c); [by rewrite IH|].
  rewrite IH. pose proof (split_nonempty p).
  by destruct (Filepath.split p).
Qed.

Lemma split_noSlash n : noSlash n → Filepath.split n = [n].
Proof.
  induction 1 as [|c n Hc _ IH]; simpl; [done|]. by rewrite Hc, IH.
Qed.

Lemma joinSlash_last xs n : ∃ d, Filepath.joinSlash (xs ++ [n]) = d ++ n.
Proof.
  induction xs as [|x xs [d IH]]; [by exists []|].
  change ((x :: xs) ++ [n]) with (x :: (xs ++ [n])).
  destruct (xs ++ [n]) as [|y ys] eqn:Hy; [by destruct xs|].
  exists (x ++ slash :: d). simpl in *. rewrite IH. by rewrite <- app_assoc.
Qed.

(** [Clean] keeps the last element of a path when it is a name. *)
Lemma Clean_last p n :
  noSlash n → n ≠ [] → n ≠ [dot] → n ≠ [dot; dot] →
  ∃ d, Filepath.Clean (p ++ slash :: n) = d ++ n.
Proof.
  intros Hn H0 H1 H2. unfold Filepath.Clean.
  destruct (p ++ slash :: n) as [|c rest] eqn:Hp; [by destruct p|].
  rewrite <- Hp, split_app, (split_noSlash n), fold_left_app by done. simpl.
  set (out := fold_left _ _ _).
  assert (Filepath.cleanElem (Filepath.isSlash c) out n = n :: out) as ->.
  { unfold Filepath.cleanElem, Filepath.bytes_eqb.
    rewrite !(bool_decide_eq_false_2 (n = _)) by done. done. }
  simpl. destruct (joinSlash_last (rev out) n) as [d Hd].
  destruct (Filepath.isSlash c).
  - exists (slash :: d). by rewrite Hd.
  - destruct (rev out ++ [n]) eqn:Ho; [by destruct (rev out)|].
    by exists d.
Qed.

Lemma cleanElem_nonempty rooted els : ∀ out,
  Forall (λ e, e ≠ []) out →
  Forall (λ e, e ≠ []) (fold_left (Filepath.cleanElem rooted) els out).
Proof.
  induction els as [|e els IH]; intros out Hout; simpl; [done|].
  apply IH. unfold Filepath.cleanElem.
  destruct (Filepath.bytes_eqb e []) eqn:He; [done|].
  apply bool_decide_eq_false in He.
  destruct (Filepath.bytes_eqb e [dot]); [done|].
  destruct (Filepath.bytes_eqb e [dot; dot]).
  - destruct out as [|top out'].
    + destruct rooted; [done | by repeat constructor].
    + destruct (Filepath.bytes_eqb top [dot; dot]); [by constructor|].
      by inversion Hout.
  - by constructor.
Qed.

Lemma joinSlash_nonempty x xs : x ≠ [] → Filepath.joinSlash (x :: xs) ≠ [].
Proof.
  intros Hx. simpl. destruct xs; [done|]. by destruct x.
Qed.

Lemma Clean_nonempty path : Filepath.Clean path ≠ [].
Proof.
  unfold Filepath.Clean. destruct path as [|c path]; [done|].
  destruct (Filepath.isSlash c); [done|].
  pose proof (cleanElem_nonempty false (Filepath.split (c :: path)) []
                (List.Forall_nil _)) as H.
  apply Forall_rev in H.
  destruct (rev _) as [|x xs]; [done|].
  apply joinSlash_nonempty. by inversion H.
Qed.

Lemma createUniqueFilename_suffix filename stem :
  Filepath.Base filename = stem ++ Filepath.Ext filename →
  Filepath.Base filename ≠ [slash] →
  ∃ dir, createUniqueFilename filename =
         dir ++ stem ++ str "-cleaned" ++ Filepath.Ext filename.
Proof.
  intros Hstem Hroot. unfold createUniqueFilename.
  rewrite Hstem, TrimSuffix_app. simpl. unfold Filepath.bytes_eqb.
  rewrite (bool_decide_eq_false_2 (Filepath.Dir filename = []))
    by apply Clean_nonempty.
  set (name := stem ++ str "-cleaned" ++ Filepath.Ext filename).
  assert ("-"%char ∈ name) as Hdash.
  { unfold name. apply elem_of_app. right. apply elem_of_app. left.
    apply elem_of_cons. by left. }
  assert (name ≠ []) as H0.
  { intros Hn. rewrite Hn in Hdash. by apply elem_of_nil in Hdash. }
  assert (name ≠ [dot]) as H1.
  { intros Hn. rewrite Hn in Hdash. by apply list_elem_of_singleton in Hdash. }
  assert (name ≠ [dot; dot]) as H2.
  { intros Hn. rewrite Hn in Hdash.
    apply elem_of_cons in Hdash as [?|Hdash]; [done|].
    by apply list_elem_of_singleton in Hdash. }
  apply Clean_last; [|done..].
  destruct (Base_noSlash filename) as [|Hns]; [done|].
  rewrite Hstem in Hns. apply Forall_app in Hns as [Hs He].
  unfold name. apply Forall_app. split; [done|].
  repeat (apply Forall_cons; split; [done|]). done.
Qed.

Lemma opened_noCleanWrite fl ev :
  ev ∈ (if nonEmpty (outputFile fl) then [EvCreate (outputFile fl)] else []) →
  noCleanWrite fl ev.
Proof.
  unfold nonEmpty. destruct (Filepath.bytes_eqb (outputFile fl) []) eqn:He; simpl.
  - intros H. by apply elem_of_nil in H.
  - intros H. apply list_elem_of_singleton in H as ->. simpl.
    split; [done|]. by apply bool_decide_eq_false in He.
Qed.

(** C8. A clean request whose destination is the input file, once both
    paths are cleaned, is rejected: the program exits with status 1 without
    any write of the cleaned-file generator, and when the analysis went
    through, the terminal gets the error with the suggested name, which is
    the name of the input file with -cleaned before its extension, in the
    directory of the input file. *)
Theorem clean_into_input_rejected os fl :
  cleanFile fl ≠ [] →
  Filepath.Clean (cleanFile fl) = Filepath.Clean (inputFile fl) →
  snd (main os fl) = Exited 1 ∧
  (∀ ev, ev ∈ fst (main os fl) → noCleanWrite fl ev) ∧
  (∀ lines,
     (if nonEmpty (outputFile fl) then Os.Create os (outputFile fl) else None) = None →
     Os.Open os (inputFile fl) = inr (Os.Scanner lines None) →
     ∃ report stem,
       main os fl =
         ((if nonEmpty (outputFile fl) then [EvCreate (outputFile fl)] else [])
            ++ map EvReport report
            ++ [EvStdout MsgSameAsInput;
                EvStdout (MsgPleaseUse (createUniqueFilename (inputFile fl)))],
          Exited 1) ∧
       Filepath.Base (inputFile fl) = stem ++ Filepath.Ext (inputFile fl) ∧
       createUniqueFilename (inputFile fl) =
         Filepath.Join [Filepath.Dir (inputFile fl);
                        stem ++ str "-cleaned" ++ Filepath.Ext (inputFile fl)] ∧
       (Filepath.Base (inputFile fl) ≠ [slash] →
        ∃ dir, createUniqueFilename (inputFile fl) =
               dir ++ stem ++ str "-cleaned" ++ Filepath.Ext (inputFile fl))).
Proof.
  intros Hclean Hsame.
  assert (∀ dup first raw,
            cleanRequest os fl dup first raw =
            ([EvStdout MsgSameAsInput;
              EvStdout (MsgPleaseUse (createUniqueFilename (inputFile fl)))],
             Exited 1)) as Hreq.
  { intros dup first raw. unfold cleanRequest, nonEmpty, Filepath.bytes_eqb.
    rewrite (bool_decide_eq_false_2 (cleanFile fl = [])) by done.
    by rewrite (bool_decide_eq_true_2 (Filepath.Clean (cleanFile fl) = _)). }
  assert (∀ lines,
     (if nonEmpty (outputFile fl) then Os.Create os (outputFile fl) else None) = None →
     Os.Open os (inputFile fl) = inr (Os.Scanner lines None) →
     main os fl =
       ((if nonEmpty (outputFile fl) then [EvCreate (outputFile fl)] else [])
          ++ map EvReport (reportOf (duplicateKeys (scanLines lines)))
          ++ [EvStdout MsgSameAsInput;
              EvStdout (MsgPleaseUse (createUniqueFilename (inputFile fl)))],
        Exited 1)) as Hmain.
  { intros lines Hcreate Hopen.
    rewrite (main_scanned os fl lines Hcreate Hopen). simpl. by rewrite Hreq. }
  destruct (if nonEmpty (outputFile fl) then Os.Create os (outputFile fl) else None)
    as [cerr|] eqn:Hcreate.
  { unfold main. rewrite Hcreate. simpl. split_and!; [done| |done].
    intros ev Hev. by apply list_elem_of_singleton in Hev as ->. }
  destruct (Os.Open os (inputFile fl)) as [oerr|[lines [serr|]]] eqn:Hopen.
  - unfold main, analyzeLocalizationFile. rewrite Hcreate, Hopen. simpl.
    split_and!; [done| |done].
    intros ev Hev. apply elem_of_app in Hev as [Hev|Hev].
    + by apply opened_noCleanWrite.
    + by apply list_elem_of_singleton in Hev as ->.
  - unfold main, analyzeLocalizationFile. rewrite Hcreate, Hopen. simpl.
    split_and!; [done| |done].
    intros ev Hev. apply elem_of_app in Hev as [Hev|Hev].
    + by apply opened_noCleanWrite.
    + by apply list_elem_of_singleton in Hev as ->.
  - rewrite (Hmain lines eq_refl eq_refl). simpl. split_and!; [done| |].
    + intros ev Hev. apply elem_of_app in Hev as [Hev|Hev];
        [by apply opened_noCleanWrite|].
      apply elem_of_app in Hev as [Hev|Hev].
      * by apply list_elem_of_fmap in Hev as (m & -> & _).
      * apply elem_of_cons in Hev as [->|Hev]; [done|].
        by apply list_elem_of_singleton in Hev as ->.
    + intros lines' _ [= <-].
      destruct (createUniqueFilename_shape (inputFile fl)) as (stem & Hstem & Hshape).
      exists (reportOf (duplicateKeys (scanLines lines))), stem.
      split_and!; [done..|].
      by apply createUniqueFilename_suffix.
Qed.

(** ** The theorems at the sample files *)

Lemma sample1_not_long : GoInt.len sample1 ≤ GoInt.max_int.
Proof. unfold GoInt.len, GoInt.max_int. simpl. lia. Qed.

(** In the first scenario key A is a duplicate group with ascending line
    numbers and key B is none. *)
Lemma duplicateGroups_iff_two_occurrences_witness :
  Os.Open (osOf sample1) sampleFile = inr (Os.Scanner sample1 None) ∧
  ∃ duplicateGroups,
    (analyzeLocalizationFile (osOf sample1) sampleFile).1.1.1 = Some duplicateGroups ∧
    is_Some (duplicateGroups !! str "A") ∧
    duplicateGroups !! str "B" = None ∧
    ascending (index [] (keyEntries (scanLines sample1)) (str "A")).
Proof.
  split; [reflexivity|].
  destruct (duplicateGroups_iff_two_occurrences (osOf sample1) sampleFile sample1 eq_refl)
    as (dup & first & Ha & Hkeys).
  exists dup. rewrite Ha. split; [reflexivity|].
  destruct (Hkeys (str "A")) as (HA & _ & _ & HsortedA).
  destruct (Hkeys (str "B")) as (_ & _ & HB & _).
  split; [|split].
  - apply HA. vm_compute. repeat constructor.
  - apply HB. reflexivity.
  - apply HsortedA, sample1_not_long.
Defined.

(** In the first scenario the first occurrence of key A is on line 1. *)
Lemma firstOccurrences_smallest_lineNumber_witness :
  Os.Open (osOf sample1) sampleFile = inr (Os.Scanner sample1 None) ∧
  ∃ firstOccurrences,
    (analyzeLocalizationFile (osOf sample1) sampleFile).1.1.2 = Some firstOccurrences ∧
    firstOccurrences !! str "A" = Some (mkKeyValue (str "A") (str "1") 1).
Proof.
  split; [reflexivity|].
  destruct (firstOccurrences_smallest_lineNumber (osOf sample1) sampleFile sample1 eq_refl)
    as (dup & first & Ha & Hkeys & _).
  exists first. rewrite Ha. split; [reflexivity|].
  destruct (Hkeys (str "A")) as [Hhead _]. rewrite Hhead. reflexivity.
Defined.

(** In the second scenario the report has the conflict warning. *)
Lemma duplicates_same_or_conflicting_witness :
  Os.Open (osOf sample2) sampleFile = inr (Os.Scanner sample2 None) ∧
  EvReport MsgConflict ∈ fst (main (osOf sample2) (mkFlags [] sampleFile [] false)).
Proof.
  split; [reflexivity|].
  destruct (duplicates_same_or_conflicting (osOf sample2)
              (mkFlags [] sampleFile [] false) sample2 eq_refl eq_refl)
    as (dup & first & Ha & Hgroups).
  simpl in Ha. rewrite (analyze_ok (osOf sample2) sampleFile sample2 eq_refl) in Ha.
  injection Ha as <- <-.
  destruct (Hgroups (str "Hi")
              [mkKeyValue (str "Hi") (str "Hello") 1; mkKeyValue (str "Hi") (str "Hola") 4]
              eq_refl)
    as (e & rest & ms & Hg & _ & _ & _ & _ & Hconf & Hmain).
  injection Hg as <- <-.
  apply Hmain, Hconf. reflexivity.
Defined.

(** The clean file of the second sample, cleaned again, has the same
    content. *)
Lemma recleaning_identical_iff_no_trailing_CR_witness :
  let data := fileBytes sample2 in
  let evs :=
    fst (createCleanFile (osOf []) (str "a.strings") None (Bufio.tokens data)) in
  let evs' :=
    fst (createCleanFile (osOf []) (str "b.strings") None
           (Bufio.tokens (fileBytes (printedLines evs)))) in
  Forall (λ line, Bufio.dropCR line = line) (Bufio.tokens data) ∧
  fileBytes (printedLines evs') = fileBytes (printedLines evs).
Proof.
  cbv zeta.
  set (evs := fst (createCleanFile (osOf []) (str "a.strings") None
                     (Bufio.tokens (fileBytes sample2)))).
  set (evs' := fst (createCleanFile (osOf []) (str "b.strings") None
                      (Bufio.tokens (fileBytes (printedLines evs))))).
  assert (Forall (λ line, Bufio.dropCR line = line)
            (Bufio.tokens (fileBytes sample2))) as Hall.
  { change (Bufio.tokens (fileBytes sample2)) with sample2.
    repeat (constructor; [reflexivity|]). constructor. }
  split; [exact Hall|].
  destruct (recleaning_identical_iff_no_trailing_CR
              (osOf []) (str "a.strings") None (fileBytes sample2) evs
              (osOf []) (str "b.strings") None evs' eq_refl eq_refl)
    as (_ & _ & _ & Hiff & _ & Hprinted).
  apply Hiff, Hprinted, Hall.
Defined.

(** C5, as stated, fails on a file whose line ends in two carriage returns
    before the newline: the scanner yields the line with one of them, the
    clean file has it with one, and the clean file of the clean file has it
    with none. *)
Lemma recleaning_trailing_CR_counterexample :
  let evs :=
    fst (createCleanFile (osOf []) (str "a.strings") None (Bufio.tokens crFile)) in
  let evs' :=
    fst (createCleanFile (osOf []) (str "b.strings") None
           (Bufio.tokens (fileBytes (printedLines evs)))) in
  Bufio.tokens crFile = [entryLine (str "A") (str "1") ++ [Bufio.cr]] ∧
  fileBytes (printedLines evs)
    = entryLine (str "A") (str "1") ++ [Bufio.cr; Bufio.lf] ∧
  fileBytes (printedLines evs') = entryLine (str "A") (str "1") ++ [Bufio.lf] ∧
  fileBytes (printedLines evs') ≠ fileBytes (printedLines evs).
Proof. cbv zeta. split_and!; [reflexivity..|]. vm_compute. discriminate. Qed.

(** The comment of the second sample is printed to the clean file. *)
Lemma passthrough_lines_verbatim_witness :
  Os.Open (osOf sample2) sampleFile = inr (Os.Scanner sample2 None) ∧
  ∀ firstOccurrences,
    str "// greeting" ∈
      printedLines (fst (createCleanFile (osOf []) (str "a.strings")
                           (Some firstOccurrences) sample2)).
Proof.
  split; [reflexivity|].
  destruct (passthrough_lines_verbatim (osOf sample2) sampleFile sample2 eq_refl)
    as (dup & first & raw & Ha & -> & _ & Hprinted).
  intros first'.
  destruct (Hprinted (osOf []) (str "a.strings")
              (fst (createCleanFile (osOf []) (str "a.strings") (Some first) sample2))
              eq_refl) as [_ Hin].
  apply (Hin (str "// greeting")); [reflexivity|].
  apply elem_of_cons. right. apply elem_of_cons. by left.
Defined.

(** A clean request into the input file of the first scenario exits with
    status 1 and suggests the name with -cleaned before the extension. *)
Lemma clean_into_input_rejected_witness :
  cleanFile sampleFlags ≠ [] ∧
  Filepath.Clean (cleanFile sampleFlags) = Filepath.Clean (inputFile sampleFlags) ∧
  snd (main (osOf sample1) sampleFlags) = Exited 1 ∧
  EvStdout (MsgPleaseUse (str "dir/Localizable-cleaned.strings"))
    ∈ fst (main (osOf sample1) sampleFlags).
Proof.
  assert (cleanFile sampleFlags ≠ []) as H1 by discriminate.
  assert (Filepath.Clean (cleanFile sampleFlags) =
          Filepath.Clean (inputFile sampleFlags)) as H2 by reflexivity.
  destruct (clean_into_input_rejected (osOf sample1) sampleFlags H1 H2)
    as (Hexit & _ & Hmsg).
  split; [exact H1|]. split; [exact H2|]. split; [exact Hexit|].
  destruct (Hmsg sample1 eq_refl eq_refl) as (report & stem & Hmain & _).
  rewrite Hmain. simpl.
  apply elem_of_app. right. apply elem_of_cons. right.
  apply elem_of_cons. by left.
Defined.

(** No file can be opened: the analysis returns the open error alone. *)
Lemma analysis_errors_return_nothing_witness :
  analyzeLocalizationFile osNoFile sampleFile =
    (None, None, [], Some (FailedToOpenFile (Os.OsError (str "no such file or directory")))).
Proof.
  destruct (analysis_errors_return_nothing osNoFile sampleFile) as (Hopen & _ & _).
  apply Hopen. reflexivity.
Defined.

Lemma emptyValueLine_not_skipped : ¬ blankOrComment emptyValueLine.
Proof. apply skipped_false. reflexivity. Qed.

Lemma emptyValueLine_emptyFirstPair : emptyFirstPair emptyValueLine [].
Proof.
  exists [], (str "k"), (str " "), (str " "), [], [].
  split; [reflexivity|].
  split_and!; [by repeat constructor.. | by right].
Qed.

(** The line with an empty value is unrecognized and is printed to the
    clean file. *)
Lemma empty_pair_line_unrecognized_witness :
  ¬ blankOrComment emptyValueLine ∧
  emptyFirstPair emptyValueLine [] ∧
  classify emptyValueLine = Unrecognized ∧
  cleanLine (∅, []) emptyValueLine = (∅, [emptyValueLine]).
Proof.
  destruct (empty_pair_line_unrecognized emptyValueLine []
              emptyValueLine_not_skipped emptyValueLine_emptyFirstPair
              (List.Forall_nil _))
    as (Hclass & _ & _ & _ & Hclean & _).
  split; [exact emptyValueLine_not_skipped|].
  split; [exact emptyValueLine_emptyFirstPair|].
  split; [exact Hclass | apply Hclean].
Defined.

(** C10, as stated, fails on a line whose first quoted pair has an empty
    key and which goes on with a second pair: the line is not blank and not
    a comment, its first pair has an empty key, and the line is an entry,
    with the key and value of the second pair. *)
Lemma empty_first_pair_entry_counterexample :
  ¬ blankOrComment twoPairLine ∧
  emptyFirstPair twoPairLine (str " " ++ entryLine (str "a") (str "b")) ∧
  classify twoPairLine = Entry (str "a") (str "b") ∧
  keysOf (cleanLines [twoPairLine]) = [str "a"].
Proof.
  split; [apply skipped_false; reflexivity|].
  split; [|split; reflexivity].
  exists [], [], (str " "), (str " "), (str "v"), [].
  split; [reflexivity|].
  split_and!; [by repeat constructor.. | by left].
Qed.


(** ** The scenarios of the specification, by evaluation *)

(** Key A twice with one value: one duplicate group, lines 1 and 3, same
    value; the clean file keeps the first two lines. *)
Example scenario_same_value :
  duplicateKeys (scanLines sample1) !! str "A" =
    Some [mkKeyValue (str "A") (str "1") 1; mkKeyValue (str "A") (str "1") 3] ∧
  duplicateKeys (scanLines sample1) !! str "B" = None ∧
  allSame [mkKeyValue (str "A") (str "1") 1; mkKeyValue (str "A") (str "1") 3] = Some true ∧
  cleanLines sample1 = [entryLine (str "A") (str "1"); entryLine (str "B") (str "2")].
Proof. repeat split; reflexivity. Qed.

(** Key Hi with two values: a conflicting group; the comment and the blank
    line stay in the clean file, in their order. *)
Example scenario_conflict :
  duplicateKeys (scanLines sample2) !! str "Hi" =
    Some [mkKeyValue (str "Hi") (str "Hello") 1; mkKeyValue (str "Hi") (str "Hola") 4] ∧
  allSame [mkKeyValue (str "Hi") (str "Hello") 1; mkKeyValue (str "Hi") (str "Hola") 4]
    = Some false ∧
  cleanLines sample2 = [entryLine (str "Hi") (str "Hello"); str "// greeting"; str ""].
Proof. repeat split; reflexivity. Qed.

(** Values that differ in case or in a trailing blank are different. *)
Example scenario_exact_comparison :
  allSame [mkKeyValue (str "k") (str "Yes") 1; mkKeyValue (str "k") (str "yes") 2]
    = Some false ∧
  allSame [mkKeyValue (str "k") (str "a") 1; mkKeyValue (str "k") (str "a ") 2]
    = Some false.
Proof. split; reflexivity. Qed.

(** The key counter and the key checker on the first scenario. *)
Example scenario_counter_and_checker :
  CountKeys.countKeys (osOf sample1) sampleFile = (2, 3, None) ∧
  CheckKeys.findKeyOccurrences (osOf sample1) sampleFile (str "A") =
    ([CheckKeys.mkKeyOccurrence (str "1") 1; CheckKeys.mkKeyOccurrence (str "1") 3], None).
Proof. split; reflexivity. Qed.

(** Paths: cleaning, and the suggested name. *)
Example scenario_paths :
  Filepath.Clean (str "./a//b/../c.strings") = str "a/c.strings" ∧
  Filepath.Clean (str "/../a/./b/..") = str "/a" ∧
  createUniqueFilename (str "Localizable.strings") = str "Localizable-cleaned.strings" ∧
  createUniqueFilename (str "/x/y.tar.gz") = str "/x/y.tar-cleaned.gz".
Proof. repeat split; reflexivity. Qed.

(** White space around a line and between the parts of an entry. *)
Example scenario_white_space :
  classify (str "   // note") = Passthrough ∧
  classify (Strings.b 194 :: Strings.b 160 :: str " ") = Passthrough ∧
  classify (str "  " ++ q ++ str "k" ++ q ++ str "=" ++ q ++ str "v w" ++ q ++ str "  ;  // x")
    = Entry (str "k") (str "v w") ∧
  classify (str "key = value;") = Unrecognized.
Proof. repeat split; reflexivity. Qed.

(** ** The key checker and the occurrence index *)

Lemma fold_findLine keyToFind lines : ∀ occurrences z,
  fst (fold_left (CheckKeys.findLine keyToFind) lines (occurrences, z)) =
  occurrences ++ map toOccurrence (filter (λ e, Key e = keyToFind) (recordsFrom z lines)).
Proof.
  induction lines as [|line lines IH]; intros occ z.
  - simpl. by rewrite app_nil_r.
  - change (fold_left (CheckKeys.findLine keyToFind) (line :: lines) (occ, z))
      with (fold_left (CheckKeys.findLine keyToFind) lines
              (CheckKeys.findLine keyToFind (occ, z) line)).
    rewrite findLine_classify. simpl. unfold recordOf.
    destruct (classify line) as [|key value|]; simpl; try apply IH.
    rewrite filter_cons. simpl.
    destruct (Filepath.bytes_eqb key keyToFind) eqn:Hk.
    + apply bytes_eqb_eq in Hk. rewrite decide_True by done.
      rewrite IH. simpl. by rewrite <- app_assoc.
    + apply bool_decide_eq_false in Hk. rewrite decide_False by done. apply IH.
Qed.

Lemma keys_recordsFrom lines : ∀ z, map Key (recordsFrom z lines) = keysOf lines.
Proof.
  induction lines as [|line lines IH]; intros z; simpl; [done|].
  rewrite map_app, IH. unfold recordOf, keysOf, entryKey. simpl.
  by destruct (classify line).
Qed.

Lemma filter_key_nil (es : list KeyValue) key :
  filter (λ e, Key e = key) es = [] ↔ key ∉ map Key es.
Proof.
  induction es as [|e es IH]; simpl.
  - split; [|done]. intros _ H. by apply elem_of_nil in H.
  - rewrite filter_cons, not_elem_of_cons. destruct (decide (Key e = key)) as [Heq|Hne].
    + split; [done|]. intros [Hk _]. by destruct Hk.
    + rewrite IH. split; [by split | by intros [_ ?]].
Qed.

Lemma occurrenceSeq_nil lines key :
  index [] (keyEntries (scanLines lines)) key = [] ↔ key ∉ keysOf lines.
Proof.
  rewrite (agrees_index _ _ _ (agrees_scanLines lines)), filter_key_nil.
  by rewrite keys_recordsFrom.
Qed.

Lemma findKeyOccurrences_scanned os filename keyToFind lines :
  Os.Open os filename = inr (Os.Scanner lines None) →
  CheckKeys.findKeyOccurrences os filename keyToFind =
    (map toOccurrence (index [] (keyEntries (scanLines lines)) keyToFind), None).
Proof.
  intros Hopen. unfold CheckKeys.findKeyOccurrences. rewrite Hopen. simpl.
  pose proof (fold_findLine keyToFind lines [] 0) as Hfold.
  destruct (fold_left _ lines ([], 0)) as [occ z]. simpl in Hfold.
  rewrite Hfold. by rewrite (agrees_index _ _ _ (agrees_scanLines lines)).
Qed.

(** X1. The key checker finds, for any key, the occurrences the analyzer
    holds for it in its occurrence index, with the same values and line
    numbers in the same order; it finds none exactly when no entry line of
    the file has the key. *)
Theorem findKeyOccurrences_is_occurrence_index os filename keyToFind lines :
  Os.Open os filename = inr (Os.Scanner lines None) →
  CheckKeys.findKeyOccurrences os filename keyToFind =
    (map toOccurrence (index [] (keyEntries (scanLines lines)) keyToFind), None) ∧
  (fst (CheckKeys.findKeyOccurrences os filename keyToFind) = [] ↔
   keyToFind ∉ keysOf lines).
Proof.
  intros Hopen.
  pose proof (findKeyOccurrences_scanned os filename keyToFind lines Hopen) as Hf.
  split; [done|]. rewrite Hf. simpl. rewrite <- occurrenceSeq_nil.
  destruct (index [] (keyEntries (scanLines lines)) keyToFind); simpl; split; done.
Qed.

(** ** The key counter *)

Lemma wrap_add_l a b : GoInt.wrap (GoInt.wrap a + b) = GoInt.wrap (a + b).
Proof.
  unfold GoInt.wrap. f_equal.
  replace ((a + 2 ^ 63) mod 2 ^ 64 - 2 ^ 63 + b + 2 ^ 63)
    with ((a + 2 ^ 63) mod 2 ^ 64 + b) by ring.
  rewrite Zplus_mod_idemp_l. f_equal. ring.
Qed.

Lemma wrap_add_r a b : GoInt.wrap (a + GoInt.wrap b) = GoInt.wrap (a + b).
Proof. rewrite Z.add_comm, wrap_add_l. f_equal. lia. Qed.

Lemma wrap_add_mid a b c : GoInt.wrap (a + GoInt.wrap b + c) = GoInt.wrap (a + b + c).
Proof.
  replace (a + GoInt.wrap b + c) with (a + c + GoInt.wrap b) by ring.
  rewrite wrap_add_r. f_equal. ring.
Qed.

Lemma wrap_nat (n : nat) : Z.of_nat n ≤ GoInt.max_int → GoInt.wrap (Z.of_nat n) = Z.of_nat n.
Proof. intros H. apply wrap_small. unfold GoInt.min_int. lia. Qed.

Lemma index_true_lookup (w : gmap bytes bool) key :
  index false w key = true ↔ w !! key = Some true.
Proof.
  unfold index. destruct (w !! key) as [[]|]; simpl; split; congruence.
Qed.

Lemma keysOf_cons line lines :
  keysOf (line :: lines) =
  match entryKey line with
  | Some key => key :: keysOf lines
  | None => keysOf lines
  end.
Proof. unfold keysOf. simpl. by destruct (entryKey line). Qed.

Lemma fold_countLine lines : ∀ uniqueKeys t,
  fold_left CountKeys.countLine lines (uniqueKeys, GoInt.wrap t) =
  (writtenBy uniqueKeys lines, GoInt.wrap (t + Z.of_nat (length (keysOf lines)))).
Proof.
  induction lines as [|line lines IH]; intros u t.
  - simpl. do 2 f_equal. lia.
  - change (fold_left CountKeys.countLine (line :: lines) (u, GoInt.wrap t))
      with (fold_left CountKeys.countLine lines
              (CountKeys.countLine (u, GoInt.wrap t) line)).
    rewrite countLine_classify, keysOf_cons.
    change (writtenBy u (line :: lines)) with (writtenBy (emit u line).1 lines).
    unfold emit, entryKey.
    destruct (classify line) as [|key value|]; simpl.
    + rewrite IH. do 2 f_equal.
    + unfold GoInt.add. rewrite wrap_add_l, IH.
      destruct (index false u key) eqn:Hi; simpl.
      * rewrite insert_id by (by apply index_true_lookup).
        do 2 f_equal. lia.
      * do 2 f_equal. lia.
    + rewrite IH. do 2 f_equal.
Qed.

Lemma allTrue_insert (w : gmap bytes bool) key : allTrue w → allTrue (<[key := true]> w).
Proof.
  intros Hw k v. destruct (decide (key = k)) as [->|Hne].
  - rewrite lookup_insert_eq. congruence.
  - rewrite lookup_insert_ne by done. apply Hw.
Qed.

Lemma allTrue_index (w : gmap bytes bool) key :
  allTrue w → index false w key = false → w !! key = None.
Proof.
  intros Hw. unfold index. destruct (w !! key) as [v|] eqn:Hk; [|done].
  rewrite (Hw _ _ Hk). done.
Qed.

(** The keys written grow by the keys of the printed entry lines. *)
Lemma size_writtenBy lines : ∀ w,
  allTrue w →
  size (writtenBy w lines) = (size w + length (keysOf (keep w lines)))%nat.
Proof.
  induction lines as [|line lines IH]; intros w Hw; simpl; [lia|].
  unfold keysOf in *. rewrite omap_app. rewrite length_app. unfold emit.
  destruct (entryKey line) as [key|] eqn:Hk; simpl.
  - destruct (index false w key) eqn:Hi; simpl.
    + by rewrite IH.
    + rewrite Hk. simpl. rewrite IH by (by apply allTrue_insert).
      rewrite map_size_insert_None by (by apply allTrue_index). lia.
  - rewrite Hk. simpl. by rewrite IH.
Qed.

Lemma allTrue_empty : allTrue ∅.
Proof. intros k v. by rewrite lookup_empty. Qed.

Lemma allTrue_writtenBy lines : ∀ w, allTrue w → allTrue (writtenBy w lines).
Proof.
  induction lines as [|line lines IH]; intros w Hw; simpl; [done|].
  apply IH. unfold emit. destruct (entryKey line) as [key|]; simpl; [|done].
  destruct (index false w key); simpl; [done | by apply allTrue_insert].
Qed.

(** The first-occurrence map and the written keys have the keys of the
    entry lines, each once. *)
Lemma size_uniqueEntries lines :
  size (uniqueEntries (scanLines lines)) = length (keysOf (cleanLines lines)).
Proof.
  rewrite cleanLines_keep.
  pose proof (size_writtenBy lines ∅ allTrue_empty) as Hsize.
  rewrite map_size_empty in Hsize. simpl in Hsize. rewrite <- Hsize.
  rewrite <- !size_dom. f_equal. apply set_eq. intros key.
  rewrite !elem_of_dom.
  destruct (agrees_scanLines lines key) as (_ & _ & Huniq). simpl in Huniq.
  rewrite Huniq.
  assert (is_Some (writtenBy ∅ lines !! key) ↔ key ∈ keysOf lines) as ->.
  { split.
    - intros [v Hv].
      pose proof (allTrue_writtenBy lines ∅ allTrue_empty _ _ Hv) as ->.
      apply index_true_lookup, writtenBy_spec in Hv as [Hv|Hv]; [|done].
      by rewrite index_empty in Hv.
    - intros Hin. exists true. apply index_true_lookup, writtenBy_spec. by right. }
  rewrite <- (keys_recordsFrom lines 0).
  destruct (filter _ _) as [|e es] eqn:Hf; simpl.
  - apply filter_key_nil in Hf. split; [by intros [? ?] | done].
  - split; [|by eauto]. intros _.
    destruct (decide (key ∈ map Key (recordsFrom 0 lines))) as [|Hn]; [done|].
    apply filter_key_nil in Hn. congruence.
Qed.

Lemma length_keys_passthrough lines :
  length lines = (length (keysOf lines) + length (filter passthrough lines))%nat.
Proof.
  induction lines as [|line lines IH]; [done|].
  rewrite keysOf_cons. simpl length at 1. rewrite IH.
  destruct (entryKey line) as [key|] eqn:Hk.
  - rewrite filter_cons_False by (unfold passthrough; congruence). simpl. lia.
  - rewrite filter_cons_True by done. simpl. lia.
Qed.

Lemma cleanLines_length lines : (length (cleanLines lines) ≤ length lines)%nat.
Proof. rewrite cleanLines_keep. apply sublist_length, keep_sublist. Qed.

(** The lines left out are entry lines: as many as there are entry lines
    beyond the first of each key. *)
Lemma dropped_keys lines :
  (length (keysOf (cleanLines lines)) + dropped lines)%nat = length (keysOf lines).
Proof.
  unfold dropped. pose proof (cleanLines_length lines) as Hle.
  pose proof (length_keys_passthrough lines) as H1.
  pose proof (length_keys_passthrough (cleanLines lines)) as H2.
  assert (filter passthrough (cleanLines lines) = filter passthrough lines) as Hf.
  { rewrite cleanLines_keep. apply keep_passthrough. }
  rewrite Hf in H2. lia.
Qed.

(** The counts of the key counter: the keys written by the cleaning, and
    the entry lines counted in a Go int. *)
Lemma countKeys_scanned os filename lines :
  Os.Open os filename = inr (Os.Scanner lines None) →
  CountKeys.countKeys os filename =
    (Z.of_nat (length (keysOf (cleanLines lines))),
     GoInt.wrap (Z.of_nat (length (keysOf lines))), None).
Proof.
  intros Hopen. unfold CountKeys.countKeys. rewrite Hopen. simpl.
  pose proof (fold_countLine lines ∅ 0) as Hfold.
  change (GoInt.wrap 0) with 0 in Hfold. rewrite Hfold, Z.add_0_l. simpl.
  rewrite cleanLines_keep, (size_writtenBy lines ∅ allTrue_empty).
  by rewrite map_size_empty.
Qed.

(** The count of the entry lines does not wrap when the line counter does
    not. *)
Lemma entries_not_wrapped lines :
  GoInt.len lines ≤ GoInt.max_int →
  GoInt.wrap (Z.of_nat (length (keysOf lines))) = Z.of_nat (length (keysOf lines)).
Proof.
  intros Hlen. pose proof (length_keys_passthrough lines) as Hl.
  unfold GoInt.len in Hlen. apply wrap_nat. lia.
Qed.

(** X2. The key counter returns the number of distinct keys, which is the
    size of the analyzer's first-occurrence map and the number of entry
    lines of the cleaned output, and the number of entry lines of the file;
    their difference is the number of lines that cleaning leaves out. *)
Theorem countKeys_counts os filename lines :
  Os.Open os filename = inr (Os.Scanner lines None) →
  ∃ keyCount totalEntries,
    CountKeys.countKeys os filename = (keyCount, totalEntries, None) ∧
    keyCount = Z.of_nat (size (uniqueEntries (scanLines lines))) ∧
    keyCount = Z.of_nat (length (keysOf (cleanLines lines))) ∧
    (GoInt.len lines ≤ GoInt.max_int →
       totalEntries = Z.of_nat (length (keysOf lines)) ∧
       keyCount ≤ totalEntries ∧
       totalEntries - keyCount = Z.of_nat (dropped lines)).
Proof.
  intros Hopen. rewrite (countKeys_scanned os filename lines Hopen).
  eexists _, _. split; [done|]. split_and!.
  - by rewrite size_uniqueEntries.
  - done.
  - intros Hlen. rewrite (entries_not_wrapped lines Hlen).
    pose proof (dropped_keys lines) as Hd. lia.
Qed.

(** ** The count of duplicate entries *)

Lemma countDuplicates_comm (j1 j2 : bytes) (z1 z2 : list KeyValue) y :
  GoInt.add (GoInt.add y (GoInt.sub (GoInt.len z2) 1)) (GoInt.sub (GoInt.len z1) 1) =
  GoInt.add (GoInt.add y (GoInt.sub (GoInt.len z1) 1)) (GoInt.sub (GoInt.len z2) 1).
Proof.
  unfold GoInt.add, GoInt.sub. rewrite !wrap_add_l, !wrap_add_r, !wrap_add_mid.
  f_equal. ring.
Qed.

Lemma countDuplicates_insert_fresh (m : gmap bytes (list KeyValue)) key group :
  m !! key = None →
  countDuplicates (<[key := group]> m) =
  GoInt.wrap (countDuplicates m + (GoInt.len group - 1)).
Proof.
  intros Hk. unfold countDuplicates. rewrite map_fold_insert_L; [|auto using countDuplicates_comm|done].
  unfold GoInt.add, GoInt.sub. by rewrite wrap_add_r.
Qed.

Lemma countDuplicates_insert_existing (m : gmap bytes (list KeyValue)) key group group' :
  m !! key = Some group →
  countDuplicates (<[key := group']> m) =
  GoInt.wrap (countDuplicates m + (GoInt.len group' - GoInt.len group)).
Proof.
  intros Hk. rewrite <- (insert_delete_eq m).
  rewrite countDuplicates_insert_fresh by apply lookup_delete_eq.
  assert (countDuplicates m =
          GoInt.wrap (countDuplicates (delete key m) + (GoInt.len group - 1))) as ->.
  { unfold countDuplicates at 1.
    rewrite (map_fold_delete_L _ _ key group m); [|auto using countDuplicates_comm|done].
    unfold GoInt.add, GoInt.sub. by rewrite wrap_add_r. }
  rewrite wrap_add_l. f_equal. lia.
Qed.

(** The duplicate keys after a line, for a state that holds the entries
    [es]. *)
Lemma duplicateKeys_scanLine st es line :
  agrees st es →
  duplicateKeys (scanLine st line) =
  match classify line with
  | Entry key value =>
    let occ := filter (λ e, Key e = key) es in
    if decide (occ = []) then duplicateKeys st
    else <[key := occ ++ [mkKeyValue key value (GoInt.add (lineNum st) 1)]]>
           (duplicateKeys st)
  | _ => duplicateKeys st
  end.
Proof.
  intros Hag. rewrite scanLine_classify. simpl.
  destruct (classify line) as [|key value|]; simpl; try done.
  rewrite index_insert, (agrees_index _ _ _ Hag).
  destruct (filter _ es) as [|o occ]; simpl; [done|].
  assert ((1 <? GoInt.len (o :: occ ++ [mkKeyValue key value (GoInt.add (lineNum st) 1)]))
          = true) as ->; [|done].
  apply Z.ltb_lt. unfold GoInt.len. simpl. rewrite length_app. simpl. lia.
Qed.

Lemma keep_length lines w : (length (keep w lines) ≤ length lines)%nat.
Proof. apply sublist_length, keep_sublist. Qed.

(** Scanning and cleaning side by side: the count of duplicates grows by
    one for each line the cleaning leaves out. *)
Lemma countDuplicates_scanFrom lines : ∀ st es w n,
  agrees st es →
  (∀ k, index false w k = true ↔ filter (λ e, Key e = k) es ≠ []) →
  countDuplicates (duplicateKeys st) = GoInt.wrap (Z.of_nat n) →
  countDuplicates (duplicateKeys (scanFrom st lines)) =
  GoInt.wrap (Z.of_nat (n + (length lines - length (keep w lines)))).
Proof.
  induction lines as [|line lines IH]; intros st es w n Hag Hw Hn.
  - simpl. by rewrite Nat.add_0_r.
  - change (scanFrom st (line :: lines)) with (scanFrom (scanLine st line) lines).
    pose proof (agrees_step st es line Hag) as Hag'.
    pose proof (duplicateKeys_scanLine st es line Hag) as Hdup.
    change (keep w (line :: lines))
      with (snd (emit w line) ++ keep (fst (emit w line)) lines).
    pose proof (keep_length lines (fst (emit w line))) as Hle.
    rewrite length_app. simpl length.
    unfold recordOf in Hag'. unfold emit, entryKey in *.
    destruct (classify line) as [|key value|]; simpl in *.
    + rewrite app_nil_r in Hag'.
      rewrite (IH _ es w n Hag' Hw) by (by rewrite Hdup). f_equal; lia.
    + set (entry := mkKeyValue key value (GoInt.add (lineNum st) 1)) in *.
      destruct (index false w key) eqn:Hi; simpl in *.
      * (* the key was seen: the line is left out *)
        apply Hw in Hi. rewrite decide_False in Hdup by done.
        assert (countDuplicates (duplicateKeys (scanLine st line)) =
                GoInt.wrap (Z.of_nat (S n))) as Hn'.
        { rewrite Hdup. destruct (Hag key) as (_ & Hd & _). simpl in Hd.
          destruct (decide (2 ≤ length (filter (λ e, Key e = key) es))%nat).
          - rewrite (countDuplicates_insert_existing _ _ _ _ Hd), Hn, wrap_add_l.
            f_equal. unfold GoInt.len. rewrite length_app. simpl. lia.
          - rewrite (countDuplicates_insert_fresh _ _ _ Hd), Hn, wrap_add_l.
            f_equal. unfold GoInt.len. rewrite length_app. simpl.
            destruct (filter (λ e, Key e = key) es) as [|? [|? ?]]; simpl in *;
              [done | lia | lia]. }
        assert (∀ k, index false w k = true ↔
                     filter (λ e, Key e = k) (es ++ [entry]) ≠ []) as Hw'.
        { intros k. rewrite Hw, filter_app, filter_cons, filter_nil. simpl.
          destruct (decide (key = k)) as [<-|Hne].
          - split; [|done]. intros _ Hnil. by apply app_eq_nil in Hnil as [? ?].
          - by rewrite app_nil_r. }
        rewrite (IH _ _ w (S n) Hag' Hw' Hn'). f_equal; lia.
      * (* the first sighting of the key: the line is printed *)
        assert (filter (λ e, Key e = key) es = []) as Hnil.
        { destruct (filter (λ e, Key e = key) es) eqn:Hf; [done|].
          assert (index false w key = true) by (apply Hw; by rewrite Hf).
          congruence. }
        rewrite Hnil in Hdup. simpl in Hdup.
        assert (∀ k, index false (<[key := true]> w) k = true ↔
                     filter (λ e, Key e = k) (es ++ [entry]) ≠ []) as Hw'.
        { intros k. rewrite index_true_insert, Hw, filter_app, filter_cons, filter_nil.
          simpl. destruct (decide (key = k)) as [<-|Hne].
          - split; [|by left]. intros _ H. by apply app_eq_nil in H as [? ?].
          - rewrite app_nil_r. split; [|by right]. intros [?|?]; [congruence | done]. }
        rewrite (IH _ _ (<[key := true]> w) n Hag' Hw') by (by rewrite Hdup).
        f_equal; lia.
    + rewrite app_nil_r in Hag'.
      rewrite (IH _ es w n Hag' Hw) by (by rewrite Hdup). f_equal; lia.
Qed.

Lemma countDuplicates_scanLines lines :
  countDuplicates (duplicateKeys (scanLines lines)) =
  GoInt.wrap (Z.of_nat (dropped lines)).
Proof.
  unfold dropped. rewrite cleanLines_keep.
  apply (countDuplicates_scanFrom lines scan0 [] ∅ 0%nat).
  - apply agrees_scan0.
  - intros k. rewrite index_empty. simpl. split; done.
  - done.
Qed.

Lemma cleanRequest_done os fl dup first lines evs :
  cleanFile fl ≠ [] →
  Filepath.Clean (cleanFile fl) ≠ Filepath.Clean (inputFile fl) →
  createCleanFile os (cleanFile fl) first lines = (evs, None) →
  cleanRequest os fl dup first lines =
    (evs ++ [EvStdout (MsgCreatedCleaned (cleanFile fl));
             EvStdout (MsgRemoved (countDuplicates dup))]
         ++ summary fl dup,
     Returned).
Proof.
  intros Hne Hdiff Hc. unfold cleanRequest, nonEmpty, Filepath.bytes_eqb.
  rewrite (bool_decide_eq_false_2 (cleanFile fl = [])) by done.
  rewrite (bool_decide_eq_false_2 (Filepath.Clean (cleanFile fl) = _)) by done.
  simpl. by rewrite Hc.
Qed.

(** X3. The number the analyzer prints as removed after writing the clean
    file, the count of duplicates, is the number of lines of the input that
    the clean file does not have. *)
Theorem removed_count_is_lines_left_out os fl lines evs :
  (if nonEmpty (outputFile fl) then Os.Create os (outputFile fl) else None) = None →
  Os.Open os (inputFile fl) = inr (Os.Scanner lines None) →
  GoInt.len lines ≤ GoInt.max_int →
  cleanFile fl ≠ [] →
  Filepath.Clean (cleanFile fl) ≠ Filepath.Clean (inputFile fl) →
  createCleanFile os (cleanFile fl) (Some (uniqueEntries (scanLines lines))) lines
    = (evs, None) →
  let removed := Z.of_nat (length lines) - Z.of_nat (length (printedLines evs)) in
  countDuplicates (duplicateKeys (scanLines lines)) = removed ∧
  0 ≤ removed ∧
  EvStdout (MsgRemoved removed) ∈ fst (main os fl) ∧
  snd (main os fl) = Returned.
Proof.
  intros Hcreate Hopen Hlen Hne Hdiff Hc. simpl.
  pose proof (createCleanFile_prints _ _ _ _ _ Hc) as Hprinted.
  pose proof (cleanLines_length lines) as Hle.
  assert (countDuplicates (duplicateKeys (scanLines lines)) =
          Z.of_nat (length lines) - Z.of_nat (length (printedLines evs))) as Hcount.
  { rewrite countDuplicates_scanLines, Hprinted. unfold dropped.
    unfold GoInt.len in Hlen. rewrite wrap_nat by lia. lia. }
  split; [done|]. split; [rewrite Hprinted; lia|].
  rewrite (main_scanned os fl lines Hcreate Hopen). simpl.
  rewrite (cleanRequest_done _ _ _ _ _ _ Hne Hdiff Hc). simpl.
  split; [|done]. rewrite <- Hcount.
  apply elem_of_app. right. apply elem_of_app. right.
  apply elem_of_app. right. apply elem_of_cons. right.
  apply elem_of_cons. by left.
Qed.

(** ** Files without duplicate keys *)

Lemma sublist_same_length {A} (l1 l2 : list A) :
  l1 `sublist_of` l2 → length l1 = length l2 → l1 = l2.
Proof.
  induction 1 as [|x l1 l2 Hs IH|x l1 l2 Hs IH]; simpl; intros Hlen.
  - done.
  - f_equal. apply IH. lia.
  - apply sublist_length in Hs. lia.
Qed.

Lemma NoDup_keys_cleanLines lines : NoDup (keysOf lines) ↔ cleanLines lines = lines.
Proof.
  split.
  - intros Hnd. rewrite cleanLines_keep. apply keep_fixed; [done|].
    intros k _. apply index_empty.
  - intros <-. rewrite cleanLines_keep. apply keysOf_keep.
Qed.

Lemma dropped_zero lines : dropped lines = 0%nat ↔ NoDup (keysOf lines).
Proof.
  rewrite NoDup_keys_cleanLines. unfold dropped.
  pose proof (cleanLines_length lines) as Hle. split.
  - intros Hz. apply sublist_same_length; [|lia].
    rewrite cleanLines_keep. apply keep_sublist.
  - intros ->. lia.
Qed.

Lemma NoDup_keys_count (es : list KeyValue) :
  NoDup (map Key es) ↔ ∀ k, (length (filter (λ e, Key e = k) es) ≤ 1)%nat.
Proof.
  induction es as [|e es IH]; simpl.
  - split; [intros _ k; simpl; lia | constructor].
  - rewrite NoDup_cons, IH. split.
    + intros [Hnotin Hall] k. rewrite filter_cons.
      destruct (decide (Key e = k)) as [<-|Hne]; [|apply Hall].
      apply filter_key_nil in Hnotin. rewrite Hnotin. simpl. lia.
    + intros Hall. split.
      * apply filter_key_nil. specialize (Hall (Key e)).
        rewrite filter_cons, decide_True in Hall by done. simpl in Hall.
        destruct (filter _ es); [done | simpl in Hall; lia].
      * intros k. specialize (Hall k). rewrite filter_cons in Hall.
        destruct (decide (Key e = k)); simpl in Hall; lia.
Qed.

Lemma duplicateKeys_empty lines :
  duplicateKeys (scanLines lines) = ∅ ↔ NoDup (keysOf lines).
Proof.
  rewrite <- (keys_recordsFrom lines 0), NoDup_keys_count. split.
  - intros Hempty k.
    destruct (agrees_scanLines lines k) as (_ & Hdup & _). simpl in Hdup.
    rewrite Hempty, lookup_empty in Hdup.
    destruct (decide (2 ≤ length (filter (λ e, Key e = k) (recordsFrom 0 lines)))%nat);
      [done | lia].
  - intros Hall. apply map_eq. intros k. rewrite lookup_empty.
    destruct (agrees_scanLines lines k) as (_ & Hdup & _). simpl in Hdup.
    rewrite Hdup. specialize (Hall k). rewrite decide_False; [done | lia].
Qed.

(** X4. The key counter prints the number of entry lines and the number of
    distinct keys; it reports duplicates exactly when the analyzer has a
    duplicate group, that is when some key has two entry lines, and the
    count it prints is the number of lines that cleaning leaves out. *)
Theorem key_counter_agrees_with_analyzer notExist os inputFile lines :
  notExist inputFile = false →
  Os.Open os inputFile = inr (Os.Scanner lines None) →
  GoInt.len lines ≤ GoInt.max_int →
  let totalEntries := Z.of_nat (length (keysOf lines)) in
  let keyCount := Z.of_nat (length (keysOf (cleanLines lines))) in
  ∃ verdict,
    CountKeysMain.main notExist os inputFile =
      ([CountKeysMain.File inputFile; CountKeysMain.TotalEntries totalEntries;
        CountKeysMain.UniqueKeys keyCount; verdict], Returned) ∧
    (verdict = CountKeysMain.NoDuplicates ↔ duplicateKeys (scanLines lines) = ∅) ∧
    (verdict = CountKeysMain.NoDuplicates ↔ NoDup (keysOf lines)) ∧
    (verdict ≠ CountKeysMain.NoDuplicates →
     verdict = CountKeysMain.DuplicateEntries (Z.of_nat (dropped lines)) totalEntries ∧
     Z.of_nat (dropped lines) = countDuplicates (duplicateKeys (scanLines lines)) ∧
     0 < Z.of_nat (dropped lines)).
Proof.
  intros Hex Hopen Hlen. simpl.
  pose proof (dropped_keys lines) as Hkeys.
  unfold CountKeysMain.main.
  rewrite Hex, (countKeys_scanned os inputFile lines Hopen),
    (entries_not_wrapped lines Hlen).
  pose proof (dropped_zero lines) as Hzero.
  pose proof (countDuplicates_scanLines lines) as Hcd.
  assert (Z.of_nat (dropped lines) ≤ GoInt.max_int) as Hsmall.
  { unfold dropped, GoInt.len in *. lia. }
  rewrite wrap_nat in Hcd by done.
  destruct (Z.ltb_spec (Z.of_nat (length (keysOf (cleanLines lines))))
                       (Z.of_nat (length (keysOf lines)))) as [Hlt|Hge].
  - eexists. split; [done|].
    assert (dropped lines ≠ 0%nat) as Hnz by lia.
    split_and!.
    + split; [done|]. intros He. apply duplicateKeys_empty, Hzero in He. done.
    + split; [done|]. intros He. apply Hzero in He. done.
    + intros _. split_and!; [|done|lia].
      f_equal. unfold GoInt.sub.
      replace (Z.of_nat (length (keysOf lines))
               - Z.of_nat (length (keysOf (cleanLines lines))))
        with (Z.of_nat (dropped lines)) by lia.
      by apply wrap_nat.
  - eexists. split; [done|].
    assert (dropped lines = 0%nat) as Hz by lia.
    split_and!; [| |done].
    + split; [|done]. intros _. by apply duplicateKeys_empty, Hzero.
    + split; [|done]. intros _. by apply Hzero.
Qed.

(** ** The key checker's report *)

Lemma checker_allSameLoop firstValue rest :
  CheckKeysMain.allSameLoop firstValue (map toOccurrence rest) =
  allSameLoop firstValue rest.
Proof.
  induction rest as [|e rest IH]; simpl; [done|].
  by destruct (Filepath.bytes_eqb (Value e) firstValue).
Qed.

Lemma checker_report keyToCheck inputFile occ :
  CheckKeysMain.report keyToCheck inputFile (map toOccurrence occ) =
  match occ with
  | [] => ([CheckKeysMain.NotFound keyToCheck inputFile], Returned)
  | [e] =>
    ([CheckKeysMain.Found keyToCheck inputFile 1;
      CheckKeysMain.Occurrence (LineNum e) (Value e)], Returned)
  | first :: rest =>
    (CheckKeysMain.Found keyToCheck inputFile (GoInt.len occ)
       :: map (λ e, CheckKeysMain.Occurrence (LineNum e) (Value e)) occ
       ++ [if allSameLoop (Value first) rest
           then CheckKeysMain.AllSame else CheckKeysMain.Conflict],
     Returned)
  end.
Proof.
  unfold CheckKeysMain.report. destruct occ as [|first [|second rest]]; try done.
  unfold GoInt.len. rewrite length_map.
  assert ((Z.of_nat (length (first :: second :: rest)) =? 0) = false) as ->
    by (apply Z.eqb_neq; simpl; lia).
  assert ((1 <? Z.of_nat (length (first :: second :: rest))) = true) as ->
    by (apply Z.ltb_lt; simpl; lia).
  change (map toOccurrence (first :: second :: rest))
    with (toOccurrence first :: map toOccurrence (second :: rest)).
  cbv iota beta. rewrite checker_allSameLoop.
  change (toOccurrence first :: map toOccurrence (second :: rest))
    with (map toOccurrence (first :: second :: rest)).
  rewrite map_map. done.
Qed.

(** X5. The key checker, given a key, reports what the analyzer holds for
    that key: not found exactly when the file has no entry line with the
    key; one line for each occurrence of the occurrence index; and, for a
    key in the duplicate groups only, the verdict of the analyzer's report:
    all the same, or conflicting. *)
Theorem key_checker_agrees_with_analyzer notExist os inputFile key args lines :
  notExist inputFile = false →
  Os.Open os inputFile = inr (Os.Scanner lines None) →
  ∃ msgs,
    CheckKeysMain.main notExist os inputFile (key :: args) = (msgs, Returned) ∧
    (CheckKeysMain.NotFound key inputFile ∈ msgs ↔ key ∉ keysOf lines) ∧
    (∀ n v, CheckKeysMain.Occurrence n v ∈ msgs ↔
       ∃ e, e ∈ index [] (keyEntries (scanLines lines)) key ∧
            LineNum e = n ∧ Value e = v) ∧
    (CheckKeysMain.AllSame ∈ msgs ↔
       ∃ group, duplicateKeys (scanLines lines) !! key = Some group ∧
                allSame group = Some true) ∧
    (CheckKeysMain.Conflict ∈ msgs ↔
       ∃ group, duplicateKeys (scanLines lines) !! key = Some group ∧
                allSame group = Some false).
Proof.
  intros Hex Hopen. unfold CheckKeysMain.main.
  rewrite Hex, (findKeyOccurrences_scanned _ _ _ _ Hopen), checker_report.
  pose proof (occurrenceSeq_nil lines key) as Hnil.
  destruct (agrees_scanLines lines key) as (_ & Hdup & _). simpl in Hdup.
  rewrite <- (agrees_index _ _ _ (agrees_scanLines lines)) in Hdup.
  destruct (index [] (keyEntries (scanLines lines)) key)
    as [|first [|second rest]] eqn:Hocc.
  - eexists. split; [done|]. simpl in Hdup. split_and!.
    + split; [intros _; by apply Hnil | intros _; apply elem_of_cons; by left].
    + intros n v. split.
      * intros H. apply list_elem_of_singleton in H. done.
      * intros (e & He & _). by apply elem_of_nil in He.
    + split.
      * intros H. apply list_elem_of_singleton in H. done.
      * intros (g & Hg & _). congruence.
    + split.
      * intros H. apply list_elem_of_singleton in H. done.
      * intros (g & Hg & _). congruence.
  - eexists. split; [done|]. simpl in Hdup.
    assert (key ∈ keysOf lines) as Hin.
    { destruct (decide (key ∈ keysOf lines)) as [|Hn]; [done|].
      apply Hnil in Hn. done. }
    split_and!.
    + split; [|done]. intros H.
      apply elem_of_cons in H as [?|H]; [done|].
      by apply list_elem_of_singleton in H.
    + intros n v. split.
      * intros H. apply elem_of_cons in H as [?|H]; [done|].
        apply list_elem_of_singleton in H. injection H as -> ->.
        exists first. split; [apply elem_of_cons; by left | done].
      * intros (e & He & <- & <-). apply list_elem_of_singleton in He as ->.
        apply elem_of_cons. right. apply elem_of_cons. by left.
    + split.
      * intros H. apply elem_of_cons in H as [?|H]; [done|].
        by apply list_elem_of_singleton in H.
      * intros (g & Hg & _). congruence.
    + split.
      * intros H. apply elem_of_cons in H as [?|H]; [done|].
        by apply list_elem_of_singleton in H.
      * intros (g & Hg & _). congruence.
  - eexists. split; [done|].
    rewrite decide_True in Hdup by (simpl; lia).
    remember (allSameLoop (Value first) (second :: rest)) as same eqn:Hsame.
    set (occ := first :: second :: rest) in *.
    assert (allSame occ = Some same) as Hall by (by rewrite Hsame).
    assert (key ∈ keysOf lines) as Hin.
    { destruct (decide (key ∈ keysOf lines)) as [|Hn]; [done|].
      apply Hnil in Hn. done. }
    assert (∀ m, m ∈ CheckKeysMain.Found key inputFile (GoInt.len occ)
                   :: map (λ e, CheckKeysMain.Occurrence (LineNum e) (Value e)) occ
                   ++ [if same then CheckKeysMain.AllSame else CheckKeysMain.Conflict] ↔
                 m = CheckKeysMain.Found key inputFile (GoInt.len occ) ∨
                 (∃ e, e ∈ occ ∧ m = CheckKeysMain.Occurrence (LineNum e) (Value e)) ∨
                 m = (if same then CheckKeysMain.AllSame else CheckKeysMain.Conflict))
      as Hmem.
    { intros m. rewrite elem_of_cons, elem_of_app, list_elem_of_fmap,
        list_elem_of_singleton.
      split; intros [?|[(e & ? & ?)|?]]; eauto 6. }
    split_and!.
    + rewrite Hmem. split; [|done].
      intros [?|[(e & _ & ?)|H]]; try done. by destruct same.
    + intros n v. rewrite Hmem. split.
      * intros [?|[(e & He & [= -> ->])|H]]; try done; [by exists e|].
        by destruct same.
      * intros (e & He & <- & <-). right. left. by exists e.
    + rewrite Hmem. split.
      * intros [?|[(e & _ & ?)|H]]; try done.
        exists occ. split; [done|]. rewrite Hall. by destruct same.
      * intros (g & Hg & Hs). rewrite Hdup in Hg. injection Hg as <-.
        rewrite Hall in Hs. injection Hs as ->. by right; right.
    + rewrite Hmem. split.
      * intros [?|[(e & _ & ?)|H]]; try done.
        exists occ. split; [done|]. rewrite Hall. by destruct same.
      * intros (g & Hg & Hs). rewrite Hdup in Hg. injection Hg as <-.
        rewrite Hall in Hs. injection Hs as ->. by right; right.
Qed.

(** ** The runs of the analyzer *)

Lemma summary_stdout fl dup ev : ev ∈ summary fl dup → ∃ m, ev = EvStdout m.
Proof.
  unfold summary.
  destruct (nonEmpty (outputFile fl) || verbose fl); [|by intros ?%elem_of_nil].
  destruct (0 <? Z.of_nat (size dup)).
  - intros H. apply elem_of_app in H as [H|H].
    { apply list_elem_of_singleton in H. eauto. }
    apply elem_of_app in H as [H|H].
    + destruct (nonEmpty (outputFile fl)); [|by apply elem_of_nil in H].
      apply list_elem_of_singleton in H. eauto.
    + destruct (Filepath.bytes_eqb (cleanFile fl) []); [|by apply elem_of_nil in H].
      apply list_elem_of_singleton in H. eauto.
  - destruct (verbose fl); [|by intros ?%elem_of_nil].
    intros H. apply list_elem_of_singleton in H. eauto.
Qed.

(** What [createCleanFile] does, by its result. *)
Lemma createCleanFile_cases os filename first rawLines :
  let dir := Filepath.Dir filename in
  let made := if bool_decide (dir ≠ [dot]) then [EvMkdirAll dir] else [] in
  (createCleanFile os filename first rawLines =
     (made ++ EvCreate filename :: map (EvPrintln filename) (cleanLines rawLines), None)) ∨
  (∃ err, createCleanFile os filename first rawLines =
            ([], Some (FailedToCreateDirectory err)) ∧
          dir ≠ [dot] ∧ Os.MkdirAll os dir = Some err) ∨
  (∃ err, createCleanFile os filename first rawLines =
            (made, Some (FailedToCreateCleanFile err)) ∧
          Os.Create os filename = Some err).
Proof.
  simpl. unfold createCleanFile, Filepath.bytes_eqb.
  rewrite (bool_decide_eq_false_2 (Filepath.Dir filename = [])) by apply Clean_nonempty.
  rewrite andb_true_r.
  destruct (decide (Filepath.Dir filename = [dot])) as [Hd|Hd].
  - rewrite (bool_decide_eq_true_2 _ Hd). rewrite bool_decide_eq_false_2 by tauto. simpl.
    destruct (Os.Create os filename) as [err|] eqn:Hc.
    + right. right. by exists err.
    + by left.
  - rewrite (bool_decide_eq_false_2 _ Hd). rewrite bool_decide_eq_true_2 by done. simpl.
    destruct (Os.MkdirAll os (Filepath.Dir filename)) as [err|] eqn:Hm.
    + right. left. by exists err.
    + destruct (Os.Create os filename) as [err|] eqn:Hc.
      * right. right. by exists err.
      * by left.
Qed.

Lemma createCleanFile_events os fl first rawLines ev :
  cleanAllowed fl →
  ev ∈ fst (createCleanFile os (cleanFile fl) first rawLines) → writesAsAsked fl ev.
Proof.
  intros Hallowed.
  assert (∀ ev', ev' ∈ (if bool_decide (Filepath.Dir (cleanFile fl) ≠ [dot])
                        then [EvMkdirAll (Filepath.Dir (cleanFile fl))] else []) →
                 writesAsAsked fl ev') as Hmade.
  { intros ev'. destruct (bool_decide _) eqn:Hd; [|by intros ?%elem_of_nil].
    apply bool_decide_eq_true in Hd.
    intros ->%list_elem_of_singleton. by simpl. }
  destruct (createCleanFile_cases os (cleanFile fl) first rawLines)
    as [->|[(err & -> & _)|(err & -> & _)]]; simpl.
  - intros H. apply elem_of_app in H as [H|H]; [by apply Hmade|].
    apply elem_of_cons in H as [->|H]; [simpl; by right|].
    apply list_elem_of_fmap in H as (line & -> & _). by simpl.
  - by intros ?%elem_of_nil.
  - apply Hmade.
Qed.

Lemma cleanRequest_cases os fl dup first lines :
  (cleanFile fl = [] ∧
   cleanRequest os fl dup first lines = (summary fl dup, Returned)) ∨
  (cleanFile fl ≠ [] ∧
   Filepath.Clean (cleanFile fl) = Filepath.Clean (inputFile fl) ∧
   cleanRequest os fl dup first lines =
     ([EvStdout MsgSameAsInput;
       EvStdout (MsgPleaseUse (createUniqueFilename (inputFile fl)))], Exited 1)) ∨
  (cleanAllowed fl ∧
   ∃ evs err, createCleanFile os (cleanFile fl) first lines = (evs, Some err) ∧
     cleanRequest os fl dup first lines =
       (evs ++ [EvStdout (MsgErrorCreatingClean err)], Exited 1)) ∨
  (cleanAllowed fl ∧
   ∃ evs, createCleanFile os (cleanFile fl) first lines = (evs, None) ∧
     cleanRequest os fl dup first lines =
       (evs ++ [EvStdout (MsgCreatedCleaned (cleanFile fl));
                EvStdout (MsgRemoved (countDuplicates dup))] ++ summary fl dup,
        Returned)).
Proof.
  unfold cleanRequest, nonEmpty, Filepath.bytes_eqb, cleanAllowed.
  destruct (decide (cleanFile fl = [])) as [He|He].
  { left. by rewrite (bool_decide_eq_true_2 _ He). }
  rewrite (bool_decide_eq_false_2 _ He). simpl.
  destruct (decide (Filepath.Clean (cleanFile fl) = Filepath.Clean (inputFile fl)))
    as [Hs|Hs].
  { right. left. by rewrite (bool_decide_eq_true_2 _ Hs). }
  rewrite (bool_decide_eq_false_2 _ Hs).
  destruct (createCleanFile os (cleanFile fl) first lines) as [evs [err|]] eqn:Hc.
  - right. right. left. split; [done|]. by exists evs, err.
  - right. right. right. split; [done|]. by exists evs.
Qed.

Lemma cleanRequest_events os fl dup first lines ev :
  ev ∈ fst (cleanRequest os fl dup first lines) → writesAsAsked fl ev.
Proof.
  destruct (cleanRequest_cases os fl dup first lines)
    as [[_ ->]|[(_ & _ & ->)|[(Ha & evs & err & Hc & ->)|(Ha & evs & Hc & ->)]]]; simpl.
  - intros H. by apply summary_stdout in H as [m ->].
  - intros H. apply elem_of_cons in H as [->|H]; [done|].
    by apply list_elem_of_singleton in H as ->.
  - intros H. apply elem_of_app in H as [H|H].
    + apply (createCleanFile_events os fl first lines); [done|]. by rewrite Hc.
    + by apply list_elem_of_singleton in H as ->.
  - intros H. apply elem_of_app in H as [H|H].
    + apply (createCleanFile_events os fl first lines); [done|]. by rewrite Hc.
    + apply elem_of_cons in H as [->|H]; [done|].
      apply elem_of_cons in H as [->|H]; [done|].
      by apply summary_stdout in H as [m ->].
Qed.

Lemma opened_writesAsAsked fl ev :
  ev ∈ (if nonEmpty (outputFile fl) then [EvCreate (outputFile fl)] else []) →
  writesAsAsked fl ev.
Proof.
  unfold nonEmpty. destruct (Filepath.bytes_eqb (outputFile fl) []) eqn:He; simpl.
  - by intros ?%elem_of_nil.
  - intros ->%list_elem_of_singleton. simpl. left.
    split; [done|]. by apply bool_decide_eq_false in He.
Qed.

(** The three ways a run of [main] can go. *)
Lemma main_cases os fl :
  (∃ err, (if nonEmpty (outputFile fl) then Os.Create os (outputFile fl) else None)
            = Some err ∧
          main os fl = ([EvStdout (MsgErrorCreatingOutput err)], Exited 1)) ∨
  ((if nonEmpty (outputFile fl) then Os.Create os (outputFile fl) else None) = None ∧
   ∃ err, snd (analyzeLocalizationFile os (inputFile fl)) = Some err ∧
     main os fl =
       ((if nonEmpty (outputFile fl) then [EvCreate (outputFile fl)] else [])
          ++ [EvStdout (MsgError err)], Exited 1)) ∨
  ((if nonEmpty (outputFile fl) then Os.Create os (outputFile fl) else None) = None ∧
   ∃ lines, Os.Open os (inputFile fl) = inr (Os.Scanner lines None) ∧
     let request :=
       cleanRequest os fl (duplicateKeys (scanLines lines))
                    (Some (uniqueEntries (scanLines lines))) lines in
     main os fl =
       ((if nonEmpty (outputFile fl) then [EvCreate (outputFile fl)] else [])
          ++ map EvReport (reportOf (duplicateKeys (scanLines lines))) ++ fst request,
        snd request)).
Proof.
  destruct (if nonEmpty (outputFile fl) then Os.Create os (outputFile fl) else None)
    as [err|] eqn:Hcreate.
  { left. exists err. split; [done|]. unfold main. by rewrite Hcreate. }
  right.
  destruct (Os.Open os (inputFile fl)) as [oerr|[lines [serr|]]] eqn:Hopen.
  - left. split; [done|]. eexists. unfold main, analyzeLocalizationFile.
    rewrite Hcreate, Hopen. simpl. done.
  - left. split; [done|]. eexists. unfold main, analyzeLocalizationFile.
    rewrite Hcreate, Hopen. simpl. done.
  - right. split; [done|]. exists lines. split; [done|].
    by apply main_scanned.
Qed.

(** How a run ends once the flags are parsed. *)
Lemma main_outcome os fl :
  snd (main os fl) ≠ Panicked ∧
  (snd (main os fl) ≠ Returned → snd (main os fl) = Exited 1) ∧
  (snd (main os fl) = Returned ↔
   (if nonEmpty (outputFile fl) then Os.Create os (outputFile fl) else None) = None ∧
   ∃ lines, Os.Open os (inputFile fl) = inr (Os.Scanner lines None) ∧
     (cleanFile fl = [] ∨
      (cleanAllowed fl ∧
       snd (createCleanFile os (cleanFile fl)
              (Some (uniqueEntries (scanLines lines))) lines) = None))).
Proof.
  destruct (main_cases os fl)
    as [(err & Hc & ->)|[(Hc & err & He & ->)|(Hc & lines & Hopen & ->)]]; simpl.
  - split_and!; try done. split; [done|]. intros [Hc' _]. congruence.
  - split_and!; try done. split; [done|]. intros (_ & lines & Hopen & _).
    rewrite (analyze_ok _ _ _ Hopen) in He. done.
  - destruct (cleanRequest_cases os fl (duplicateKeys (scanLines lines))
                (Some (uniqueEntries (scanLines lines))) lines)
      as [[Hn ->]|[(Hne & Hs & ->)|[(Ha & evs & err & Hcf & ->)|(Ha & evs & Hcf & ->)]]];
      simpl.
    + split_and!; try done. split; [|done]. intros _. split; [done|].
      exists lines. split; [done|]. by left.
    + split_and!; try done. split; [done|].
      intros (_ & lines' & Hopen' & [?|[[_ Hd] _]]); done.
    + split_and!; try done. split; [done|].
      intros (_ & lines' & Hopen' & [Hn|[_ Hok]]).
      * by destruct Ha.
      * rewrite Hopen in Hopen'. injection Hopen' as <-. rewrite Hcf in Hok. done.
    + split_and!; try done. split; [|done]. intros _. split; [done|].
      exists lines. split; [done|]. right. by rewrite Hcf.
Qed.

(** X6. The analyzer never panics.  A run ends in [flag.Parse], with exit
    status 0 when the command line asks for help and 2 when it is rejected,
    or goes on with the parsed flags and then ends normally or with exit
    status 1.  It ends normally exactly when the flags are parsed, the
    output file of the report, if one is asked for, can be created, the
    input file is opened and scanned without error, and the clean request,
    if there is one, names another file than the input and the clean file
    is written without error. *)
Theorem main_exit_status os cmd :
  let result := snd (mainOf os cmd) in
  result ≠ Panicked ∧
  (cmd = Help → mainOf os cmd = ([], Exited 0)) ∧
  (cmd = Rejected → mainOf os cmd = ([], Exited 2)) ∧
  (∀ fl, cmd = Parsed fl → result = Returned ∨ result = Exited 1) ∧
  (result = Returned ↔
   ∃ fl, cmd = Parsed fl ∧
     (if nonEmpty (outputFile fl) then Os.Create os (outputFile fl) else None) = None ∧
     ∃ lines, Os.Open os (inputFile fl) = inr (Os.Scanner lines None) ∧
       (cleanFile fl = [] ∨
        (cleanAllowed fl ∧
         snd (createCleanFile os (cleanFile fl)
                (Some (uniqueEntries (scanLines lines))) lines) = None))).
Proof.
  destruct cmd as [fl| |]; simpl.
  - destruct (main_outcome os fl) as (Hpanic & Hexit & Hret). split_and!; try done.
    + intros fl' [= <-]. destruct (snd (main os fl)) as [|code|] eqn:Hr.
      * by left.
      * right. by apply Hexit.
      * done.
    + rewrite Hret. split.
      * intros H. by exists fl.
      * by intros (fl' & [= <-] & H).
  - split_and!; try done. split; [done|]. by intros (fl & ? & _).
  - split_and!; try done. split; [done|]. by intros (fl & ? & _).
Qed.

(** X7. Whatever the flags and the file system, the analyzer prints lines
    to the clean file only, and only when the clean file is not the input
    file; the only other file it creates is the output file of the report.
    When it prints lines, they are the cleaned lines of the input. *)
Theorem main_writes_as_asked os fl :
  (∀ ev, ev ∈ fst (main os fl) → writesAsAsked fl ev) ∧
  (printedLines (fst (main os fl)) = [] ∨
   ∃ lines, Os.Open os (inputFile fl) = inr (Os.Scanner lines None) ∧
            printedLines (fst (main os fl)) = cleanLines lines).
Proof.
  destruct (main_cases os fl)
    as [(err & Hc & ->)|[(Hc & err & He & ->)|(Hc & lines & Hopen & ->)]]; simpl.
  - split; [|by left]. by intros ev ->%list_elem_of_singleton.
  - split.
    + intros ev H. apply elem_of_app in H as [H|H]; [by apply opened_writesAsAsked|].
      by apply list_elem_of_singleton in H as ->.
    + left. unfold printedLines. rewrite omap_app.
      by destruct (nonEmpty (outputFile fl)).
  - split.
    + intros ev H. apply elem_of_app in H as [H|H]; [by apply opened_writesAsAsked|].
      apply elem_of_app in H as [H|H].
      * by apply list_elem_of_fmap in H as (m & -> & _).
      * by eapply cleanRequest_events.
    + assert (∀ ms, printedLines (map EvReport ms) = []) as Hrep.
      { induction ms as [|m ms IHm]; [done|]. by simpl. }
      assert (∀ dup, printedLines (summary fl dup) = []) as Hsum.
      { intros dup. unfold summary.
        destruct (nonEmpty (outputFile fl) || verbose fl); [|done].
        destruct (0 <? Z.of_nat (size dup)); [|by destruct (verbose fl)].
        by destruct (nonEmpty (outputFile fl)), (Filepath.bytes_eqb (cleanFile fl) []). }
      unfold printedLines in *. rewrite !omap_app, Hrep.
      assert (omap (λ ev, match ev with EvPrintln _ line => Some line | _ => None end)
                (if nonEmpty (outputFile fl) then [EvCreate (outputFile fl)] else [])
              = []) as -> by (by destruct (nonEmpty (outputFile fl))).
      simpl.
      destruct (cleanRequest_cases os fl (duplicateKeys (scanLines lines))
                  (Some (uniqueEntries (scanLines lines))) lines)
        as [[Hn ->]|[(Hne & Hs & ->)|[(Ha & evs & err & Hcf & ->)|(Ha & evs & Hcf & ->)]]];
        simpl.
      * left. apply Hsum.
      * by left.
      * left. rewrite omap_app. simpl. rewrite app_nil_r.
        destruct (createCleanFile_cases os (cleanFile fl)
                    (Some (uniqueEntries (scanLines lines))) lines)
          as [H|[(e & H & _)|(e & H & _)]]; rewrite Hcf in H; simpl in H.
        -- done.
        -- by injection H as -> _.
        -- injection H as -> _. by destruct (bool_decide _).
      * right. exists lines. split; [done|]. rewrite omap_app. simpl.
        rewrite Hsum, app_nil_r. by apply (createCleanFile_prints _ _ _ _ _ Hcf).
Qed.

(** ** The report of the analyzer *)

Lemma reported_none evs :
  (∀ ev, ev ∈ evs → ∀ m, ev ≠ EvReport m) → reported evs = [].
Proof.
  induction evs as [|ev evs IH]; intros H; [done|].
  unfold reported in *. simpl.
  destruct ev as [| | |m|]; try (apply IH; intros ev' Hev'; apply H, elem_of_cons; by right).
  exfalso. apply (H (EvReport m) ltac:(apply elem_of_cons; by left) m). done.
Qed.

Lemma reported_reports ms : reported (map EvReport ms) = ms.
Proof.
  induction ms as [|m ms IH]; [done|].
  change (m :: reported (map EvReport ms) = m :: ms). by rewrite IH.
Qed.

Lemma reported_app evs1 evs2 : reported (evs1 ++ evs2) = reported evs1 ++ reported evs2.
Proof. apply omap_app. Qed.

Lemma reported_main os fl lines :
  (if nonEmpty (outputFile fl) then Os.Create os (outputFile fl) else None) = None →
  Os.Open os (inputFile fl) = inr (Os.Scanner lines None) →
  reported (fst (main os fl)) = reportOf (duplicateKeys (scanLines lines)).
Proof.
  intros Hcreate Hopen. rewrite (main_scanned os fl lines Hcreate Hopen). simpl.
  rewrite !reported_app, reported_reports.
  rewrite (reported_none (if nonEmpty _ then _ else _)).
  2:{ intros ev Hev m ->. by destruct (nonEmpty (outputFile fl));
        [apply list_elem_of_singleton in Hev | apply elem_of_nil in Hev]. }
  rewrite (reported_none (fst (cleanRequest _ _ _ _ _))); [by rewrite app_nil_r|].
  intros ev Hev m ->.
  assert (∀ dup, EvReport m ∉ summary fl dup) as Hsum.
  { intros dup H. by apply summary_stdout in H as [? ?]. }
  assert (∀ evs err,
            createCleanFile os (cleanFile fl)
              (Some (uniqueEntries (scanLines lines))) lines = (evs, err) →
            EvReport m ∉ evs) as Hclean.
  { intros evs err Hc Hin.
    assert (EvReport m ∉ (if bool_decide (Filepath.Dir (cleanFile fl) ≠ [dot])
                          then [EvMkdirAll (Filepath.Dir (cleanFile fl))] else []))
      as Hmade.
    { destruct (bool_decide _); [|by intros ?%elem_of_nil].
      by intros ?%list_elem_of_singleton. }
    destruct (createCleanFile_cases os (cleanFile fl)
                (Some (uniqueEntries (scanLines lines))) lines)
      as [H|[(e & H & _)|(e & H & _)]]; rewrite Hc in H; injection H as -> _.
    - apply elem_of_app in Hin as [Hin|Hin]; [done|].
      apply elem_of_cons in Hin as [?|Hin]; [done|].
      by apply list_elem_of_fmap in Hin as (? & ? & _).
    - by apply elem_of_nil in Hin.
    - done. }
  destruct (cleanRequest_cases os fl (duplicateKeys (scanLines lines))
              (Some (uniqueEntries (scanLines lines))) lines)
    as [[_ Hr]|[(_ & _ & Hr)|[(_ & evs & err & Hc & Hr)|(_ & evs & Hc & Hr)]]];
    rewrite Hr in Hev; simpl in Hev.
  - by apply Hsum in Hev.
  - apply elem_of_cons in Hev as [?|Hev]; [done|].
    by apply list_elem_of_singleton in Hev.
  - apply elem_of_app in Hev as [Hev|Hev]; [by apply (Hclean _ _ Hc)|].
    by apply list_elem_of_singleton in Hev.
  - apply elem_of_app in Hev as [Hev|Hev]; [by apply (Hclean _ _ Hc)|].
    apply elem_of_cons in Hev as [?|Hev]; [done|].
    apply elem_of_cons in Hev as [?|Hev]; [done|].
    by apply Hsum in Hev.
Qed.

Lemma reportAll_inv duplicateKeys keys m :
  m ∈ reportAll duplicateKeys keys →
  ∃ key ms, key ∈ keys ∧ reportKey key (index [] duplicateKeys key) = Some ms ∧ m ∈ ms.
Proof.
  unfold reportAll. intros H. apply list_elem_of_In, in_flat_map in H as (key & Hkey & Hm).
  destruct (reportKey key (index [] duplicateKeys key)) as [ms|] eqn:Hms; [|done].
  exists key, ms. split; [by apply list_elem_of_In|]. split; [done|].
  by apply list_elem_of_In.
Qed.

(** The messages of the report of one key. *)
Lemma reportKey_inv key entries ms m :
  reportKey key entries = Some ms → m ∈ ms →
  m = MsgKeyAppears key (GoInt.len entries) ∨
  (∃ value, m = MsgAllSame value) ∨ m = MsgConflict ∨ m = MsgFoundAtLines ∨
  (∃ e, e ∈ entries ∧
        (m = MsgLineValue (LineNum e) (Value e) ∨ m = MsgLine (LineNum e))) ∨
  m = MsgBlank.
Proof.
  unfold reportKey. destruct entries as [|first rest]; [done|].
  simpl. intros [= <-]. do 3 rewrite elem_of_cons. rewrite elem_of_cons, elem_of_app.
  intros [->|[->|[->|[->|[H|H]]]]].
  - by left.
  - right. destruct (allSameLoop _ _); [left; eauto | right; by left].
  - do 3 right. by left.
  - do 4 right. left. exists first. split; [apply elem_of_cons; by left|].
    destruct (negb _); [by left | by right].
  - do 4 right. left. apply list_elem_of_fmap in H as (e & -> & He).
    exists e. split; [apply elem_of_cons; by right|].
    destruct (negb _); [by left | by right].
  - do 5 right. by apply list_elem_of_singleton in H.
Qed.

Lemma reportOf_no_duplicates duplicateKeys :
  MsgNoDuplicates ∈ reportOf duplicateKeys ↔ duplicateKeys = ∅.
Proof.
  unfold reportOf. destruct (0 <? Z.of_nat (size duplicateKeys)) eqn:Hsize.
  - apply Z.ltb_lt in Hsize. split.
    + intros H. apply elem_of_cons in H as [?|H]; [done|].
      apply elem_of_cons in H as [?|H]; [done|].
      apply reportAll_inv in H as (key & ms & _ & Hms & Hm).
      apply (reportKey_inv _ _ _ _ Hms) in Hm
        as [?|[[? ?]|[?|[?|[(e & _ & [?|?])|?]]]]]; done.
    + intros ->. rewrite map_size_empty in Hsize. lia.
  - apply Z.ltb_ge in Hsize. split.
    + intros _. apply map_size_empty_iff. lia.
    + intros _. apply elem_of_cons. by left.
Qed.

(** X8. When the analysis succeeds, the report says that no duplicate keys
    were found exactly when no key of the input file occurs twice, which is
    exactly when cleaning would leave the lines of the file as they are;
    the report is then that one message.  Otherwise it begins with the
    number of duplicate keys, which is positive. *)
Theorem report_no_duplicates_iff_keys_distinct os fl lines :
  (if nonEmpty (outputFile fl) then Os.Create os (outputFile fl) else None) = None →
  Os.Open os (inputFile fl) = inr (Os.Scanner lines None) →
  let report := reported (fst (main os fl)) in
  (MsgNoDuplicates ∈ report ↔ NoDup (keysOf lines)) ∧
  (MsgNoDuplicates ∈ report ↔ cleanLines lines = lines) ∧
  (NoDup (keysOf lines) → report = [MsgNoDuplicates]) ∧
  (¬ NoDup (keysOf lines) →
   ∃ n rest, report = MsgDuplicateKeysFound n :: MsgRule :: rest ∧ 0 < n ∧
             n = Z.of_nat (size (duplicateKeys (scanLines lines)))).
Proof.
  intros Hcreate Hopen. simpl. rewrite (reported_main os fl lines Hcreate Hopen).
  rewrite reportOf_no_duplicates, <- NoDup_keys_cleanLines, duplicateKeys_empty.
  split_and!; try done.
  - intros Hnd. apply duplicateKeys_empty in Hnd. by rewrite Hnd.
  - intros Hnd. rewrite <- duplicateKeys_empty in Hnd.
    unfold reportOf. destruct (0 <? _) eqn:Hsize.
    + apply Z.ltb_lt in Hsize. eauto.
    + apply Z.ltb_ge in Hsize. destruct Hnd. apply map_size_empty_iff. lia.
Qed.

(** The order of [sort.Strings] is a total order on byte strings. *)
Lemma bytes_leb_total a : ∀ b, bytes_leb a b = true ∨ bytes_leb b a = true.
Proof.
  induction a as [|x a IH]; intros [|y b]; simpl; auto.
  destruct (Nat.ltb_spec (nat_of_ascii x) (nat_of_ascii y)) as [Hlt|Hge]; [by left|].
  destruct (Nat.ltb_spec (nat_of_ascii y) (nat_of_ascii x)) as [Hlt'|Hge']; [by right|].
  assert (x = y) as ->.
  { rewrite <- (ascii_nat_embedding x), <- (ascii_nat_embedding y). f_equal. lia. }
  rewrite Ascii.eqb_refl. simpl. apply IH.
Qed.

Lemma bytes_leb_trans a : ∀ b c,
  bytes_leb a b = true → bytes_leb b c = true → bytes_leb a c = true.
Proof.
  induction a as [|x a IH]; intros [|y b] [|z c]; simpl; try done.
  intros Hab Hbc. apply orb_true_iff in Hab, Hbc. apply orb_true_iff.
  destruct Hab as [Hxy|Hxy], Hbc as [Hyz|Hyz].
  - apply Nat.ltb_lt in Hxy, Hyz. left. apply Nat.ltb_lt. lia.
  - apply andb_true_iff in Hyz as [->%Ascii.eqb_eq _]. by left.
  - apply andb_true_iff in Hxy as [->%Ascii.eqb_eq _]. by left.
  - apply andb_true_iff in Hxy as [->%Ascii.eqb_eq Hab].
    apply andb_true_iff in Hyz as [->%Ascii.eqb_eq Hbc].
    right. rewrite Ascii.eqb_refl. simpl. by apply (IH b c).
Qed.

Lemma bytes_leb_antisym a : ∀ b,
  bytes_leb a b = true → bytes_leb b a = true → a = b.
Proof.
  induction a as [|x a IH]; intros [|y b]; simpl; try done.
  intros Hab Hba. apply orb_true_iff in Hab, Hba.
  destruct Hab as [Hxy|Hxy], Hba as [Hyx|Hyx].
  - apply Nat.ltb_lt in Hxy, Hyx. lia.
  - apply andb_true_iff in Hyx as [->%Ascii.eqb_eq _]. apply Nat.ltb_lt in Hxy. lia.
  - apply andb_true_iff in Hxy as [->%Ascii.eqb_eq _]. apply Nat.ltb_lt in Hyx. lia.
  - apply andb_true_iff in Hxy as [->%Ascii.eqb_eq Hab].
    apply andb_true_iff in Hyx as [_ Hba]. f_equal. by apply IH.
Qed.

Lemma sortStrings_sorted keys :
  StronglySorted (λ a b, bytes_leb a b = true) (sortStrings keys).
Proof.
  assert (Transitive (λ a b, Is_true (bytes_leb a b))) as Htrans.
  { intros a b c Hab Hbc. apply Is_true_true. apply Is_true_true in Hab, Hbc.
    by apply (bytes_leb_trans a b c). }
  assert (Total (λ a b, Is_true (bytes_leb a b))) as Htotal.
  { intros a b. destruct (bytes_leb_total a b) as [H|H]; [left | right];
      by apply Is_true_true. }
  pose proof (StronglySorted_merge_sort (λ a b, Is_true (bytes_leb a b)) keys) as H.
  unfold sortStrings. induction H as [|a l Hl IH Hall]; constructor; [done|].
  eapply Forall_impl; [exact Hall|]. intros b Hb. by apply Is_true_true.
Qed.

Lemma StronglySorted_strict {A} (R : A → A → Prop) l :
  StronglySorted R l → NoDup l → StronglySorted (λ a b, R a b ∧ a ≠ b) l.
Proof.
  induction 1 as [|a l Hl IH Hall]; intros Hnd; constructor.
  - apply IH. by apply NoDup_cons in Hnd as [_ ?].
  - apply NoDup_cons in Hnd as [Hnotin _].
    apply Forall_forall. intros b Hb. split.
    + by apply (proj1 (Forall_forall _ _) Hall).
    + intros ->. done.
Qed.

Lemma reportedKeys_app ms1 ms2 :
  reportedKeys (ms1 ++ ms2) = reportedKeys ms1 ++ reportedKeys ms2.
Proof. apply omap_app. Qed.

Lemma reportedKeys_reportKey key entries ms :
  reportKey key entries = Some ms → reportedKeys ms = [key].
Proof.
  unfold reportKey. destruct entries as [|first rest]; [done|].
  simpl. intros [= <-].
  set (same := allSameLoop (Value first) rest).
  assert (∀ es, reportedKeys
                  (map (λ entry, if negb same
                                 then MsgLineValue (LineNum entry) (Value entry)
                                 else MsgLine (LineNum entry)) es ++ [MsgBlank]) = [])
    as Hlines.
  { induction es as [|e es IHes]; [done|]. simpl. unfold reportedKeys in *. simpl.
    by destruct (negb same). }
  transitivity
    (key :: reportedKeys
              (map (λ entry, if negb same
                             then MsgLineValue (LineNum entry) (Value entry)
                             else MsgLine (LineNum entry)) (first :: rest)
                 ++ [MsgBlank])); [by destruct same | by rewrite Hlines].
Qed.

Lemma reportedKeys_reportAll duplicateKeys keys :
  (∀ key, key ∈ keys → index [] duplicateKeys key ≠ []) →
  reportedKeys (reportAll duplicateKeys keys) = keys.
Proof.
  induction keys as [|key keys IH]; intros Hne; [done|].
  unfold reportAll in *. simpl. rewrite reportedKeys_app, IH.
  2:{ intros k Hk. apply Hne, elem_of_cons. by right. }
  destruct (reportKey_is_Some key (index [] duplicateKeys key)) as [ms Hms].
  { apply Hne, elem_of_cons. by left. }
  rewrite Hms. simpl. by rewrite (reportedKeys_reportKey _ _ _ Hms).
Qed.

Lemma reportedKeys_reportOf lines :
  reportedKeys (reportOf (duplicateKeys (scanLines lines))) =
  sortStrings (map fst (map_to_list (duplicateKeys (scanLines lines)))).
Proof.
  unfold reportOf. destruct (0 <? _) eqn:Hsize.
  - change (reportedKeys (reportAll (duplicateKeys (scanLines lines))
              (sortStrings (map fst (map_to_list (duplicateKeys (scanLines lines))))))
            = sortStrings (map fst (map_to_list (duplicateKeys (scanLines lines))))).
    apply reportedKeys_reportAll. intros key Hkey.
    apply sortStrings_keys in Hkey as [group Hg].
    unfold index. rewrite Hg. simpl. apply duplicateKeys_two in Hg.
    destruct group; simpl in *; [lia | done].
  - apply Z.ltb_ge in Hsize.
    assert (duplicateKeys (scanLines lines) = ∅) as ->
      by (apply map_size_empty_iff; lia).
    by rewrite map_to_list_empty.
Qed.

Lemma length_filter_keys (es : list KeyValue) key :
  length (filter (λ e, Key e = key) es) = length (filter (λ k, k = key) (map Key es)).
Proof.
  induction es as [|e es IH]; [done|]. simpl. rewrite !filter_cons.
  destruct (decide (Key e = key)); simpl; by rewrite IH.
Qed.

Lemma duplicateKeys_lookup lines key :
  let occ := filter (λ e, Key e = key) (recordsFrom 0 lines) in
  index [] (duplicateKeys (scanLines lines)) key =
    (if decide (2 ≤ length occ)%nat then occ else []) ∧
  length occ = length (filter (λ k, k = key) (keysOf lines)).
Proof.
  simpl. destruct (agrees_scanLines lines key) as (_ & Hdup & _). simpl in Hdup.
  unfold index. rewrite Hdup. split.
  - by destruct (decide _).
  - by rewrite length_filter_keys, keys_recordsFrom.
Qed.

(** X9. When the analysis succeeds, the report has one section for each key
    that occurs at least twice in the input file, in strictly ascending
    byte order of the keys; the count printed with a key is the number of
    its occurrences in the file, and the number of sections is the number
    of duplicate keys. *)
Theorem report_sections_sorted_by_key os fl lines :
  (if nonEmpty (outputFile fl) then Os.Create os (outputFile fl) else None) = None →
  Os.Open os (inputFile fl) = inr (Os.Scanner lines None) →
  let report := reported (fst (main os fl)) in
  let count key := length (filter (λ k, k = key) (keysOf lines)) in
  StronglySorted (λ a b, bytes_leb a b = true ∧ a ≠ b) (reportedKeys report) ∧
  (∀ key, key ∈ reportedKeys report ↔ (2 ≤ count key)%nat) ∧
  (∀ key n, MsgKeyAppears key n ∈ report → n = Z.of_nat (count key)) ∧
  length (reportedKeys report) = size (duplicateKeys (scanLines lines)).
Proof.
  intros Hcreate Hopen. simpl. rewrite (reported_main os fl lines Hcreate Hopen).
  rewrite reportedKeys_reportOf.
  assert (sortStrings (map fst (map_to_list (duplicateKeys (scanLines lines))))
          ≡ₚ map fst (map_to_list (duplicateKeys (scanLines lines)))) as Hperm.
  { unfold sortStrings. apply merge_sort_Permutation. }
  split_and!.
  - apply StronglySorted_strict; [apply sortStrings_sorted|].
    rewrite Hperm. apply NoDup_fst_map_to_list.
  - intros key. rewrite sortStrings_keys.
    destruct (agrees_scanLines lines key) as (_ & Hdup & _). simpl in Hdup.
    rewrite Hdup, <- (keys_recordsFrom lines 0), <- length_filter_keys.
    destruct (decide _); split; try done; try lia; eauto.
  - intros key n Hin.
    assert (MsgKeyAppears key n ∈
              reportAll (duplicateKeys (scanLines lines))
                (sortStrings (map fst (map_to_list (duplicateKeys (scanLines lines))))))
      as Hall.
    { unfold reportOf in Hin. destruct (0 <? _).
      - apply elem_of_cons in Hin as [?|Hin]; [done|].
        by apply elem_of_cons in Hin as [?|Hin].
      - by apply list_elem_of_singleton in Hin. }
    apply reportAll_inv in Hall as (key' & ms & Hkey' & Hms & Hm).
    apply (reportKey_inv _ _ _ _ Hms) in Hm
      as [Heq|[[? ?]|[?|[?|[(e & _ & [?|?])|?]]]]]; try done.
    injection Heq as -> ->.
    destruct (duplicateKeys_lookup lines key') as [Hidx Hlen]. simpl in Hidx, Hlen.
    apply sortStrings_keys in Hkey' as [group Hg].
    pose proof (duplicateKeys_two _ _ _ Hg) as Htwo.
    unfold index in Hidx. rewrite Hg in Hidx. simpl in Hidx.
    unfold index. rewrite Hg. simpl. unfold GoInt.len.
    destruct (decide _); [|subst group; simpl in Htwo; lia].
    rewrite <- Hlen. by subst group.
  - by rewrite Hperm, length_map, length_map_to_list.
Qed.

(** ** The cleaned-file generator and its errors *)

(** X10. The cleaned-file generator never consults the map of first
    occurrences it is given.  It succeeds exactly when the directory of the
    clean file, unless it is the current one, can be made and the file can
    be created; it then prints the cleaned lines after creating the file.
    When it fails it has printed no line and created no file, and the error
    is the one of the step that failed: making the directory, before which
    nothing was done, or creating the file. *)
Theorem createCleanFile_result os filename first rawLines :
  let result := createCleanFile os filename first rawLines in
  let dir := Filepath.Dir filename in
  (∀ first', createCleanFile os filename first' rawLines = result) ∧
  (snd result = None ↔
   (dir = [dot] ∨ Os.MkdirAll os dir = None) ∧ Os.Create os filename = None) ∧
  (snd result = None →
   ∃ made, fst result = made ++ EvCreate filename
                          :: map (EvPrintln filename) (cleanLines rawLines) ∧
           (made = [] ∨ made = [EvMkdirAll dir])) ∧
  (∀ err, snd result = Some err →
     printedLines (fst result) = [] ∧ (EvCreate filename ∉ fst result) ∧
     ((∃ e, err = FailedToCreateDirectory e ∧ Os.MkdirAll os dir = Some e ∧
            dir ≠ [dot] ∧ fst result = []) ∨
      (∃ e, err = FailedToCreateCleanFile e ∧ Os.Create os filename = Some e ∧
            (dir = [dot] ∨ Os.MkdirAll os dir = None)))).
Proof.
  simpl. split.
  { intros first'. unfold createCleanFile. done. }
  unfold createCleanFile, Filepath.bytes_eqb.
  rewrite (bool_decide_eq_false_2 (Filepath.Dir filename = [])) by apply Clean_nonempty.
  rewrite andb_true_r.
  destruct (decide (Filepath.Dir filename = [dot])) as [Hd|Hd].
  - rewrite (bool_decide_eq_true_2 _ Hd). simpl.
    destruct (Os.Create os filename) as [e|] eqn:Hc; simpl.
    + split_and!; [split; [done | by intros [_ ?]] | done |].
      intros err [= <-]. split_and!; [done | by intros ?%elem_of_nil |].
      right. exists e. split_and!; auto.
    + split_and!; [split; auto | | done].
      intros _. exists []. split; [done | by left].
  - rewrite (bool_decide_eq_false_2 _ Hd). simpl.
    destruct (Os.MkdirAll os (Filepath.Dir filename)) as [e|] eqn:Hm; simpl.
    + split_and!; [split; [done | by intros [[?|?] _]] | done |].
      intros err [= <-]. split_and!; [done | by intros ?%elem_of_nil |].
      left. by exists e.
    + destruct (Os.Create os filename) as [e|] eqn:Hc; simpl.
      * split_and!; [split; [done | by intros [_ ?]] | done |].
        intros err [= <-]. split_and!; [done | |].
        -- by intros ?%list_elem_of_singleton.
        -- right. exists e. split_and!; auto.
      * split_and!; [split; auto | | done].
        intros _. exists [EvMkdirAll (Filepath.Dir filename)]. split; [done | by right].
Qed.

(** ** The entries the scan records *)

Lemma elem_of_recordOf z line e :
  e ∈ recordOf z line ↔
  classify line = Entry (Key e) (Value e) ∧ LineNum e = GoInt.add z 1.
Proof.
  unfold recordOf. destruct (classify line) as [|key value|].
  - split; [by intros ?%elem_of_nil | by intros [? _]].
  - rewrite list_elem_of_singleton. split.
    + by intros ->.
    + intros [[= -> ->] Hn]. destruct e. simpl in *. by subst.
  - split; [by intros ?%elem_of_nil | by intros [? _]].
Qed.

Lemma elem_of_recordsFrom lines : ∀ z e,
  e ∈ recordsFrom z lines →
  ∃ line, line ∈ lines ∧ classify line = Entry (Key e) (Value e).
Proof.
  induction lines as [|line lines IH]; intros z e; simpl.
  - by intros ?%elem_of_nil.
  - rewrite elem_of_app. intros [H|H].
    + apply elem_of_recordOf in H as [Hc _]. exists line. split; [|done].
      apply elem_of_cons. by left.
    + apply IH in H as (l & Hl & Hc). exists l. split; [|done].
      apply elem_of_cons. by right.
Qed.

Lemma elem_of_entryOf n line e :
  e ∈ entryOf n line ↔
  classify line = Entry (Key e) (Value e) ∧ LineNum e = Z.of_nat (S n).
Proof.
  unfold entryOf. destruct (classify line) as [|key value|].
  - split; [by intros ?%elem_of_nil | by intros [? _]].
  - rewrite list_elem_of_singleton. split.
    + by intros ->.
    + intros [[= -> ->] Hn]. destruct e. simpl in *. by subst.
  - split; [by intros ?%elem_of_nil | by intros [? _]].
Qed.

Lemma elem_of_entriesFrom lines : ∀ n e,
  e ∈ entriesFrom n lines ↔
  ∃ i line, lines !! i = Some line ∧ classify line = Entry (Key e) (Value e) ∧
            LineNum e = Z.of_nat (S (n + i)).
Proof.
  induction lines as [|line lines IH]; intros n e; simpl.
  - split; [by intros ?%elem_of_nil | by intros (i & l & ? & _)].
  - rewrite elem_of_app, elem_of_entryOf, IH. split.
    + intros [[Hc Hn]|(i & l & Hl & Hc & Hn)].
      * exists 0%nat, line. split_and!; [done..|]. by rewrite Nat.add_0_r.
      * exists (S i), l. split_and!; [done..|]. rewrite Hn. f_equal. lia.
    + intros ([|i] & l & Hl & Hc & Hn); simpl in Hl.
      * injection Hl as ->. left. split; [done|]. by rewrite Nat.add_0_r in Hn.
      * right. exists i, l. split_and!; [done..|]. rewrite Hn. f_equal. lia.
Qed.

(** X11. Every entry the scan files under a key has that key, and its key
    and value are non-empty and free of quote characters: they are the key
    and the value of the first well-formed pair of a line of the file that
    is neither blank nor a comment.  The duplicate group of the key, when
    there is one, is the whole sequence filed under the key, and the first
    occurrence registered for the key is its head. *)
Theorem recorded_entries_well_formed lines key e :
  e ∈ index [] (keyEntries (scanLines lines)) key →
  Key e = key ∧
  key ≠ [] ∧ noQuote key ∧ Value e ≠ [] ∧ noQuote (Value e) ∧
  (∃ line, line ∈ lines ∧ ¬ blankOrComment line ∧ firstEntry line key (Value e)) ∧
  (∀ group, duplicateKeys (scanLines lines) !! key = Some group →
            group = index [] (keyEntries (scanLines lines)) key) ∧
  head (index [] (keyEntries (scanLines lines)) key)
    = uniqueEntries (scanLines lines) !! key.
Proof.
  intros He.
  destruct (agrees_scanLines lines key) as (Hke & Hdup & Huniq). simpl in *.
  rewrite (agrees_index _ _ _ (agrees_scanLines lines)) in *.
  apply list_elem_of_filter in He as [Hkey He].
  apply elem_of_recordsFrom in He as (line & Hline & Hc).
  rewrite Hkey in Hc. apply classify_entry in Hc as [Hnb Hfirst].
  pose proof (firstEntry_nonempty _ _ _ Hfirst) as (? & ? & ? & ?).
  split_and!; try done.
  - by exists line.
  - intros group. rewrite Hdup. destruct (decide (2 ≤ _)%nat); [|done].
    by intros [= <-].
Qed.

Lemma totalOccurrences_comm (j1 j2 : bytes) (z1 z2 : list KeyValue) (y : nat) :
  (length z1 + (length z2 + y) = length z2 + (length z1 + y))%nat.
Proof. lia. Qed.

Lemma totalOccurrences_append (m : gmap bytes (list KeyValue)) key e :
  totalOccurrences (<[key := index [] m key ++ [e]]> m) = S (totalOccurrences m).
Proof.
  unfold index. destruct (m !! key) as [group|] eqn:Hk; simpl.
  - rewrite <- (insert_delete_eq m). unfold totalOccurrences.
    rewrite map_fold_insert_L;
      [|auto using totalOccurrences_comm | apply lookup_delete_eq].
    rewrite (map_fold_delete_L _ _ key group m);
      [|auto using totalOccurrences_comm | done].
    rewrite length_app. simpl. lia.
  - unfold totalOccurrences.
    rewrite map_fold_insert_L; [|auto using totalOccurrences_comm | done]. done.
Qed.

Lemma totalOccurrences_scanFrom lines : ∀ st,
  totalOccurrences (keyEntries (scanFrom st lines)) =
  (totalOccurrences (keyEntries st) + length (keysOf lines))%nat.
Proof.
  induction lines as [|line lines IH]; intros st.
  - simpl. lia.
  - change (scanFrom st (line :: lines)) with (scanFrom (scanLine st line) lines).
    rewrite IH, keysOf_cons, scanLine_classify. unfold entryKey. simpl.
    destruct (classify line) as [|k v|]; simpl; try lia.
    rewrite totalOccurrences_append. lia.
Qed.

(** X12. The three maps of the scan fit together and cover the file: they
    hold exactly the keys of the entry lines, the duplicate groups are
    among the sequences filed under the keys, the first occurrence of a key
    is the head of its sequence, no sequence is empty, and the lengths of
    the sequences add up to the number of entry lines. *)
Theorem scan_maps_cover_entries lines :
  let st := scanLines lines in
  (∀ key, is_Some (keyEntries st !! key) ↔ key ∈ keysOf lines) ∧
  (∀ key, is_Some (uniqueEntries st !! key) ↔ key ∈ keysOf lines) ∧
  (∀ key group, duplicateKeys st !! key = Some group →
                keyEntries st !! key = Some group) ∧
  (∀ key group, keyEntries st !! key = Some group →
                group ≠ [] ∧ uniqueEntries st !! key = head group) ∧
  totalOccurrences (keyEntries st) = length (keysOf lines) ∧
  (size (duplicateKeys st) ≤ size (keyEntries st))%nat ∧
  size (keyEntries st) = size (uniqueEntries st).
Proof.
  simpl.
  assert (∀ key, is_Some (keyEntries (scanLines lines) !! key) ↔ key ∈ keysOf lines)
    as Hkeys.
  { intros key. destruct (agrees_scanLines lines key) as (Hke & _ & _). simpl in Hke.
    rewrite Hke, <- (keys_recordsFrom lines 0).
    destruct (decide _) as [Hnil|Hne].
    - apply filter_key_nil in Hnil. split; [by intros [? ?] | done].
    - rewrite filter_key_nil in Hne. split; [intros _ | eauto].
      by destruct (decide (key ∈ map Key (recordsFrom 0 lines))). }
  assert (∀ key, is_Some (uniqueEntries (scanLines lines) !! key)
                 ↔ is_Some (keyEntries (scanLines lines) !! key)) as Hsame.
  { intros key. destruct (agrees_scanLines lines key) as (Hke & _ & Hu).
    simpl in Hke, Hu. rewrite Hke, Hu.
    destruct (decide _) as [->|Hne].
    { simpl. split; by intros [? ?]. }
    destruct (filter _ _); [done|]. simpl. split; eauto. }
  assert (∀ key group, duplicateKeys (scanLines lines) !! key = Some group →
                       keyEntries (scanLines lines) !! key = Some group) as Hdup.
  { intros key group. destruct (agrees_scanLines lines key) as (Hke & Hd & _).
    simpl in Hke, Hd. rewrite Hke, Hd.
    destruct (decide (2 ≤ _)%nat) as [Htwo|]; [|done]. intros [= <-].
    destruct (decide _) as [Hnil|]; [|done]. rewrite Hnil in Htwo. simpl in Htwo. lia. }
  split_and!; try done.
  - intros key. by rewrite Hsame.
  - intros key group. destruct (agrees_scanLines lines key) as (Hke & _ & Hu).
    simpl in Hke, Hu. rewrite Hke, Hu.
    destruct (decide _) as [|Hne]; [done|]. by intros [= <-].
  - apply (totalOccurrences_scanFrom lines scan0).
  - apply map_subseteq_size. apply map_subseteq_spec. eauto.
  - rewrite <- !size_dom. f_equal. apply set_eq. intros key.
    rewrite !elem_of_dom. by rewrite Hsame.
Qed.

(** X13. While the line counter does not wrap, the entries filed under a
    key are exactly the entry lines of the file with that key: an entry is
    filed under the key exactly when the line at its line number, counted
    from 1, is an entry line with that key and the value of the entry. *)
Theorem recorded_entries_point_to_their_lines lines key e :
  GoInt.len lines ≤ GoInt.max_int →
  (e ∈ index [] (keyEntries (scanLines lines)) key ↔
   Key e = key ∧ 1 ≤ LineNum e ∧
   ∃ line, lines !! (Z.to_nat (LineNum e) - 1)%nat = Some line ∧
           classify line = Entry key (Value e)).
Proof.
  intros Hlen. rewrite (occurrenceSeq_occurrences _ _ Hlen). unfold occurrences.
  rewrite list_elem_of_filter, elem_of_entriesFrom. split.
  - intros (Hkey & i & line & Hl & Hc & Hn). simpl in Hn.
    split; [done|]. split; [lia|]. exists line. rewrite Hn, <- Hkey.
    split; [|done]. rewrite <- Hl. f_equal. lia.
  - intros (Hkey & Hn & line & Hl & Hc). split; [done|].
    exists (Z.to_nat (LineNum e) - 1)%nat, line. rewrite Hkey.
    split_and!; [done..|]. simpl. lia.
Qed.

(** ** Errors of the three tools *)

(** X14. The three tools fail alike.  The key counter and the key checker
    return an error exactly when the analyzer does, and the same one; the
    counter's two counts are then zero and the checker's occurrences empty,
    and their callers print that error alone and exit with status 1.  When
    the input file does not exist the callers say so and exit with status 1
    without opening the file, and the key checker called without a key
    prints its usage and exits with status 1. *)
Theorem tools_fail_alike notExist os inputFile keyToCheck args :
  let err := snd (analyzeLocalizationFile os inputFile) in
  snd (CountKeys.countKeys os inputFile) = err ∧
  snd (CheckKeys.findKeyOccurrences os inputFile keyToCheck) = err ∧
  (∀ e, err = Some e →
     CountKeys.countKeys os inputFile = (0, 0, Some e) ∧
     CheckKeys.findKeyOccurrences os inputFile keyToCheck = ([], Some e) ∧
     (notExist inputFile = false →
      CountKeysMain.main notExist os inputFile
        = ([CountKeysMain.Failed e], Exited 1) ∧
      CheckKeysMain.main notExist os inputFile (keyToCheck :: args)
        = ([CheckKeysMain.Failed e], Exited 1))) ∧
  (notExist inputFile = true →
   CountKeysMain.main notExist os inputFile
     = ([CountKeysMain.NotExist inputFile], Exited 1) ∧
   CheckKeysMain.main notExist os inputFile (keyToCheck :: args)
     = ([CheckKeysMain.NotExist inputFile], Exited 1)) ∧
  CheckKeysMain.main notExist os inputFile []
    = ([CheckKeysMain.NoKey; CheckKeysMain.Usage], Exited 1).
Proof.
  simpl. unfold CountKeysMain.main, CheckKeysMain.main, analyzeLocalizationFile,
    CountKeys.countKeys, CheckKeys.findKeyOccurrences.
  destruct (Os.Open os inputFile) as [oerr|[lines [serr|]]]; simpl.
  - split_and!; try done.
    + intros e [= <-]. split_and!; try done. by intros ->.
    + by intros ->.
  - destruct (fold_left CountKeys.countLine lines (∅, 0)) as [u t].
    destruct (fold_left (CheckKeys.findLine keyToCheck) lines ([], 0)) as [occ n].
    simpl. split_and!; try done.
    + intros e [= <-]. split_and!; try done. by intros ->.
    + by intros ->.
  - destruct (fold_left CountKeys.countLine lines (∅, 0)) as [u t].
    destruct (fold_left (CheckKeys.findLine keyToCheck) lines ([], 0)) as [occ n].
    simpl. split_and!; try done. by intros ->.
Qed.

(** ** The suggested name *)

Lemma takeToSlash_name n rest :
  noSlash n → Filepath.takeToSlash (n ++ slash :: rest) = n.
Proof.
  induction 1 as [|c n Hc _ IH]; simpl; [done|]. by rewrite Hc, IH.
Qed.

Lemma takeToSlash_id n : noSlash n → Filepath.takeToSlash n = n.
Proof. induction 1 as [|c n Hc _ IH]; simpl; [done|]. by rewrite Hc, IH. Qed.

Lemma lastElement_app dir name :
  directoryPart dir → noSlash name → lastElement (dir ++ name) = name.
Proof.
  intros [->|[d ->]] Hn; unfold lastElement; simpl.
  - rewrite takeToSlash_id by by apply Forall_rev. apply rev_involutive.
  - rewrite !rev_app_distr. simpl.
    rewrite takeToSlash_name by by apply Forall_rev. apply rev_involutive.
Qed.

Lemma joinSlash_directory xs n :
  ∃ d, Filepath.joinSlash (xs ++ [n]) = d ++ n ∧ directoryPart d.
Proof.
  induction xs as [|x xs (d & IH & Hd)]; [exists []; split; [done | by left]|].
  change ((x :: xs) ++ [n]) with (x :: (xs ++ [n])).
  destruct (xs ++ [n]) as [|y ys] eqn:Hy; [by destruct xs|].
  exists (x ++ slash :: d). simpl in *. rewrite IH. split; [by rewrite <- app_assoc|].
  right. destruct Hd as [->|[d' ->]].
  - by exists x.
  - exists (x ++ slash :: d'). by rewrite <- app_assoc.
Qed.

(** [Clean] keeps a file name at the end of a path as the last element. *)
Lemma Clean_directory p n :
  fileName n →
  ∃ d, Filepath.Clean (p ++ slash :: n) = d ++ n ∧ directoryPart d.
Proof.
  intros (Hn & H0 & H1 & H2). unfold Filepath.Clean.
  destruct (p ++ slash :: n) as [|c rest] eqn:Hp; [by destruct p|].
  rewrite <- Hp, split_app, (split_noSlash n), fold_left_app by done. simpl.
  set (out := fold_left _ _ _).
  assert (Filepath.cleanElem (Filepath.isSlash c) out n = n :: out) as ->.
  { unfold Filepath.cleanElem, Filepath.bytes_eqb.
    rewrite !(bool_decide_eq_false_2 (n = _)) by done. done. }
  simpl. destruct (joinSlash_directory (rev out) n) as (d & Hd & Hdir).
  destruct (Filepath.isSlash c).
  - exists (slash :: d). rewrite Hd. split; [done|]. right.
    destruct Hdir as [->|[d' ->]]; [by exists [] | by exists (slash :: d')].
  - destruct (rev out ++ [n]) eqn:Ho; [by destruct (rev out)|].
    by exists d.
Qed.

Lemma Clean_fileName n : fileName n → Filepath.Clean n = n.
Proof.
  intros (Hn & H0 & H1 & H2). unfold Filepath.Clean.
  destruct n as [|c n'] eqn:Hc; [done|]. rewrite <- Hc in *.
  assert (Filepath.isSlash c = false) as ->.
  { rewrite Hc in Hn. by inversion Hn. }
  rewrite (split_noSlash n) by done. simpl.
  unfold Filepath.cleanElem, Filepath.bytes_eqb.
  rewrite !(bool_decide_eq_false_2 (n = _)) by (rewrite ?Hc; congruence).
  done.
Qed.

Lemma Clean_path dir name :
  directoryPart dir → fileName name →
  ∃ d, Filepath.Clean (dir ++ name) = d ++ name ∧ directoryPart d.
Proof.
  intros [->|[d ->]] Hname.
  - exists []. split; [by apply Clean_fileName | by left].
  - rewrite <- app_assoc. by apply Clean_directory.
Qed.

Lemma Base_path dir name :
  directoryPart dir → fileName name → Filepath.Base (dir ++ name) = name.
Proof.
  intros Hdir (Hn & H0 & _). unfold Filepath.Base.
  destruct (dir ++ name) as [|c rest] eqn:Hp.
  { apply app_eq_nil in Hp as [_ ?]. done. }
  rewrite <- Hp.
  assert (Filepath.dropSlashes (rev (dir ++ name)) = rev (dir ++ name)) as ->.
  { rewrite rev_app_distr. destruct (rev name) as [|x r] eqn:Hr.
    - apply (f_equal (@rev _)) in Hr. rewrite rev_involutive in Hr. done.
    - simpl. assert (Filepath.isSlash x = false) as ->; [|done].
      assert (noSlash (x :: r)) as Hns by (rewrite <- Hr; by apply Forall_rev).
      by inversion Hns. }
  change (rev (Filepath.takeToSlash (rev (dir ++ name)))) with (lastElement (dir ++ name)).
  rewrite lastElement_app by done. by destruct name.
Qed.

(** X15. The name [main] suggests when the clean file is the input file is
    itself accepted: for an input path that ends in a file name, the
    suggested path differs from the input path once both are cleaned, so a
    clean request with it passes the check.  The last element of the
    cleaned suggestion is the file name with -cleaned before its
    extension. *)
Theorem suggested_name_is_accepted fl dir name :
  inputFile fl = dir ++ name → directoryPart dir → fileName name →
  let suggestedName := createUniqueFilename (inputFile fl) in
  Filepath.Clean suggestedName ≠ Filepath.Clean (inputFile fl) ∧
  suggestedName ≠ [] ∧
  (cleanFile fl = suggestedName → cleanAllowed fl) ∧
  ∃ stem, name = stem ++ Filepath.Ext (inputFile fl) ∧
          lastElement (Filepath.Clean (inputFile fl)) = name ∧
          lastElement (Filepath.Clean suggestedName) =
            stem ++ str "-cleaned" ++ Filepath.Ext (inputFile fl).
Proof.
  intros Hpath Hdir Hname. simpl.
  destruct (createUniqueFilename_shape (inputFile fl)) as (stem & Hstem & Hshape).
  rewrite Hpath, (Base_path dir name Hdir Hname), <- Hpath in Hstem.
  set (ext := Filepath.Ext (inputFile fl)) in *.
  set (name' := stem ++ str "-cleaned" ++ ext) in *.
  assert (fileName name') as Hname'.
  { assert ("-"%char ∈ name') as Hdash.
    { unfold name'. apply elem_of_app. right. apply elem_of_app. left.
      apply elem_of_cons. by left. }
    destruct Hname as (Hns & _). rewrite Hstem in Hns.
    apply Forall_app in Hns as [Hs He]. split_and!.
    - unfold name'. apply Forall_app. split; [done|].
      repeat (apply Forall_cons; split; [done|]). done.
    - intros Hn. rewrite Hn in Hdash. by apply elem_of_nil in Hdash.
    - intros Hn. rewrite Hn in Hdash. by apply list_elem_of_singleton in Hdash.
    - intros Hn. rewrite Hn in Hdash.
      apply elem_of_cons in Hdash as [?|Hdash]; [done|].
      by apply list_elem_of_singleton in Hdash. }
  assert (createUniqueFilename (inputFile fl) =
          Filepath.Clean (Filepath.Dir (inputFile fl) ++ slash :: name')) as Hsugg.
  { rewrite Hshape. simpl. unfold Filepath.bytes_eqb.
    by rewrite (bool_decide_eq_false_2 (Filepath.Dir (inputFile fl) = []))
      by apply Clean_nonempty. }
  destruct (Clean_directory (Filepath.Dir (inputFile fl)) name' Hname')
    as (d1 & Hd1 & Hdir1).
  destruct (Clean_path d1 name' Hdir1 Hname') as (d2 & Hd2 & Hdir2).
  destruct (Clean_path dir name Hdir Hname) as (d3 & Hd3 & Hdir3).
  assert (lastElement (Filepath.Clean (createUniqueFilename (inputFile fl))) = name')
    as Hlast'.
  { rewrite Hsugg, Hd1, Hd2. apply lastElement_app; [done|]. by destruct Hname'. }
  assert (lastElement (Filepath.Clean (inputFile fl)) = name) as Hlast.
  { rewrite Hpath, Hd3. apply lastElement_app; [done|]. by destruct Hname. }
  assert (Filepath.Clean (createUniqueFilename (inputFile fl))
          ≠ Filepath.Clean (inputFile fl)) as Hdiff.
  { intros Heq. rewrite Heq, Hlast in Hlast'.
    apply (f_equal (@length _)) in Hlast'. rewrite Hstem in Hlast'.
    unfold name' in Hlast'. rewrite !length_app in Hlast'. simpl in Hlast'. lia. }
  split_and!.
  - done.
  - rewrite Hsugg. apply Clean_nonempty.
  - intros Hclean. unfold cleanAllowed. rewrite Hclean. split; [|done].
    rewrite Hsugg. apply Clean_nonempty.
  - by exists stem.
Qed.

(** ** The analysis of the cleaned lines *)

Lemma values_recordsFrom key lines : ∀ z,
  map Value (filter (λ e, Key e = key) (recordsFrom z lines)) = valuesOf key lines.
Proof.
  induction lines as [|line lines IH]; intros z; simpl; [done|].
  rewrite filter_app, map_app, IH. unfold valuesOf, recordOf. simpl.
  destruct (classify line) as [|k v|]; simpl; try done.
  rewrite filter_cons. simpl. by destruct (decide (k = key)).
Qed.

Lemma valuesOf_app key l1 l2 : valuesOf key (l1 ++ l2) = valuesOf key l1 ++ valuesOf key l2.
Proof. apply omap_app. Qed.

(** Cleaning keeps the first value of a key that is not yet written, and
    nothing else of the key. *)
Lemma valuesOf_keep key lines : ∀ w,
  valuesOf key (keep w lines) =
  if index false w key then [] else take 1 (valuesOf key lines).
Proof.
  induction lines as [|line lines IH]; intros w; simpl.
  - by destruct (index false w key).
  - rewrite valuesOf_app, IH. unfold emit, entryKey, valuesOf. simpl.
    destruct (classify line) as [|k v|] eqn:Hc; simpl; rewrite ?Hc; try done.
    destruct (decide (k = key)) as [->|Hne].
    + destruct (index false w key) eqn:Hw; simpl; [by rewrite Hw|].
      rewrite Hc. simpl. rewrite decide_True by done.
      unfold index. rewrite lookup_insert_eq. simpl. by rewrite take_0.
    + destruct (index false w k) eqn:Hw; simpl; [done|].
      rewrite Hc. simpl. rewrite decide_False by done. simpl.
      unfold index. by rewrite lookup_insert_ne.
Qed.

Lemma first_value lines key :
  Value <$> uniqueEntries (scanLines lines) !! key = head (valuesOf key lines).
Proof.
  destruct (agrees_scanLines lines key) as (_ & _ & Hu). simpl in Hu.
  rewrite Hu, <- (values_recordsFrom key lines 0).
  by destruct (filter _ _).
Qed.

(** X16. The analysis of the cleaned lines finds no duplicate key: every
    key of the input is there once, with the value of its first occurrence
    in the input, and a run of the analyzer on a file with the cleaned
    lines reports that no duplicate keys were found. *)
Theorem cleaned_lines_have_no_duplicates lines :
  let again := scanLines (cleanLines lines) in
  duplicateKeys again = ∅ ∧
  countDuplicates (duplicateKeys again) = 0 ∧
  (∀ key, Value <$> uniqueEntries again !! key
          = Value <$> uniqueEntries (scanLines lines) !! key) ∧
  (∀ key, map Value (index [] (keyEntries again) key)
          = take 1 (map Value (index [] (keyEntries (scanLines lines)) key))) ∧
  (∀ os fl,
     (if nonEmpty (outputFile fl) then Os.Create os (outputFile fl) else None) = None →
     Os.Open os (inputFile fl) = inr (Os.Scanner (cleanLines lines) None) →
     reported (fst (main os fl)) = [MsgNoDuplicates]).
Proof.
  simpl.
  assert (duplicateKeys (scanLines (cleanLines lines)) = ∅) as Hempty.
  { apply duplicateKeys_empty. rewrite cleanLines_keep. apply keysOf_keep. }
  assert (∀ key, valuesOf key (cleanLines lines) = take 1 (valuesOf key lines)) as Hv.
  { intros key. rewrite cleanLines_keep, valuesOf_keep. by rewrite index_empty. }
  split_and!.
  - done.
  - by rewrite Hempty.
  - intros key. rewrite !first_value, Hv. by destruct (valuesOf key lines).
  - intros key. rewrite !(agrees_index _ _ _ (agrees_scanLines _)).
    by rewrite !values_recordsFrom.
  - intros os fl Hcreate Hopen.
    rewrite (reported_main os fl _ Hcreate Hopen), Hempty. done.
Qed.

(** ** The lines of the report *)

Lemma reportOf_sections (duplicateKeys : gmap bytes (list KeyValue)) m :
  (∀ n, m ≠ MsgDuplicateKeysFound n) → m ≠ MsgRule → m ≠ MsgNoDuplicates →
  (m ∈ reportOf duplicateKeys ↔
   ∃ key group ms, duplicateKeys !! key = Some group ∧
                   reportKey key group = Some ms ∧ m ∈ ms).
Proof.
  intros Hfound Hrule Hnone. unfold reportOf. split.
  - destruct (0 <? _).
    + intros H. apply elem_of_cons in H as [Heq|H]; [by destruct (Hfound _ Heq)|].
      apply elem_of_cons in H as [->|H]; [done|].
      apply reportAll_inv in H as (key & ms & Hkey & Hms & Hm).
      apply sortStrings_keys in Hkey as [group Hg].
      unfold index in Hms. rewrite Hg in Hms. simpl in Hms. by exists key, group, ms.
    + by intros ->%list_elem_of_singleton.
  - intros (key & group & ms & Hg & Hms & Hm).
    assert ((0 <? Z.of_nat (size duplicateKeys)) = true) as ->.
    { apply Z.ltb_lt. destruct (decide (size duplicateKeys = 0%nat)) as [Hz|]; [|lia].
      apply map_size_empty_iff in Hz. rewrite Hz in Hg. by rewrite lookup_empty in Hg. }
    apply elem_of_cons. right. apply elem_of_cons. right.
    apply (reportAll_elem _ _ key ms); [| |done].
    + apply sortStrings_keys. by exists group.
    + unfold index. by rewrite Hg.
Qed.

Lemma reportKey_eq key first rest :
  reportKey key (first :: rest) =
  let same := allSameLoop (Value first) rest in
  Some (MsgKeyAppears key (GoInt.len (first :: rest))
        :: (if same then MsgAllSame (Value first) else MsgConflict)
        :: MsgFoundAtLines
        :: map (λ entry, if negb same
                         then MsgLineValue (LineNum entry) (Value entry)
                         else MsgLine (LineNum entry)) (first :: rest)
        ++ [MsgBlank]).
Proof. reflexivity. Qed.

Lemma reportKey_lines key group ms :
  reportKey key group = Some ms →
  ∃ same, allSame group = Some same ∧
    (∀ n v, MsgLineValue n v ∈ ms ↔
       same = false ∧ ∃ e, e ∈ group ∧ LineNum e = n ∧ Value e = v) ∧
    (∀ n, MsgLine n ∈ ms ↔ same = true ∧ ∃ e, e ∈ group ∧ LineNum e = n) ∧
    (∀ v, MsgAllSame v ∈ ms ↔ same = true ∧ Value <$> head group = Some v).
Proof.
  destruct group as [|first rest]; [done|].
  rewrite reportKey_eq. cbv zeta.
  assert (allSame (first :: rest) = Some (allSameLoop (Value first) rest)) as Hsame
    by done.
  assert (∀ v, Value <$> head (first :: rest) = Some v ↔ v = Value first) as Hhead.
  { intros v. simpl. split; [by intros [= ->] | by intros ->]. }
  remember (first :: rest) as group eqn:Hgroup. clear Hgroup.
  intros Hms. exists (allSameLoop (Value first) rest). split; [done|]. clear Hsame.
  injection Hms as <-.
  destruct (allSameLoop (Value first) rest); simpl.
  - split_and!.
    + intros n v. do 3 rewrite elem_of_cons. rewrite elem_of_app, list_elem_of_fmap.
      split; [|by intros [? _]].
      intros [?|[?|[?|[(e & ? & _)|?%list_elem_of_singleton]]]]; done.
    + intros n. do 3 rewrite elem_of_cons. rewrite elem_of_app, list_elem_of_fmap.
      split.
      * intros [?|[?|[?|[(e & [= ->] & He)|?%list_elem_of_singleton]]]]; try done.
        split; [done|]. by exists e.
      * intros [_ (e & He & <-)]. do 3 right. left. by exists e.
    + intros v. rewrite Hhead.
      do 3 rewrite elem_of_cons. rewrite elem_of_app, list_elem_of_fmap.
      split.
      * intros [?|[[= ->]|[?|[(e & ? & _)|?%list_elem_of_singleton]]]]; done.
      * intros [_ ->]. right. by left.
  - split_and!.
    + intros n v. do 3 rewrite elem_of_cons. rewrite elem_of_app, list_elem_of_fmap.
      split.
      * intros [?|[?|[?|[(e & [= -> ->] & He)|?%list_elem_of_singleton]]]]; try done.
        split; [done|]. by exists e.
      * intros [_ (e & He & <- & <-)]. do 3 right. left. by exists e.
    + intros n. do 3 rewrite elem_of_cons. rewrite elem_of_app, list_elem_of_fmap.
      split; [|by intros [? _]].
      intros [?|[?|[?|[(e & ? & _)|?%list_elem_of_singleton]]]]; done.
    + intros v. do 3 rewrite elem_of_cons. rewrite elem_of_app, list_elem_of_fmap.
      split; [|by intros [? _]].
      intros [?|[?|[?|[(e & ? & _)|?%list_elem_of_singleton]]]]; done.
Qed.

(** X17. When the analysis succeeds, the report shows the line number of
    every occurrence of every duplicate key and of nothing else: with the
    value for a key whose values conflict, without it for a key whose
    values are all the same, whose common value is shown once. *)
Theorem report_lists_lines_of_duplicates os fl lines :
  (if nonEmpty (outputFile fl) then Os.Create os (outputFile fl) else None) = None →
  Os.Open os (inputFile fl) = inr (Os.Scanner lines None) →
  let report := reported (fst (main os fl)) in
  let groups := duplicateKeys (scanLines lines) in
  (∀ n v, MsgLineValue n v ∈ report ↔
     ∃ key group e, groups !! key = Some group ∧ allSame group = Some false ∧
                    e ∈ group ∧ LineNum e = n ∧ Value e = v) ∧
  (∀ n, MsgLine n ∈ report ↔
     ∃ key group e, groups !! key = Some group ∧ allSame group = Some true ∧
                    e ∈ group ∧ LineNum e = n) ∧
  (∀ v, MsgAllSame v ∈ report ↔
     ∃ key group, groups !! key = Some group ∧ allSame group = Some true ∧
                  Value <$> head group = Some v).
Proof.
  intros Hcreate Hopen. simpl. rewrite (reported_main os fl lines Hcreate Hopen).
  assert (∀ key group, duplicateKeys (scanLines lines) !! key = Some group →
                       is_Some (reportKey key group)) as Hsome.
  { intros key group Hg. apply reportKey_is_Some. apply duplicateKeys_two in Hg.
    destruct group; simpl in *; [lia | done]. }
  split_and!.
  - intros n v. rewrite reportOf_sections by done. split.
    + intros (key & group & ms & Hg & Hms & Hm).
      destruct (reportKey_lines _ _ _ Hms) as (same & Hsame & Hlv & _ & _).
      destruct (proj1 (Hlv _ _) Hm) as (Hs & e & He & Hn & Hv). rewrite Hs in Hsame.
      by exists key, group, e.
    + intros (key & group & e & Hg & Hsame & He & Hn & Hv).
      destruct (Hsome _ _ Hg) as [ms Hms]. exists key, group, ms.
      split_and!; [done..|].
      destruct (reportKey_lines _ _ _ Hms) as (same & Hsame' & Hlv & _ & _).
      apply Hlv. split; [congruence|]. by exists e.
  - intros n. rewrite reportOf_sections by done. split.
    + intros (key & group & ms & Hg & Hms & Hm).
      destruct (reportKey_lines _ _ _ Hms) as (same & Hsame & _ & Hl & _).
      destruct (proj1 (Hl _) Hm) as (Hs & e & He & Hn). rewrite Hs in Hsame.
      by exists key, group, e.
    + intros (key & group & e & Hg & Hsame & He & Hn).
      destruct (Hsome _ _ Hg) as [ms Hms]. exists key, group, ms.
      split_and!; [done..|].
      destruct (reportKey_lines _ _ _ Hms) as (same & Hsame' & _ & Hl & _).
      apply Hl. split; [congruence|]. by exists e.
  - intros v. rewrite reportOf_sections by done. split.
    + intros (key & group & ms & Hg & Hms & Hm).
      destruct (reportKey_lines _ _ _ Hms) as (same & Hsame & _ & _ & Ha).
      destruct (proj1 (Ha _) Hm) as (Hs & Hv). rewrite Hs in Hsame. by exists key, group.
    + intros (key & group & Hg & Hsame & Hv).
      destruct (Hsome _ _ Hg) as [ms Hms]. exists key, group, ms.
      split_and!; [done..|].
      destruct (reportKey_lines _ _ _ Hms) as (same & Hsame' & _ & _ & Ha).
      apply Ha. split; [congruence | done].
Qed.

(** ** The summary on the terminal *)

Lemma summary_inv (fl : flags) (dup : gmap bytes (list KeyValue)) (m : message) :
  EvStdout m ∈ summary fl dup →
  (outputFile fl ≠ [] ∨ verbose fl = true) ∧
  ((m = MsgAnalysisComplete (Z.of_nat (size dup)) (countDuplicates dup) ∧
    0 < Z.of_nat (size dup)) ∨
   (m = MsgResultsWritten (outputFile fl) ∧ outputFile fl ≠ []) ∨
   (m = MsgUseClean ∧ cleanFile fl = []) ∨
   (m = MsgNoDuplicates ∧ verbose fl = true)).
Proof.
  unfold summary, nonEmpty, Filepath.bytes_eqb. intros H.
  assert (outputFile fl ≠ [] ∨ verbose fl = true) as Hmode.
  { destruct (decide (outputFile fl = [])) as [Ho|Ho]; [|by left].
    right. rewrite (bool_decide_eq_true_2 _ Ho) in H. simpl in H.
    destruct (verbose fl); [done|]. by apply elem_of_nil in H. }
  split; [done|].
  destruct (negb (bool_decide (outputFile fl = [])) || verbose fl);
    [|by apply elem_of_nil in H].
  destruct (Z.ltb_spec 0 (Z.of_nat (size dup))) as [Hs|Hs].
  - apply elem_of_app in H as [H|H].
    { apply list_elem_of_singleton in H as [= ->]. by left. }
    apply elem_of_app in H as [H|H].
    + destruct (decide (outputFile fl = [])) as [Ho|Ho].
      * rewrite (bool_decide_eq_true_2 _ Ho) in H. by apply elem_of_nil in H.
      * rewrite (bool_decide_eq_false_2 _ Ho) in H.
        apply list_elem_of_singleton in H as [= ->]. right. by left.
    + destruct (decide (cleanFile fl = [])) as [Hc|Hc].
      * rewrite (bool_decide_eq_true_2 _ Hc) in H.
        apply list_elem_of_singleton in H as [= ->]. right. right. by left.
      * rewrite (bool_decide_eq_false_2 _ Hc) in H. by apply elem_of_nil in H.
  - destruct (verbose fl) eqn:Hv; [|by apply elem_of_nil in H].
    apply list_elem_of_singleton in H as [= ->]. by do 3 right.
Qed.

(** A message on the terminal after a successful analysis is one of the
    summary, printed at the end of a run that returns, or one of the clean
    request. *)
Lemma stdout_main os fl lines m :
  (if nonEmpty (outputFile fl) then Os.Create os (outputFile fl) else None) = None →
  Os.Open os (inputFile fl) = inr (Os.Scanner lines None) →
  EvStdout m ∈ fst (main os fl) →
  (EvStdout m ∈ summary fl (duplicateKeys (scanLines lines)) ∧
   snd (main os fl) = Returned) ∨
  (cleanFile fl ≠ [] ∧
   (m = MsgSameAsInput ∨ (∃ name, m = MsgPleaseUse name) ∨
    (∃ err, m = MsgErrorCreatingClean err) ∨ (∃ f, m = MsgCreatedCleaned f) ∨
    (∃ n, m = MsgRemoved n))).
Proof.
  intros Hcreate Hopen. rewrite (main_scanned os fl lines Hcreate Hopen). simpl.
  intros H. apply elem_of_app in H as [H|H].
  { destruct (nonEmpty (outputFile fl));
      [by apply list_elem_of_singleton in H | by apply elem_of_nil in H]. }
  apply elem_of_app in H as [H|H].
  { by apply list_elem_of_fmap in H as (? & ? & _). }
  assert (∀ evs err,
            createCleanFile os (cleanFile fl)
              (Some (uniqueEntries (scanLines lines))) lines = (evs, err) →
            EvStdout m ∉ evs) as Hclean.
  { intros evs err Hc Hin.
    destruct (createCleanFile_cases os (cleanFile fl)
                (Some (uniqueEntries (scanLines lines))) lines)
      as [He|[(e & He & _)|(e & He & _)]]; rewrite Hc in He; injection He as -> _.
    - apply elem_of_app in Hin as [Hin|Hin].
      + destruct (bool_decide _);
          [by apply list_elem_of_singleton in Hin | by apply elem_of_nil in Hin].
      + apply elem_of_cons in Hin as [?|Hin]; [done|].
        by apply list_elem_of_fmap in Hin as (? & ? & _).
    - by apply elem_of_nil in Hin.
    - destruct (bool_decide _);
        [by apply list_elem_of_singleton in Hin | by apply elem_of_nil in Hin]. }
  destruct (cleanRequest_cases os fl (duplicateKeys (scanLines lines))
              (Some (uniqueEntries (scanLines lines))) lines)
    as [[_ Hr]|[(Hne & _ & Hr)|[([Hne _] & evs & err & Hc & Hr)|([Hne _] & evs & Hc & Hr)]]];
    rewrite Hr in H |- *; simpl in H |- *.
  - by left.
  - right. split; [done|].
    apply elem_of_cons in H as [[= ->]|H]; [by left|].
    apply list_elem_of_singleton in H as [= ->]. right. left. eauto.
  - right. split; [done|].
    apply elem_of_app in H as [H|H]; [by apply (Hclean _ _ Hc) in H|].
    apply list_elem_of_singleton in H as [= ->]. do 2 right. left. eauto.
  - apply elem_of_app in H as [H|H]; [by apply (Hclean _ _ Hc) in H|].
    apply elem_of_cons in H as [[= ->]|H]; [right; split; [done|]; do 3 right; left; eauto|].
    apply elem_of_cons in H as [[= ->]|H]; [right; split; [done|]; do 4 right; eauto|].
    by left.
Qed.

(** X18. When the analysis succeeds on a file of fewer than 2^63 lines, the
    summary on the terminal agrees with the report: it is printed only at
    the end of a run that returns, with an output file or in verbose mode;
    the number of duplicate keys it gives is the number of sections of the
    report and its number of duplicated entries is the number of lines that
    cleaning leaves out, both positive.  The hint at the clean option is
    printed only without a clean request, and with no output file, no
    verbose mode and no clean request nothing is printed to the terminal
    besides the report. *)
Theorem summary_agrees_with_report os fl lines :
  (if nonEmpty (outputFile fl) then Os.Create os (outputFile fl) else None) = None →
  Os.Open os (inputFile fl) = inr (Os.Scanner lines None) →
  GoInt.len lines ≤ GoInt.max_int →
  let trace := fst (main os fl) in
  (∀ k d, EvStdout (MsgAnalysisComplete k d) ∈ trace →
     k = Z.of_nat (length (reportedKeys (reported trace))) ∧
     d = Z.of_nat (dropped lines) ∧ 0 < k ∧ 0 < d ∧
     snd (main os fl) = Returned ∧ (outputFile fl ≠ [] ∨ verbose fl = true)) ∧
  (EvStdout MsgUseClean ∈ trace → cleanFile fl = []) ∧
  (∀ f, EvStdout (MsgResultsWritten f) ∈ trace → f = outputFile fl ∧ f ≠ []) ∧
  (outputFile fl = [] → verbose fl = false → cleanFile fl = [] →
   ∀ m, EvStdout m ∉ trace).
Proof.
  intros Hcreate Hopen Hlen. simpl. split_and!.
  - intros k d H.
    destruct (stdout_main os fl lines _ Hcreate Hopen H)
      as [[Hs Hret]|[_ [?|[[? ?]|[[? ?]|[[? ?]|[? ?]]]]]]]; try done.
    apply summary_inv in Hs
      as [Hmode [[[= -> ->] Hpos]|[[? _]|[[? _]|[? _]]]]]; try done.
    rewrite (reported_main os fl lines Hcreate Hopen), reportedKeys_reportOf.
    unfold sortStrings. rewrite merge_sort_Permutation, length_map, length_map_to_list.
    rewrite countDuplicates_scanLines.
    assert (Z.of_nat (dropped lines) ≤ GoInt.max_int) as Hsmall.
    { unfold dropped, GoInt.len in *. lia. }
    rewrite wrap_nat by done.
    assert (dropped lines ≠ 0%nat) as Hnz.
    { intros Hz. apply dropped_zero, duplicateKeys_empty in Hz.
      rewrite Hz, map_size_empty in Hpos. lia. }
    split_and!; try done. lia.
  - intros H.
    destruct (stdout_main os fl lines _ Hcreate Hopen H)
      as [[Hs Hret]|[_ [?|[[? ?]|[[? ?]|[[? ?]|[? ?]]]]]]]; try done.
    by apply summary_inv in Hs as [_ [[? _]|[[? _]|[[_ ?]|[? _]]]]].
  - intros f H.
    destruct (stdout_main os fl lines _ Hcreate Hopen H)
      as [[Hs Hret]|[_ [?|[[? ?]|[[? ?]|[[? ?]|[? ?]]]]]]]; try done.
    apply summary_inv in Hs as [_ [[? _]|[[[= ->] ?]|[[? _]|[? _]]]]]; done.
  - intros Ho Hv Hc m H.
    destruct (stdout_main os fl lines _ Hcreate Hopen H) as [[Hs _]|[Hne _]]; [|done].
    apply summary_inv in Hs as [[?|?] _]; congruence.
Qed.

(** ** The further properties on the scenarios *)

(** The key checker finds key A of the first scenario on lines 1 and 3. *)
Lemma findKeyOccurrences_is_occurrence_index_witness :
  Os.Open (osOf sample1) sampleFile = inr (Os.Scanner sample1 None) ∧
  CheckKeys.findKeyOccurrences (osOf sample1) sampleFile (str "A") =
    ([CheckKeys.mkKeyOccurrence (str "1") 1; CheckKeys.mkKeyOccurrence (str "1") 3],
     None).
Proof.
  split; [reflexivity|].
  destruct (findKeyOccurrences_is_occurrence_index
              (osOf sample1) sampleFile (str "A") sample1 eq_refl) as [H _].
  rewrite H. reflexivity.
Defined.

(** The key counter counts two keys in the three entries of the first
    scenario. *)
Lemma countKeys_counts_witness :
  Os.Open (osOf sample1) sampleFile = inr (Os.Scanner sample1 None) ∧
  ∃ keyCount totalEntries,
    CountKeys.countKeys (osOf sample1) sampleFile = (keyCount, totalEntries, None) ∧
    keyCount = 2.
Proof.
  split; [reflexivity|].
  destruct (countKeys_counts (osOf sample1) sampleFile sample1 eq_refl)
    as (keyCount & totalEntries & Hc & Hk & _).
  exists keyCount, totalEntries. split; [exact Hc|]. rewrite Hk. reflexivity.
Defined.

(** Cleaning the first scenario into another file removes one line. *)
Lemma removed_count_is_lines_left_out_witness :
  Os.Open (osOf sample1) (inputFile cleanFlags) = inr (Os.Scanner sample1 None) ∧
  GoInt.len sample1 ≤ GoInt.max_int ∧
  cleanFile cleanFlags ≠ [] ∧
  Filepath.Clean (cleanFile cleanFlags) ≠ Filepath.Clean (inputFile cleanFlags) ∧
  countDuplicates (duplicateKeys (scanLines sample1)) = 1 ∧
  snd (main (osOf sample1) cleanFlags) = Returned.
Proof.
  assert (GoInt.len sample1 ≤ GoInt.max_int) as Hlen by (vm_compute; discriminate).
  assert (cleanFile cleanFlags ≠ []) as Hne by discriminate.
  assert (Filepath.Clean (cleanFile cleanFlags) ≠ Filepath.Clean (inputFile cleanFlags))
    as Hdiff by (vm_compute; discriminate).
  destruct (removed_count_is_lines_left_out (osOf sample1) cleanFlags sample1
              (fst (createCleanFile (osOf sample1) (cleanFile cleanFlags)
                      (Some (uniqueEntries (scanLines sample1))) sample1))
              eq_refl eq_refl Hlen Hne Hdiff eq_refl) as (Hcount & _ & _ & Hret).
  split_and!; [reflexivity | exact Hlen | exact Hne | exact Hdiff | | exact Hret].
  rewrite Hcount. reflexivity.
Defined.

(** The key counter on the first scenario: three entries, two keys. *)
Lemma key_counter_agrees_with_analyzer_witness :
  present sampleFile = false ∧
  Os.Open (osOf sample1) sampleFile = inr (Os.Scanner sample1 None) ∧
  GoInt.len sample1 ≤ GoInt.max_int ∧
  ∃ verdict,
    CountKeysMain.main present (osOf sample1) sampleFile =
      ([CountKeysMain.File sampleFile; CountKeysMain.TotalEntries 3;
        CountKeysMain.UniqueKeys 2; verdict], Returned).
Proof.
  assert (GoInt.len sample1 ≤ GoInt.max_int) as Hlen by (vm_compute; discriminate).
  destruct (key_counter_agrees_with_analyzer present (osOf sample1) sampleFile sample1
              eq_refl eq_refl Hlen) as (verdict & Hmain & _).
  split_and!; [reflexivity | reflexivity | exact Hlen |].
  exists verdict. rewrite Hmain. reflexivity.
Defined.

(** The key checker warns of the conflict of key Hi in the second
    scenario. *)
Lemma key_checker_agrees_with_analyzer_witness :
  present sampleFile = false ∧
  Os.Open (osOf sample2) sampleFile = inr (Os.Scanner sample2 None) ∧
  ∃ msgs,
    CheckKeysMain.main present (osOf sample2) sampleFile [str "Hi"] = (msgs, Returned) ∧
    CheckKeysMain.Conflict ∈ msgs.
Proof.
  destruct (key_checker_agrees_with_analyzer present (osOf sample2) sampleFile
              (str "Hi") [] sample2 eq_refl eq_refl)
    as (msgs & Hmain & _ & _ & _ & Hconflict).
  split_and!; [reflexivity | reflexivity |].
  exists msgs. split; [exact Hmain|]. apply Hconflict.
  exists [mkKeyValue (str "Hi") (str "Hello") 1; mkKeyValue (str "Hi") (str "Hola") 4].
  split; reflexivity.
Defined.

(** The report of the second scenario does not say that there are no
    duplicates: it begins with their number. *)
Lemma report_no_duplicates_iff_keys_distinct_witness :
  Os.Open (osOf sample2) sampleFile = inr (Os.Scanner sample2 None) ∧
  (MsgNoDuplicates ∈ reported (fst (main (osOf sample2) (mkFlags [] sampleFile [] false)))
   ↔ cleanLines sample2 = sample2).
Proof.
  split; [reflexivity|].
  exact (proj1 (proj2 (report_no_duplicates_iff_keys_distinct
                         (osOf sample2) (mkFlags [] sampleFile [] false) sample2
                         eq_refl eq_refl))).
Defined.

(** The report of the first scenario has one section, for key A. *)
Lemma report_sections_sorted_by_key_witness :
  Os.Open (osOf sample1) sampleFile = inr (Os.Scanner sample1 None) ∧
  str "A" ∈ reportedKeys
              (reported (fst (main (osOf sample1) (mkFlags [] sampleFile [] false)))) ∧
  length (reportedKeys
            (reported (fst (main (osOf sample1) (mkFlags [] sampleFile [] false)))))
    = 1%nat.
Proof.
  destruct (report_sections_sorted_by_key
              (osOf sample1) (mkFlags [] sampleFile [] false) sample1 eq_refl eq_refl)
    as (_ & Hkeys & _ & Hsize).
  split_and!; [reflexivity | |].
  - apply Hkeys. vm_compute. lia.
  - rewrite Hsize. reflexivity.
Defined.

(** The second entry of key Hi in the second scenario. *)
Lemma recorded_entries_well_formed_witness :
  mkKeyValue (str "Hi") (str "Hola") 4
    ∈ index [] (keyEntries (scanLines sample2)) (str "Hi") ∧
  noQuote (str "Hola") ∧
  head (index [] (keyEntries (scanLines sample2)) (str "Hi"))
    = uniqueEntries (scanLines sample2) !! str "Hi".
Proof.
  assert (mkKeyValue (str "Hi") (str "Hola") 4
            ∈ index [] (keyEntries (scanLines sample2)) (str "Hi")) as Hin.
  { change (mkKeyValue (str "Hi") (str "Hola") 4
              ∈ [mkKeyValue (str "Hi") (str "Hello") 1;
                 mkKeyValue (str "Hi") (str "Hola") 4]).
    apply elem_of_cons. right. apply elem_of_cons. by left. }
  destruct (recorded_entries_well_formed sample2 (str "Hi") _ Hin)
    as (_ & _ & _ & _ & Hq & _ & _ & Hhead).
  split_and!; [exact Hin | exact Hq | exact Hhead].
Defined.

(** Line 4 of the second scenario is the entry of key Hi with value
    Hola. *)
Lemma recorded_entries_point_to_their_lines_witness :
  GoInt.len sample2 ≤ GoInt.max_int ∧
  mkKeyValue (str "Hi") (str "Hola") 4
    ∈ index [] (keyEntries (scanLines sample2)) (str "Hi").
Proof.
  assert (GoInt.len sample2 ≤ GoInt.max_int) as Hlen by (vm_compute; discriminate).
  split; [exact Hlen|].
  apply (recorded_entries_point_to_their_lines sample2 (str "Hi") _ Hlen).
  simpl. split; [reflexivity|]. split; [lia|].
  exists (entryLine (str "Hi") (str "Hola")). split; reflexivity.
Defined.

(** The suggestion for the sample file is accepted as a clean file. *)
Lemma suggested_name_is_accepted_witness :
  inputFile sampleFlags = str "dir/" ++ str "Localizable.strings" ∧
  directoryPart (str "dir/") ∧
  fileName (str "Localizable.strings") ∧
  Filepath.Clean (createUniqueFilename (inputFile sampleFlags))
    ≠ Filepath.Clean (inputFile sampleFlags).
Proof.
  assert (directoryPart (str "dir/")) as Hdir by (right; by exists (str "dir")).
  assert (fileName (str "Localizable.strings")) as Hname.
  { split_and!; [|discriminate..]. unfold noSlash. by repeat constructor. }
  destruct (suggested_name_is_accepted sampleFlags (str "dir/")
              (str "Localizable.strings") eq_refl Hdir Hname)
    as (Hdiff & _).
  split_and!; [reflexivity | exact Hdir | exact Hname | exact Hdiff].
Defined.

(** The report of the second scenario shows line 4 with the value Hola. *)
Lemma report_lists_lines_of_duplicates_witness :
  Os.Open (osOf sample2) sampleFile = inr (Os.Scanner sample2 None) ∧
  MsgLineValue 4 (str "Hola")
    ∈ reported (fst (main (osOf sample2) (mkFlags [] sampleFile [] false))).
Proof.
  split; [reflexivity|].
  destruct (report_lists_lines_of_duplicates
              (osOf sample2) (mkFlags [] sampleFile [] false) sample2 eq_refl eq_refl)
    as (Hlv & _).
  apply Hlv.
  exists (str "Hi"),
    [mkKeyValue (str "Hi") (str "Hello") 1; mkKeyValue (str "Hi") (str "Hola") 4],
    (mkKeyValue (str "Hi") (str "Hola") 4).
  split_and!; [reflexivity | reflexivity | | reflexivity | reflexivity].
  apply elem_of_cons. right. apply elem_of_cons. by left.
Defined.

(** With no output file, no verbose mode and no clean request, the
    analysis of the first scenario prints nothing to the terminal besides
    the report. *)
Lemma summary_agrees_with_report_witness :
  Os.Open (osOf sample1) sampleFile = inr (Os.Scanner sample1 None) ∧
  GoInt.len sample1 ≤ GoInt.max_int ∧
  (EvStdout MsgUseClean
     ∉ fst (main (osOf sample1) (mkFlags [] sampleFile [] false))).
Proof.
  assert (GoInt.len sample1 ≤ GoInt.max_int) as Hlen by (vm_compute; discriminate).
  destruct (summary_agrees_with_report
              (osOf sample1) (mkFlags [] sampleFile [] false) sample1
              eq_refl eq_refl Hlen) as (_ & _ & _ & Hquiet).
  split_and!; [reflexivity | exact Hlen |].
  exact (Hquiet eq_refl eq_refl eq_refl MsgUseClean).
Defined.
